(** * botai: turn selection, relay scheduling and rate limiting

    A shallow embedding of the relay core of the repository:
    - [src/utils/rateLimiter.ts]            (module [RateLimiter])
    - [src/services/telegramService.ts]     (module [TelegramService])
    - the relay queue with chaining, [src/unnamed/part_001] (module [Relay])
    - [src/services/messageQueue.ts]        (module [MessageQueue])
    - [src/controllers/webhookController.ts] (module [WebhookController])
    - [src/services/aiService.ts], the context builder and the choice of
      provider                              (modules [AiService], [AiProviders])
    - [src/middleware/validateWebhook.ts]   (module [ValidateWebhook])
    - [src/controllers/botController.ts]    (module [BotController])

    Asynchronous functions are embedded as computations in a state and
    exception monad over a [World] that holds the Prisma tables, the Redis
    keyspace, the Bull queue, the Telegraf instance registry, the process
    clock, the log, and the scripts of the environment (which external call
    rejects, what the platform and the AI provider answer, what
    [Math.random] draws).  Every handler runs atomically: interleaving of
    concurrent handlers at [await] points is outside the model. *)

From Stdlib Require Import ZArith Lia DecimalString DecimalPos DecimalZ PrimFloat.
From stdpp Require Import base option list strings sorting gmap.

Local Open Scope string_scope.
Local Open Scope list_scope.
Local Open Scope Z_scope.

(** ** JavaScript values the code relies on *)

(** [`${n}`] and [n.toString()] for an integral number. *)
Definition string_of_Z (z : Z) : string := NilZero.string_of_int (Z.to_int z).

(** [parseInt(s, 10)] on the decimal rendering of an integer; [NaN] (a
    string that is no numeral) is represented by [None]. *)
Definition parseInt (s : string) : option Z :=
  Z.of_int <$> NilZero.int_of_string s.

(** [s.substring(0, n)]. *)
Definition substring0 (n : nat) (s : string) : string := String.substring 0 n s.

(** Truthiness of a string: the empty string is falsy. *)
Definition truthy_string (s : string) : bool := negb (bool_decide (s = "")).

(** Truthiness of an optional string ([undefined] is falsy). *)
Definition truthy_ostring (o : option string) : bool :=
  match o with Some s => truthy_string s | None => false end.

(** [a || ''] for an optional string. *)
Definition or_empty (o : option string) : string :=
  match o with Some s => if truthy_string s then s else "" | None => "" end.

(** ** Records of the Prisma schema (migration [20260207223612_init])

    The columns the program reads or writes.  The [updatedAt] column of
    [Bot] and the [createdAt] and [updatedAt] columns of [Group], which the
    Prisma client fills in by itself on every write of the row and the
    program never mentions, are not part of the records: what is said
    below of a row that has been written is said of the columns kept
    here. *)

Record Bot := mkBot {
  bot_id : string;
  bot_token : string;
  bot_username : string;
  bot_personality : string;
  bot_groupId : string;
  bot_isActive : bool;
  bot_createdAt : Z
}.

Record Message := mkMessage {
  msg_id : Z;
  msg_botId : string;
  msg_groupId : string;
  msg_text : string;
  msg_timestamp : Z;
  msg_isAiGenerated : bool;
  msg_telegramMsgId : option Z
}.

Record Group := mkGroup {
  grp_id : string;
  grp_telegramId : string;
  grp_name : string;
  grp_activeBots : Z
}.

(** ** Queue payload and options *)

Record MessageJobData := mkJobData {
  botToken : string;
  botId : string;
  groupId : string;
  groupTelegramId : string;
  respondingBotUsername : string;
  personality : string;
  replyToMsgId : option Z
}.

Inductive BackoffType := exponential | fixed.

Record JobOptions := mkJobOptions {
  opt_delay : Z;
  opt_attempts : Z;
  opt_backoff_type : BackoffType;
  opt_backoff_delay : Z;
  opt_removeOnComplete : Z;
  opt_removeOnFail : Z
}.

Record Job := mkJob {
  job_id : Z;
  job_data : MessageJobData;
  job_opts : JobOptions
}.

(** ** Log *)

Inductive Level := debug | info | warn | error.

Record LogEntry := mkLog { log_level : Level; log_text : string }.

(** ** Redis sorted sets

    A sorted set is kept as the list of its (score, member) pairs in
    ascending order of score, members of equal score in ascending byte
    order; a key carries an optional expiry deadline in milliseconds. *)

Definition ZSet := list (Z * string).

Record RedisKey := mkRedisKey {
  rk_zset : ZSet;
  rk_expireAt : option Z
}.

(** ** Messages accepted by the platform *)

Record Sent := mkSent {
  sent_token : string;
  sent_chatId : string;
  sent_text : string;
  sent_replyTo : option Z;
  sent_messageId : Z
}.

(** ** The world *)

Record World := mkWorld {
  (* Prisma tables, in insertion order *)
  w_bots : list Bot;
  w_groups : list Group;
  w_messages : list Message;
  w_nextMsgId : Z;
  (* Redis keyspace *)
  w_redis : gmap string RedisKey;
  (* Bull queue [message-relay] *)
  w_queue : list Job;
  w_nextJobId : Z;
  (* telegramService's [botInstances] registry, keyed by token *)
  w_botInstances : gset string;
  (* messages the platform has accepted *)
  w_outbox : list Sent;
  (* Date.now(), also the clock of the database and of Redis *)
  w_clock : Z;
  w_log : list LogEntry;
  (* HTTP statuses sent by the webhook handler *)
  w_statuses : list Z;
  (* the external calls issued so far, by name *)
  w_calls : list string;
  (* environment scripts *)
  w_prisma_faults : list bool;   (* one entry per Prisma query: true = the query rejects *)
  w_redis_faults : list bool;    (* one entry per Redis command: true = the command rejects *)
  w_bull_faults : list bool;     (* one entry per Bull call: true = the call rejects *)
  w_telegram : list (option Z);  (* one entry per telegram.sendMessage: message_id, or None = rejects *)
  w_ai : list (option string);   (* one entry per generateResponse: text, or None = rejects *)
  w_random : list Z              (* one entry per Math.random(): numerator over 2^53 *)
}.

Definition set_messages (f : list Message → list Message) (w : World) : World :=
  mkWorld (w_bots w) (w_groups w) (f (w_messages w)) (w_nextMsgId w) (w_redis w)
    (w_queue w) (w_nextJobId w) (w_botInstances w) (w_outbox w) (w_clock w) (w_log w)
    (w_statuses w) (w_calls w) (w_prisma_faults w) (w_redis_faults w) (w_bull_faults w)
    (w_telegram w) (w_ai w) (w_random w).

Definition set_nextMsgId (n : Z) (w : World) : World :=
  mkWorld (w_bots w) (w_groups w) (w_messages w) n (w_redis w) (w_queue w)
    (w_nextJobId w) (w_botInstances w) (w_outbox w) (w_clock w) (w_log w) (w_statuses w)
    (w_calls w) (w_prisma_faults w) (w_redis_faults w) (w_bull_faults w) (w_telegram w)
    (w_ai w) (w_random w).

Definition set_redis (f : gmap string RedisKey → gmap string RedisKey) (w : World) : World :=
  mkWorld (w_bots w) (w_groups w) (w_messages w) (w_nextMsgId w) (f (w_redis w))
    (w_queue w) (w_nextJobId w) (w_botInstances w) (w_outbox w) (w_clock w) (w_log w)
    (w_statuses w) (w_calls w) (w_prisma_faults w) (w_redis_faults w) (w_bull_faults w)
    (w_telegram w) (w_ai w) (w_random w).

Definition set_queue (f : list Job → list Job) (w : World) : World :=
  mkWorld (w_bots w) (w_groups w) (w_messages w) (w_nextMsgId w) (w_redis w)
    (f (w_queue w)) (w_nextJobId w) (w_botInstances w) (w_outbox w) (w_clock w)
    (w_log w) (w_statuses w) (w_calls w) (w_prisma_faults w) (w_redis_faults w)
    (w_bull_faults w) (w_telegram w) (w_ai w) (w_random w).

Definition set_nextJobId (n : Z) (w : World) : World :=
  mkWorld (w_bots w) (w_groups w) (w_messages w) (w_nextMsgId w) (w_redis w) (w_queue w)
    n (w_botInstances w) (w_outbox w) (w_clock w) (w_log w) (w_statuses w) (w_calls w)
    (w_prisma_faults w) (w_redis_faults w) (w_bull_faults w) (w_telegram w) (w_ai w)
    (w_random w).

Definition set_botInstances (f : gset string → gset string) (w : World) : World :=
  mkWorld (w_bots w) (w_groups w) (w_messages w) (w_nextMsgId w) (w_redis w) (w_queue w)
    (w_nextJobId w) (f (w_botInstances w)) (w_outbox w) (w_clock w) (w_log w)
    (w_statuses w) (w_calls w) (w_prisma_faults w) (w_redis_faults w) (w_bull_faults w)
    (w_telegram w) (w_ai w) (w_random w).

Definition set_outbox (f : list Sent → list Sent) (w : World) : World :=
  mkWorld (w_bots w) (w_groups w) (w_messages w) (w_nextMsgId w) (w_redis w) (w_queue w)
    (w_nextJobId w) (w_botInstances w) (f (w_outbox w)) (w_clock w) (w_log w)
    (w_statuses w) (w_calls w) (w_prisma_faults w) (w_redis_faults w) (w_bull_faults w)
    (w_telegram w) (w_ai w) (w_random w).

Definition set_clock (t : Z) (w : World) : World :=
  mkWorld (w_bots w) (w_groups w) (w_messages w) (w_nextMsgId w) (w_redis w) (w_queue w)
    (w_nextJobId w) (w_botInstances w) (w_outbox w) t (w_log w) (w_statuses w)
    (w_calls w) (w_prisma_faults w) (w_redis_faults w) (w_bull_faults w) (w_telegram w)
    (w_ai w) (w_random w).

Definition set_log (f : list LogEntry → list LogEntry) (w : World) : World :=
  mkWorld (w_bots w) (w_groups w) (w_messages w) (w_nextMsgId w) (w_redis w) (w_queue w)
    (w_nextJobId w) (w_botInstances w) (w_outbox w) (w_clock w) (f (w_log w))
    (w_statuses w) (w_calls w) (w_prisma_faults w) (w_redis_faults w) (w_bull_faults w)
    (w_telegram w) (w_ai w) (w_random w).

Definition set_statuses (f : list Z → list Z) (w : World) : World :=
  mkWorld (w_bots w) (w_groups w) (w_messages w) (w_nextMsgId w) (w_redis w) (w_queue w)
    (w_nextJobId w) (w_botInstances w) (w_outbox w) (w_clock w) (w_log w)
    (f (w_statuses w)) (w_calls w) (w_prisma_faults w) (w_redis_faults w)
    (w_bull_faults w) (w_telegram w) (w_ai w) (w_random w).

Definition set_calls (f : list string → list string) (w : World) : World :=
  mkWorld (w_bots w) (w_groups w) (w_messages w) (w_nextMsgId w) (w_redis w) (w_queue w)
    (w_nextJobId w) (w_botInstances w) (w_outbox w) (w_clock w) (w_log w) (w_statuses w)
    (f (w_calls w)) (w_prisma_faults w) (w_redis_faults w) (w_bull_faults w)
    (w_telegram w) (w_ai w) (w_random w).

Definition set_prisma_faults (fs : list bool) (w : World) : World :=
  mkWorld (w_bots w) (w_groups w) (w_messages w) (w_nextMsgId w) (w_redis w) (w_queue w)
    (w_nextJobId w) (w_botInstances w) (w_outbox w) (w_clock w) (w_log w) (w_statuses w)
    (w_calls w) fs (w_redis_faults w) (w_bull_faults w) (w_telegram w) (w_ai w)
    (w_random w).

Definition set_redis_faults (fs : list bool) (w : World) : World :=
  mkWorld (w_bots w) (w_groups w) (w_messages w) (w_nextMsgId w) (w_redis w) (w_queue w)
    (w_nextJobId w) (w_botInstances w) (w_outbox w) (w_clock w) (w_log w) (w_statuses w)
    (w_calls w) (w_prisma_faults w) fs (w_bull_faults w) (w_telegram w) (w_ai w)
    (w_random w).

Definition set_bull_faults (fs : list bool) (w : World) : World :=
  mkWorld (w_bots w) (w_groups w) (w_messages w) (w_nextMsgId w) (w_redis w) (w_queue w)
    (w_nextJobId w) (w_botInstances w) (w_outbox w) (w_clock w) (w_log w) (w_statuses w)
    (w_calls w) (w_prisma_faults w) (w_redis_faults w) fs (w_telegram w) (w_ai w)
    (w_random w).

Definition set_telegram (l : list (option Z)) (w : World) : World :=
  mkWorld (w_bots w) (w_groups w) (w_messages w) (w_nextMsgId w) (w_redis w) (w_queue w)
    (w_nextJobId w) (w_botInstances w) (w_outbox w) (w_clock w) (w_log w) (w_statuses w)
    (w_calls w) (w_prisma_faults w) (w_redis_faults w) (w_bull_faults w) l (w_ai w)
    (w_random w).

Definition set_ai (l : list (option string)) (w : World) : World :=
  mkWorld (w_bots w) (w_groups w) (w_messages w) (w_nextMsgId w) (w_redis w) (w_queue w)
    (w_nextJobId w) (w_botInstances w) (w_outbox w) (w_clock w) (w_log w) (w_statuses w)
    (w_calls w) (w_prisma_faults w) (w_redis_faults w) (w_bull_faults w) (w_telegram w)
    l (w_random w).

Definition set_random (l : list Z) (w : World) : World :=
  mkWorld (w_bots w) (w_groups w) (w_messages w) (w_nextMsgId w) (w_redis w) (w_queue w)
    (w_nextJobId w) (w_botInstances w) (w_outbox w) (w_clock w) (w_log w) (w_statuses w)
    (w_calls w) (w_prisma_faults w) (w_redis_faults w) (w_bull_faults w) (w_telegram w)
    (w_ai w) l.

Definition set_bots (f : list Bot → list Bot) (w : World) : World :=
  mkWorld (f (w_bots w)) (w_groups w) (w_messages w) (w_nextMsgId w) (w_redis w)
    (w_queue w) (w_nextJobId w) (w_botInstances w) (w_outbox w) (w_clock w) (w_log w)
    (w_statuses w) (w_calls w) (w_prisma_faults w) (w_redis_faults w) (w_bull_faults w)
    (w_telegram w) (w_ai w) (w_random w).

Definition set_groups (f : list Group → list Group) (w : World) : World :=
  mkWorld (w_bots w) (f (w_groups w)) (w_messages w) (w_nextMsgId w) (w_redis w)
    (w_queue w) (w_nextJobId w) (w_botInstances w) (w_outbox w) (w_clock w) (w_log w)
    (w_statuses w) (w_calls w) (w_prisma_faults w) (w_redis_faults w) (w_bull_faults w)
    (w_telegram w) (w_ai w) (w_random w).

(** ** The monad of asynchronous computations

    A computation either resolves to a value or rejects with an [Error]
    whose [message] is carried by [Throw]; in both cases the world it has
    reached is kept, since effects done before a rejection are not undone. *)

Inductive Result (A : Type) : Type :=
| Ok (a : A)
| Throw (message : string).
Arguments Ok {A} a.
Arguments Throw {A} message.

Definition M (A : Type) : Type := World → Result A * World.

Definition ret {A} (a : A) : M A := λ w, (Ok a, w).

Definition bind {A B} (m : M A) (k : A → M B) : M B :=
  λ w, match m w with
       | (Ok a, w') => k a w'
       | (Throw e, w') => (Throw e, w')
       end.

Definition throw {A} (e : string) : M A := λ w, (Throw e, w).

(** [try { body } catch (error) { handler(error.message) }]. *)
Definition try_catch {A} (body : M A) (handler : string → M A) : M A :=
  λ w, match body w with
       | (Ok a, w') => (Ok a, w')
       | (Throw e, w') => handler e w'
       end.

Definition get : M World := λ w, (Ok w, w).
Definition modify (f : World → World) : M unit := λ w, (Ok tt, f w).

Notation "'let*' x ':=' c 'in' k" := (bind c (λ x, k))
  (at level 10, x name, c at level 100, k at level 200).
Notation "c ';;;' k" := (bind c (λ _, k))
  (at level 100, k at level 200, right associativity).

(** ** External collaborators *)

(** The logger never rejects. *)
Definition logger (lv : Level) (text : string) : M unit :=
  modify (set_log (λ l, l ++ [mkLog lv text])).

(** Every call to Prisma, Redis or Bull is recorded by name and takes the
    next entry of the fault script of its service: [true] makes the call
    reject.  An exhausted script means no further faults. *)
Inductive Service := prisma | redis | bull.

Definition service_name (svc : Service) : string :=
  match svc with prisma => "prisma" | redis => "redis" | bull => "bull" end.

Definition faults_of (svc : Service) : World → list bool :=
  match svc with
  | prisma => w_prisma_faults
  | redis => w_redis_faults
  | bull => w_bull_faults
  end.

Definition set_faults_of (svc : Service) : list bool → World → World :=
  match svc with
  | prisma => set_prisma_faults
  | redis => set_redis_faults
  | bull => set_bull_faults
  end.

Definition external (svc : Service) (op : string) : M unit :=
  λ w, let w := set_calls (λ l, l ++ [service_name svc +:+ "." +:+ op]) w in
       match faults_of svc w with
       | true :: fs => (Throw (service_name svc +:+ " unavailable"), set_faults_of svc fs w)
       | false :: fs => (Ok tt, set_faults_of svc fs w)
       | [] => (Ok tt, w)
       end.

(** [Date.now()]. *)
Definition Date_now : M Z := λ w, (Ok (w_clock w), w).

(** [new Promise(resolve => setTimeout(resolve, ms))]. *)
Definition sleep (ms : Z) : M unit := modify (λ w, set_clock (w_clock w + ms) w).

(** [Math.random()] is [k / 2^53] for the next scripted [k], reduced into
    [0, 2^53); [Math.floor(Math.random() * n)] is computed exactly. (A
    double product rounds to nearest, which for [n] below [2^31] can move
    the floor by one only at a multiple of [1/n] and never reaches [n].) *)
Definition random_floor (n : Z) : M Z :=
  λ w, match w_random w with
       | k :: ks => (Ok ((k mod 2 ^ 53) * n / 2 ^ 53), set_random ks w)
       | [] => (Ok 0, w)
       end.

(** [await p] for a promise [p] the environment has settled: it resolves
    or rejects as [p] does and leaves the world alone. *)
Definition settled {A} (p : Result A) : M A := λ w, (p, w).

(** The first row satisfying [p] replaced by its image under [f]: an update
    through a unique key. *)
Fixpoint update_first {A} (p : A → bool) (f : A → A) (l : list A) : list A :=
  match l with
  | [] => []
  | x :: l' => if p x then f x :: l' else x :: update_first p f l'
  end.

(** The values of an [INTEGER] column. *)
Definition int4 (z : Z) : bool := (- 2 ^ 31 <=? z) && (z <? 2 ^ 31).

(** ** Prisma: the queries the relay core issues

    Tables are lists in insertion order.  [orderBy] is a merge sort on the
    ordering column; [findFirst]/[findUnique] return the first row of the
    result.  Each query is one external call. *)

Module Prisma.

Definition createdAt_asc : relation Bot :=
  λ a b, bot_createdAt a ≤ bot_createdAt b.

Definition timestamp_desc : relation Message :=
  λ a b, msg_timestamp b ≤ msg_timestamp a.

#[global] Instance createdAt_asc_dec a b : Decision (createdAt_asc a b).
Proof. unfold createdAt_asc. apply _. Defined.

#[global] Instance timestamp_desc_dec a b : Decision (timestamp_desc a b).
Proof. unfold timestamp_desc. apply _. Defined.

(** [prisma.bot.findUnique({ where: { token } })] *)
Definition bot_findUnique (token : string) : M (option Bot) :=
  external prisma "bot.findUnique" ;;;
  let* w := get in
  ret (List.find (λ b, bool_decide (bot_token b = token)) (w_bots w)).

(** [prisma.group.findUnique({ where: { telegramId } })] *)
Definition group_findUnique (telegramId : string) : M (option Group) :=
  external prisma "group.findUnique" ;;;
  let* w := get in
  ret (List.find (λ g, bool_decide (grp_telegramId g = telegramId)) (w_groups w)).

(** [prisma.bot.findFirst({ where })] *)
Definition bot_findFirst (where_ : Bot → bool) : M (option Bot) :=
  external prisma "bot.findFirst" ;;;
  let* w := get in
  ret (List.find where_ (w_bots w)).

(** [prisma.bot.findMany({ where, orderBy: { createdAt: 'asc' } })] *)
Definition bot_findMany (where_ : Bot → bool) : M (list Bot) :=
  external prisma "bot.findMany" ;;;
  let* w := get in
  ret (merge_sort createdAt_asc (List.filter where_ (w_bots w))).

(** [prisma.message.findFirst({ where })] *)
Definition message_findFirst (where_ : Message → bool) : M (option Message) :=
  external prisma "message.findFirst" ;;;
  let* w := get in
  ret (List.find where_ (w_messages w)).

(** [prisma.message.findFirst({ where, orderBy: { timestamp: 'desc' } })] *)
Definition message_findFirst_desc (where_ : Message → bool) : M (option Message) :=
  external prisma "message.findFirst" ;;;
  let* w := get in
  ret (head (merge_sort timestamp_desc (List.filter where_ (w_messages w)))).

(** [prisma.message.findMany({ where, orderBy: { timestamp: 'desc' },
    take, include: { bot: true } })]: each row comes with its bot. *)
Definition message_findMany_desc (where_ : Message → bool) (take_ : nat)
  : M (list (Message * option Bot)) :=
  external prisma "message.findMany" ;;;
  let* w := get in
  ret (List.map
         (λ m, (m, List.find (λ b, bool_decide (bot_id b = msg_botId m)) (w_bots w)))
         (take take_ (merge_sort timestamp_desc (List.filter where_ (w_messages w))))).

(** [prisma.message.create({ data })]: the row gets a fresh key and the
    current timestamp; the foreign key [Message_botId_fkey] rejects a
    [botId] that is no bot. *)
Definition message_create (botId groupId text : string) (isAiGenerated : bool)
    (telegramMsgId : Z) : M Message :=
  external prisma "message.create" ;;;
  let* w := get in
  if existsb (λ b, bool_decide (bot_id b = botId)) (w_bots w) then
    let m := mkMessage (w_nextMsgId w) botId groupId text (w_clock w)
               isAiGenerated (Some telegramMsgId) in
    modify (λ w, set_nextMsgId (w_nextMsgId w + 1) (set_messages (λ l, l ++ [m]) w)) ;;;
    ret m
  else throw "Foreign key constraint failed on the field: Message_botId_fkey".

(** The queries of the bot controller.  A row that is created gets the key
    the client has generated for it, here the argument [id]; the primary
    keys and the unique indexes [Bot_token_key] and [Group_telegramId_key]
    reject a second row with the same value. *)

(** [prisma.bot.findUnique({ where: { id } })] *)
Definition bot_findUnique_id (id : string) : M (option Bot) :=
  external prisma "bot.findUnique" ;;;
  let* w := get in
  ret (List.find (λ b, bool_decide (bot_id b = id)) (w_bots w)).

(** [prisma.group.upsert({ where: { telegramId }, create: { telegramId,
    name, activeBots: 1 }, update: { activeBots: { increment: 1 } } })] *)
Definition group_upsert (id telegramId name : string) : M Group :=
  external prisma "group.upsert" ;;;
  let* w := get in
  match List.find (λ g, bool_decide (grp_telegramId g = telegramId)) (w_groups w) with
  | Some g =>
      let g' := mkGroup (grp_id g) (grp_telegramId g) (grp_name g) (grp_activeBots g + 1) in
      if int4 (grp_activeBots g') then
        modify (set_groups
                  (update_first (λ x, bool_decide (grp_telegramId x = telegramId))
                     (λ _, g'))) ;;;
        ret g'
      else throw "Value out of range for the type: integer"
  | None =>
      if existsb (λ g, bool_decide (grp_id g = id)) (w_groups w) then
        throw "Unique constraint failed on the fields: (`id`)"
      else
        let g := mkGroup id telegramId name 1 in
        modify (set_groups (λ l, l ++ [g])) ;;;
        ret g
  end.

(** [prisma.group.update({ where: { telegramId }, data: { activeBots:
    { decrement: 1 } } })] *)
Definition group_update_decrement (telegramId : string) : M Group :=
  external prisma "group.update" ;;;
  let* w := get in
  match List.find (λ g, bool_decide (grp_telegramId g = telegramId)) (w_groups w) with
  | Some g =>
      let g' := mkGroup (grp_id g) (grp_telegramId g) (grp_name g) (grp_activeBots g - 1) in
      if int4 (grp_activeBots g') then
        modify (set_groups
                  (update_first (λ x, bool_decide (grp_telegramId x = telegramId))
                     (λ _, g'))) ;;;
        ret g'
      else throw "Value out of range for the type: integer"
  | None => throw "Record to update not found."
  end.

(** [prisma.bot.create({ data: { token, username, personality, groupId } })]:
    [isActive] and [createdAt] take their defaults. *)
Definition bot_create (id token username personality groupId : string) : M Bot :=
  external prisma "bot.create" ;;;
  let* w := get in
  if existsb (λ b, bool_decide (bot_id b = id)) (w_bots w) then
    throw "Unique constraint failed on the fields: (`id`)"
  else if existsb (λ b, bool_decide (bot_token b = token)) (w_bots w) then
    throw "Unique constraint failed on the fields: (`token`)"
  else
    let b := mkBot id token username personality groupId true (w_clock w) in
    modify (set_bots (λ l, l ++ [b])) ;;;
    ret b.

(** [prisma.bot.update({ where: { id }, data: { isActive } })] *)
Definition bot_update_isActive (id : string) (isActive : bool) : M Bot :=
  external prisma "bot.update" ;;;
  let* w := get in
  match List.find (λ b, bool_decide (bot_id b = id)) (w_bots w) with
  | Some b =>
      let b' := mkBot (bot_id b) (bot_token b) (bot_username b) (bot_personality b)
                  (bot_groupId b) isActive (bot_createdAt b) in
      modify (set_bots (update_first (λ x, bool_decide (bot_id x = id)) (λ _, b'))) ;;;
      ret b'
  | None => throw "Record to update not found."
  end.

(** [prisma.bot.delete({ where: { id } })]: the messages of the bot go with
    it ([Message_botId_fkey] is [ON DELETE CASCADE]). *)
Definition bot_delete (id : string) : M Bot :=
  external prisma "bot.delete" ;;;
  let* w := get in
  match List.find (λ b, bool_decide (bot_id b = id)) (w_bots w) with
  | Some b =>
      modify (λ w, set_messages (List.filter (λ m, negb (bool_decide (msg_botId m = id))))
                     (set_bots (List.filter (λ x, negb (bool_decide (bot_id x = id)))) w)) ;;;
      ret b
  | None => throw "Record to delete does not exist."
  end.

End Prisma.

(** ** Redis: the sorted-set commands the rate limiter issues *)

Module Redis.

(** Order of a sorted set: by score, then by member. *)
Definition entry_le (a b : Z * string) : bool :=
  (a.1 <? b.1) || ((a.1 =? b.1) && String.leb a.2 b.2).

Fixpoint zset_insert (e : Z * string) (zs : ZSet) : ZSet :=
  match zs with
  | [] => [e]
  | x :: zs' => if entry_le e x then e :: zs else x :: zset_insert e zs'
  end.

(** A key whose deadline has passed is gone. *)
Definition lookup_key (key : string) (now : Z) (keys : gmap string RedisKey)
  : option RedisKey :=
  match keys !! key with
  | Some k =>
      match rk_expireAt k with
      | Some deadline => if deadline <=? now then None else Some k
      | None => Some k
      end
  | None => None
  end.

Definition read_zset (key : string) (w : World) : ZSet :=
  match lookup_key key (w_clock w) (w_redis w) with
  | Some k => rk_zset k
  | None => []
  end.

(** Storing a sorted set keeps the deadline of a live key; an empty
    sorted set removes the key. *)
Definition write_zset (key : string) (zs : ZSet) (now : Z)
    (keys : gmap string RedisKey) : gmap string RedisKey :=
  match zs with
  | [] => delete key keys
  | _ => <[key := mkRedisKey zs (lookup_key key now keys ≫= rk_expireAt)]> keys
  end.

(** [redis.zremrangebyscore(key, min, max)]: removes the members with
    [min <= score <= max], returns how many. *)
Definition zremrangebyscore (key : string) (min max : Z) : M Z :=
  external redis "zremrangebyscore" ;;;
  let* w := get in
  let zs := read_zset key w in
  let kept := List.filter (λ e, negb ((min <=? e.1) && (e.1 <=? max))) zs in
  modify (set_redis (write_zset key kept (w_clock w))) ;;;
  ret (Z.of_nat (length zs) - Z.of_nat (length kept)).

(** [redis.zcard(key)] *)
Definition zcard (key : string) : M Z :=
  external redis "zcard" ;;;
  let* w := get in
  ret (Z.of_nat (length (read_zset key w))).

(** [redis.zrange(key, 0, 0, 'WITHSCORES')]: the member of lowest rank
    and its score, both as strings. *)
Definition zrange_first_withscores (key : string) : M (list string) :=
  external redis "zrange" ;;;
  let* w := get in
  ret (match read_zset key w with
       | (score, member) :: _ => [member; string_of_Z score]
       | [] => []
       end).

(** [redis.zadd(key, score, member)]: adds the member or moves it to the
    new score. *)
Definition zadd (key : string) (score : Z) (member : string) : M Z :=
  external redis "zadd" ;;;
  let* w := get in
  let zs := read_zset key w in
  let others := List.filter (λ e, negb (bool_decide (e.2 = member))) zs in
  modify (set_redis (write_zset key (zset_insert (score, member) others) (w_clock w))) ;;;
  ret (Z.of_nat (S (length others)) - Z.of_nat (length zs)).

(** [redis.expire(key, seconds)] *)
Definition expire (key : string) (seconds : Z) : M Z :=
  external redis "expire" ;;;
  let* w := get in
  match lookup_key key (w_clock w) (w_redis w) with
  | Some k =>
      modify (set_redis
                (insert key (mkRedisKey (rk_zset k) (Some (w_clock w + seconds * 1000))))) ;;;
      ret 1
  | None => ret 0
  end.

End Redis.

(** ** Bull: the [message-relay] queue *)

Module Bull.

(** [messageQueue.add(data, opts)] *)
Definition add (data : MessageJobData) (opts : JobOptions) : M Job :=
  external bull "add" ;;;
  let* w := get in
  let job := mkJob (w_nextJobId w) data opts in
  modify (λ w, set_nextJobId (w_nextJobId w + 1) (set_queue (λ q, q ++ [job]) w)) ;;;
  ret job.

(** The worker registered by [messageQueue.process(1, handler)] takes the
    oldest waiting job off the queue and hands it to the handler, one job
    at a time. *)
Definition process_next (handler : Job → M unit) : M unit :=
  let* w := get in
  match w_queue w with
  | job :: rest => modify (set_queue (λ _, rest)) ;;; handler job
  | [] => ret tt
  end.

End Bull.

(** ** src/utils/rateLimiter.ts *)

Module RateLimiter.

Record RateLimitResult := mkRateLimitResult {
  allowed : bool;
  remaining : Z;
  resetIn : option Z   (* a number; [None] is NaN *)
}.

Definition RATE_LIMIT_WINDOW : Z := 1000.
Definition MAX_REQUESTS_PER_WINDOW : Z := 1.

Definition checkRateLimit (botId : string) : M RateLimitResult :=
  let key := "ratelimit:bot:" +:+ botId in
  let* now := Date_now in
  let windowStart := now - RATE_LIMIT_WINDOW in
  try_catch
    ((* Remove old entries *)
     Redis.zremrangebyscore key 0 windowStart ;;;
     (* Count current requests in window *)
     let* count := Redis.zcard key in
     if MAX_REQUESTS_PER_WINDOW <=? count then
       (* Get the oldest entry to calculate reset time *)
       let* oldest := Redis.zrange_first_withscores key in
       let resetIn :=
         if (2 <=? length oldest)%nat
         then (λ score, Z.max 0 (RATE_LIMIT_WINDOW - (now - score)))
                <$> parseInt (nth 1 oldest "")
         else Some RATE_LIMIT_WINDOW in
       ret (mkRateLimitResult false 0 resetIn)
     else
       (* Add current request *)
       Redis.zadd key now (string_of_Z now) ;;;
       Redis.expire key 2 ;;;
       ret (mkRateLimitResult true (MAX_REQUESTS_PER_WINDOW - count - 1) (Some 0)))
    (λ e,
       logger error ("Rate limit check failed: " +:+ e) ;;;
       (* On error, allow the request but log it *)
       ret (mkRateLimitResult true 0 (Some 0))).

Definition waitForRateLimit (botId : string) : M unit :=
  let* result := checkRateLimit botId in
  match resetIn result with
  | Some ms =>
      if negb (allowed result) && (0 <? ms) then
        logger debug ("Rate limited for bot " +:+ botId +:+ ", waiting "
                      +:+ string_of_Z ms +:+ "ms") ;;;
        sleep ms
      else ret tt
  | None => ret tt
  end.

End RateLimiter.

(** ** src/services/telegramService.ts *)

Module TelegramService.

(** [initializeBot(token)]: the Telegraf instance of a token is created
    once and kept in [botInstances]. *)
Definition initializeBot (token : string) : M unit :=
  let* w := get in
  if bool_decide (token ∈ w_botInstances w) then ret tt
  else
    modify (set_botInstances (λ s, {[token]} ∪ s)) ;;;
    logger info ("Bot initialized with token: " +:+ substring0 10 token +:+ "...").

(** [bot.telegram.sendMessage(chatId, text, extra)]: the platform answers
    with the next entry of its script, and rejects when the entry is
    [None] or the script is exhausted. *)
Definition telegram_sendMessage (token chatId text : string)
    (reply_to_message_id : option Z) : M Z :=
  λ w, match w_telegram w with
       | Some message_id :: rest =>
           (Ok message_id,
            set_outbox (λ o, o ++ [mkSent token chatId text reply_to_message_id message_id])
              (set_telegram rest w))
       | None :: rest => (Throw "telegram: request failed", set_telegram rest w)
       | [] => (Throw "telegram: request failed", w)
       end.

Definition sendMessage (token chatId text : string) (replyToMessageId : option Z)
  : M (option Z) :=
  try_catch
    (initializeBot token ;;;
     let* message_id := telegram_sendMessage token chatId text replyToMessageId in
     logger debug ("Message sent to chat " +:+ chatId +:+ ": "
                   +:+ substring0 50 text +:+ "...") ;;;
     ret (Some message_id))
    (λ e,
       logger error ("Failed to send message: " +:+ e) ;;;
       ret None).

Record TelegramBotInfo := mkTelegramBotInfo {
  info_id : Z;
  info_username : string;
  info_firstName : string
}.

(** What [getMe] resolves to. *)
Record UserFromGetMe := mkUserFromGetMe {
  me_id : Z;
  me_username : option string;
  me_first_name : string
}.

(** The platform's answers to the Bot API methods other than
    [sendMessage], each settled by the environment for the arguments of the
    call: [getMe] of a token, [setWebhook] of a token and a URL,
    [deleteWebhook] of a token. *)
Record Telegram := mkTelegram {
  telegram_getMe : string → Result UserFromGetMe;
  telegram_setWebhook : string → string → Result unit;
  telegram_deleteWebhook : string → Result unit
}.

(** [`${x}`] for an optional string. *)
Definition template (o : option string) : string := default "undefined" o.

(** Validate bot token with Telegram API. *)
Definition validateToken (tg : Telegram) (token : string) : M (option TelegramBotInfo) :=
  try_catch
    (let* me := settled (telegram_getMe tg token) in
     logger info ("Token validated for bot: @" +:+ template (me_username me)) ;;;
     ret (Some (mkTelegramBotInfo (me_id me) (or_empty (me_username me))
                  (me_first_name me))))
    (λ e,
       logger error ("Token validation failed: " +:+ e) ;;;
       ret None).

(** Set webhook for a bot. *)
Definition setWebhook (tg : Telegram) (token webhookUrl : string) : M bool :=
  try_catch
    (initializeBot token ;;;
     settled (telegram_setWebhook tg token webhookUrl) ;;;
     logger info ("Webhook set for bot: " +:+ webhookUrl) ;;;
     ret true)
    (λ e,
       logger error ("Failed to set webhook: " +:+ e) ;;;
       ret false).

(** Remove webhook for a bot. *)
Definition removeWebhook (tg : Telegram) (token : string) : M bool :=
  try_catch
    (initializeBot token ;;;
     settled (telegram_deleteWebhook tg token) ;;;
     logger info "Webhook removed for bot" ;;;
     ret true)
    (λ e,
       logger error ("Failed to remove webhook: " +:+ e) ;;;
       ret false).

(** Get bot instance by token: the instance, which is known by its token,
    or [undefined]. *)
Definition getBotInstance (token : string) : M (option string) :=
  let* w := get in
  ret (if bool_decide (token ∈ w_botInstances w) then Some token else None).

(** Remove bot instance. *)
Definition removeBotInstance (token : string) : M unit :=
  modify (set_botInstances (λ s, s ∖ {[token]})).

(** Get webhook callback for Express: the callback is known by the path it
    serves. *)
Definition getWebhookCallback (token : string) : M string :=
  let* w := get in
  if bool_decide (token ∈ w_botInstances w) then ret ("/webhook/" +:+ token)
  else throw "Bot not initialized".

End TelegramService.

(** ** src/services/aiService.ts, at its interface

    [generateResponse] resolves to the text of the configured provider or
    rejects (no provider, provider failure, empty answer); the providers
    are scripted: [None] or an exhausted script is a rejection. *)

Module AiService.

Record ConversationMessage := mkConversationMessage {
  cm_botUsername : string;
  cm_text : string;
  cm_isAiGenerated : bool
}.

Definition generateResponse (personality : string)
    (conversationHistory : list ConversationMessage)
    (respondingBotUsername : string) : M string :=
  λ w, match w_ai w with
       | Some text :: rest => (Ok text, set_ai rest w)
       | None :: rest => (Throw "AI provider failed", set_ai rest w)
       | [] => (Throw "No AI provider configured. Set OPENAI_API_KEY or GEMINI_API_KEY", w)
       end.

(** [l.slice(-n)]: the last [n] elements. *)
Definition slice_last {A} (n : nat) (l : list A) : list A := drop (length l - n) l.

(** The line feed of ['\n']. *)
Definition newline : string := String (Ascii.ascii_of_nat 10) EmptyString.

(** Build conversation context. *)
Definition buildConversationContext (messages : list ConversationMessage) : string :=
  String.concat newline
    ((λ msg, "@" +:+ cm_botUsername msg +:+ ": " +:+ cm_text msg)
       <$> slice_last 10 messages).

End AiService.

(** ** src/services/aiService.ts: the choice of provider

    [generateResponse] as the file has it, over the two provider functions.
    [generateWithOpenAI] and [generateWithGemini] (a network request, then
    a regular expression applied to the answer) and [buildSystemPrompt] are
    parameters; [openai] and [genAI] tell whether the key of the provider is
    configured.  [AiService.generateResponse] above is this function seen
    from its caller. *)

Module AiProviders.

Section providers.

Variable openai genAI : bool.
Variable buildSystemPrompt : string → string → string.
Variable generateWithOpenAI generateWithGemini : string → string → string → M string.

(** Generate AI response using OpenAI (primary) or Gemini (fallback). *)
Definition generateResponse (personality : string)
    (conversationHistory : list AiService.ConversationMessage)
    (respondingBotUsername : string) : M string :=
  let systemPrompt := buildSystemPrompt personality respondingBotUsername in
  let context := AiService.buildConversationContext conversationHistory in
  (* Try OpenAI first *)
  let* answered :=
    if openai then
      try_catch
        (let* text := generateWithOpenAI systemPrompt context respondingBotUsername in
         ret (Some text))
        (λ e,
           logger warn ("OpenAI failed, trying Gemini: " +:+ e) ;;;
           ret None)
    else ret None in
  match answered with
  | Some text => ret text
  | None =>
      (* Fall back to Gemini *)
      if genAI then
        try_catch
          (generateWithGemini systemPrompt context respondingBotUsername)
          (λ e,
             logger error ("Gemini also failed: " +:+ e) ;;;
             throw e)
      else throw "No AI provider configured. Set OPENAI_API_KEY or GEMINI_API_KEY"
  end.

End providers.

End AiProviders.

(** ** JavaScript arrays *)

(** [l.findIndex(p)]: the index of the first element satisfying [p], or -1. *)
Fixpoint findIndex {A} (p : A → bool) (l : list A) : Z :=
  match l with
  | [] => -1
  | x :: l' =>
      if p x then 0
      else let i := findIndex p l' in if i =? -1 then -1 else i + 1
  end.

(** [l.map(f)] for a callback that may throw. *)
Fixpoint mapM {A B} (f : A → M B) (l : list A) : M (list B) :=
  match l with
  | [] => ret []
  | x :: l' => let* y := f x in let* ys := mapM f l' in ret (y :: ys)
  end.

(** What [selectNextBot] returns about the chosen bot. *)
Record NextBot := mkNextBot {
  nb_id : string;
  nb_token : string;
  nb_username : string;
  nb_personality : string
}.

(** The options every job is added with. *)
Definition jobOptions (delay : Z) : JobOptions :=
  mkJobOptions delay 3 exponential 1000 100 50.

(** ** The relay queue with chaining (src/unnamed/part_001) *)

Module Relay.

(** Add a message job to the queue with delay. *)
Definition addToQueue (data : MessageJobData) : M Job :=
  let* r := random_floor 1000 in
  let delay := r + 500 in
  let* job := Bull.add data (jobOptions delay) in
  logger info ("Message job " +:+ string_of_Z (job_id job) +:+ " added to queue with "
               +:+ string_of_Z delay +:+ "ms delay") ;;;
  ret job.

(** Select the next bot to respond (round-robin). *)
Definition selectNextBot (groupUuid groupTelegramId excludeBotId : string)
  : M (option NextBot) :=
  try_catch
    ((* Get all active bots in the group (using Telegram ID) except the one that just sent *)
     let* bots := Prisma.bot_findMany
                    (λ b, bool_decide (bot_groupId b = groupTelegramId)
                          && bot_isActive b
                          && negb (bool_decide (bot_id b = excludeBotId))) in
     if (length bots =? 0)%nat then
       logger warn ("No active bots found for group " +:+ groupTelegramId) ;;;
       ret None
     else
       (* Get the last message to determine whose turn it is (using UUID) *)
       let* lastMessage := Prisma.message_findFirst_desc
                             (λ m, bool_decide (msg_groupId m = groupUuid)
                                   && msg_isAiGenerated m) in
       (* Find the next bot in rotation *)
       let nextBotIndex :=
         match lastMessage with
         | Some lastMessage =>
             let lastBotIndex :=
               findIndex (λ b, bool_decide (bot_id b = msg_botId lastMessage)) bots in
             if negb (lastBotIndex =? -1)
             then (lastBotIndex + 1) mod Z.of_nat (length bots)
             else 0
         | None => 0
         end in
       match bots !! Z.to_nat nextBotIndex with
       | Some nextBot =>
           ret (Some (mkNextBot (bot_id nextBot) (bot_token nextBot)
                        (bot_username nextBot) (bot_personality nextBot)))
       | None => throw "Cannot read properties of undefined (reading 'id')"
       end)
    (λ e,
       logger error ("Bot selection failed: " +:+ e) ;;;
       ret None).

(** Process message jobs from the queue. *)
Definition processMessage (job : Job) : M unit :=
  let '(mkJobData botToken botId groupId groupTelegramId respondingBotUsername
          personality replyToMsgId) := job_data job in
  logger info ("Processing message job " +:+ string_of_Z (job_id job)
               +:+ " for bot @" +:+ respondingBotUsername) ;;;
  try_catch
    ((* Wait for rate limit *)
     RateLimiter.waitForRateLimit botId ;;;
     (* Fetch recent conversation history *)
     let* recentMessages := Prisma.message_findMany_desc
                              (λ m, bool_decide (msg_groupId m = groupId)) 10 in
     (* Build conversation context *)
     let* conversationHistory :=
       mapM (λ '(msg, bot),
               let* botUsername :=
                 if msg_isAiGenerated msg then
                   match bot with
                   | Some b => ret (bot_username b)
                   | None => throw "Cannot read properties of null (reading 'username')"
                   end
                 else ret "User" in
               ret (AiService.mkConversationMessage botUsername (msg_text msg)
                      (msg_isAiGenerated msg)))
            (reverse recentMessages) in
     (* Generate AI response *)
     let* responseText :=
       AiService.generateResponse personality conversationHistory respondingBotUsername in
     (* Send message to Telegram (with Reply ID if present) *)
     let* sentMessageId :=
       TelegramService.sendMessage botToken groupTelegramId responseText replyToMsgId in
     match sentMessageId with
     | Some sent =>
         if negb (sent =? 0) then
           (* Store the sent message *)
           Prisma.message_create botId groupId responseText true sent ;;;
           logger info ("Bot @" +:+ respondingBotUsername +:+ " sent: "
                        +:+ substring0 50 responseText +:+ "...") ;;;
           (* Find the NEXT bot to respond (excluding the current one) *)
           let* nextBot := selectNextBot groupId groupTelegramId botId in
           match nextBot with
           | Some nextBot =>
               addToQueue (mkJobData (nb_token nextBot) (nb_id nextBot) groupId
                             groupTelegramId (nb_username nextBot)
                             (nb_personality nextBot) None) ;;;
               logger info ("Valid relay: Triggering response from @"
                            +:+ nb_username nextBot)
           | None =>
               logger info "No other bots in group to continue conversation"
           end
         else ret tt
     | None => ret tt
     end)
    (λ e,
       logger error ("Message processing failed: " +:+ e) ;;;
       throw e (* Re-throw to trigger retry *)).

(** Initialize queue processor: one job at a time. *)
Definition deliver_next : M unit := Bull.process_next processMessage.

End Relay.

(** ** src/services/messageQueue.ts *)

Module MessageQueue.

(** Add a message job to the queue with delay. *)
Definition addToQueue (data : MessageJobData) : M Job :=
  (* Random delay between 3-5 seconds to appear natural *)
  let* r := random_floor 2000 in
  let delay := r + 3000 in
  let* job := Bull.add data (jobOptions delay) in
  logger info ("Message job " +:+ string_of_Z (job_id job) +:+ " added to queue with "
               +:+ string_of_Z delay +:+ "ms delay") ;;;
  ret job.

(** Select the next bot to respond (round-robin). *)
Definition selectNextBot (groupId_ excludeBotId : string) : M (option NextBot) :=
  try_catch
    ((* Get all active bots in the group except the one that just sent *)
     let* bots := Prisma.bot_findMany
                    (λ b, bool_decide (bot_groupId b = groupId_)
                          && bot_isActive b
                          && negb (bool_decide (bot_id b = excludeBotId))) in
     if (length bots =? 0)%nat then ret None
     else
       (* Get the last message to determine whose turn it is *)
       let* lastMessage := Prisma.message_findFirst_desc
                             (λ m, bool_decide (msg_groupId m = groupId_)
                                   && msg_isAiGenerated m) in
       (* Find the next bot in rotation *)
       let nextBotIndex :=
         match lastMessage with
         | Some lastMessage =>
             let lastBotIndex :=
               findIndex (λ b, bool_decide (bot_id b = msg_botId lastMessage)) bots in
             if negb (lastBotIndex =? -1)
             then (lastBotIndex + 1) mod Z.of_nat (length bots)
             else 0
         | None => 0
         end in
       match bots !! Z.to_nat nextBotIndex with
       | Some nextBot =>
           ret (Some (mkNextBot (bot_id nextBot) (bot_token nextBot)
                        (bot_username nextBot) (bot_personality nextBot)))
       | None => throw "Cannot read properties of undefined (reading 'id')"
       end)
    (λ e,
       logger error ("Bot selection failed: " +:+ e) ;;;
       ret None).

(** Process message jobs from the queue. *)
Definition processMessage (job : Job) : M unit :=
  let '(mkJobData botToken botId groupId groupTelegramId respondingBotUsername
          personality _) := job_data job in
  logger info ("Processing message job " +:+ string_of_Z (job_id job)
               +:+ " for bot @" +:+ respondingBotUsername) ;;;
  try_catch
    ((* Wait for rate limit *)
     RateLimiter.waitForRateLimit botId ;;;
     (* Fetch recent conversation history *)
     let* recentMessages := Prisma.message_findMany_desc
                              (λ m, bool_decide (msg_groupId m = groupId)) 10 in
     (* Build conversation context *)
     let* conversationHistory :=
       mapM (λ '(msg, bot),
               match bot with
               | Some b =>
                   ret (AiService.mkConversationMessage (bot_username b) (msg_text msg)
                          (msg_isAiGenerated msg))
               | None => throw "Cannot read properties of null (reading 'username')"
               end)
            (reverse recentMessages) in
     (* Generate AI response *)
     let* responseText :=
       AiService.generateResponse personality conversationHistory respondingBotUsername in
     (* Send message to Telegram *)
     let* messageId :=
       TelegramService.sendMessage botToken groupTelegramId responseText None in
     match messageId with
     | Some sent =>
         if negb (sent =? 0) then
           (* Store the sent message *)
           Prisma.message_create botId groupId responseText true sent ;;;
           logger info ("Bot @" +:+ respondingBotUsername +:+ " sent: "
                        +:+ substring0 50 responseText +:+ "...")
         else ret tt
     | None => ret tt
     end)
    (λ e,
       logger error ("Message processing failed: " +:+ e) ;;;
       throw e (* Re-throw to trigger retry *)).

End MessageQueue.

(** ** src/controllers/webhookController.ts *)

Module WebhookController.

Record TelegramChat := mkChat {
  chat_id : Z;
  chat_type : string;
  chat_title : option string
}.

Record TelegramUser := mkUser {
  user_id : Z;
  user_username : option string;
  user_is_bot : bool
}.

Record TelegramMessage := mkTelegramMessage {
  message_id : Z;
  chat : TelegramChat;
  from : option TelegramUser;
  text : option string
}.

Record TelegramUpdate := mkUpdate {
  update_id : Z;
  message : option TelegramMessage
}.

(** The request: [req.params.botToken] and [req.body]. *)
Record Request := mkRequest {
  req_botToken : string;
  req_body : TelegramUpdate
}.

(** The block "Store the message (if text exists) and avoid duplicates" of
    [handleWebhook] (lines 77-100), for the receiving [bot], the [group] and
    the [sendingBot] resolved before it. *)
Definition storeMessage (bot : Bot) (group : Group) (sendingBot : option Bot)
    (message : TelegramMessage) (message_text : string)
    (senderUsername : option string) : M unit :=
  if truthy_string message_text then
    let* existingMessage :=
      Prisma.message_findFirst
        (λ m, bool_decide (msg_telegramMsgId m = Some (message_id message))
              && bool_decide (msg_groupId m = grp_id group)) in
    match existingMessage with
    | None =>
        Prisma.message_create
          (match sendingBot with Some sb => bot_id sb | None => bot_id bot end)
          (grp_id group) message_text
          (match sendingBot with Some _ => true | None => false end)
          (message_id message) ;;;
        logger info ("Message stored: " +:+ substring0 20 message_text +:+ "... from "
                     +:+ (if truthy_ostring senderUsername
                          then default "" senderUsername else "user"))
    | Some _ =>
        logger debug ("Duplicate message ignored: "
                      +:+ string_of_Z (message_id message))
    end
  else ret tt.

(** The block "If message is from a user or another bot, trigger AI
    response" of [handleWebhook] (lines 102-125). *)
Definition triggerResponse (bot : Bot) (group : Group) (sendingBot : option Bot)
    (chatId : string) : M unit :=
  (* Don't respond to our own bot's messages *)
  if match sendingBot with
     | None => true
     | Some sb => negb (bool_decide (bot_id sb = bot_id bot))
     end
  then
    (* Select next bot to respond *)
    let* nextBot := Relay.selectNextBot (grp_id group) (grp_telegramId group)
                      (or_empty (bot_id <$> sendingBot)) in
    (* Only queue if WE are the chosen one *)
    match nextBot with
    | Some nextBot =>
        if negb (bool_decide (nb_id nextBot = or_empty (bot_id <$> sendingBot)))
           && bool_decide (nb_id nextBot = bot_id bot)
        then
          (* Initialize bot instance if not already *)
          TelegramService.initializeBot (nb_token nextBot) ;;;
          (* Queue the response *)
          Relay.addToQueue (mkJobData (nb_token nextBot) (nb_id nextBot) (grp_id group)
                              chatId (nb_username nextBot) (nb_personality nextBot)
                              None) ;;;
          logger info ("Queued response from @" +:+ nb_username nextBot)
        else ret tt
    | None => ret tt
    end
  else ret tt.

(** Handle incoming Telegram webhook updates. *)
Definition handleWebhook (req : Request) : M unit :=
  let botToken := req_botToken req in
  let update := req_body req in
  (* Respond immediately to Telegram *)
  modify (set_statuses (λ l, l ++ [200])) ;;;
  try_catch
    (match message update with
     | None => ret tt
     | Some message =>
     (* Only process text messages *)
     match text message with
     | None => ret tt
     | Some message_text =>
     if negb (truthy_string message_text) then ret tt else
     let chatId := string_of_Z (chat_id (chat message)) in
     let chatType := chat_type (chat message) in
     (* Only process group messages *)
     if negb (bool_decide (chatType = "group"))
        && negb (bool_decide (chatType = "supergroup")) then
       logger debug ("Ignoring non-group message from chat " +:+ chatId)
     else
     (* Find the bot that received this message *)
     let* bot := Prisma.bot_findUnique botToken in
     match bot with
     | None => logger warn "Received webhook for unregistered bot"
     | Some bot =>
     (* Check if this group is registered *)
     let* group := Prisma.group_findUnique chatId in
     match group with
     | None => logger debug ("Message from unregistered group " +:+ chatId)
     | Some group =>
     (* Check if message is from a registered bot *)
     let isFromBot := user_is_bot <$> from message in
     let senderUsername := from message ≫= user_username in
     (* Find the sending bot if it's one of ours *)
     let* sendingBot :=
       match isFromBot, senderUsername with
       | Some true, Some username =>
           if truthy_string username then
             Prisma.bot_findFirst
               (λ b, bool_decide (bot_username b = username)
                     && bool_decide (bot_groupId b = chatId))
           else ret None
       | _, _ => ret None
       end in
     (* Store the message (if text exists) and avoid duplicates *)
     storeMessage bot group sendingBot message message_text senderUsername ;;;
     (* If message is from a user or another bot, trigger AI response *)
     triggerResponse bot group sendingBot chatId
     end end end end)
    (λ e, logger error ("Webhook handling failed: " +:+ e)).

(** *** The handler as the event loop runs it

    [handleWebhook] is an async function: at each [await] it hands control
    back, and other handlers run before it resumes.  The two definitions
    below cut it at [await prisma.message.create] (line 87): what one
    invocation does until it has found no row for the message and asks the
    store to insert one, and what it does from the moment the store
    executes the insert.  An invocation that does not get that far (it
    returns early, finds the row, or fails) is complete after the first
    part. *)

Inductive Suspended :=
| completed
| awaiting_create (bot : Bot) (group : Group) (sendingBot : option Bot)
    (message : TelegramMessage) (message_text : string)
    (senderUsername : option string).

(** [handleWebhook] up to the [await] of line 87. *)
Definition handleWebhook_until_create (req : Request) : M Suspended :=
  let botToken := req_botToken req in
  let update := req_body req in
  (* Respond immediately to Telegram *)
  modify (set_statuses (λ l, l ++ [200])) ;;;
  try_catch
    (match message update with
     | None => ret completed
     | Some message =>
     (* Only process text messages *)
     match text message with
     | None => ret completed
     | Some message_text =>
     if negb (truthy_string message_text) then ret completed else
     let chatId := string_of_Z (chat_id (chat message)) in
     let chatType := chat_type (chat message) in
     (* Only process group messages *)
     if negb (bool_decide (chatType = "group"))
        && negb (bool_decide (chatType = "supergroup")) then
       logger debug ("Ignoring non-group message from chat " +:+ chatId) ;;;
       ret completed
     else
     (* Find the bot that received this message *)
     let* bot := Prisma.bot_findUnique botToken in
     match bot with
     | None => logger warn "Received webhook for unregistered bot" ;;; ret completed
     | Some bot =>
     (* Check if this group is registered *)
     let* group := Prisma.group_findUnique chatId in
     match group with
     | None =>
         logger debug ("Message from unregistered group " +:+ chatId) ;;; ret completed
     | Some group =>
     (* Check if message is from a registered bot *)
     let isFromBot := user_is_bot <$> from message in
     let senderUsername := from message ≫= user_username in
     (* Find the sending bot if it's one of ours *)
     let* sendingBot :=
       match isFromBot, senderUsername with
       | Some true, Some username =>
           if truthy_string username then
             Prisma.bot_findFirst
               (λ b, bool_decide (bot_username b = username)
                     && bool_decide (bot_groupId b = chatId))
           else ret None
       | _, _ => ret None
       end in
     (* Store the message (if text exists) and avoid duplicates *)
     if truthy_string message_text then
       let* existingMessage :=
         Prisma.message_findFirst
           (λ m, bool_decide (msg_telegramMsgId m = Some (message_id message))
                 && bool_decide (msg_groupId m = grp_id group)) in
       match existingMessage with
       | None =>
           ret (awaiting_create bot group sendingBot message message_text senderUsername)
       | Some _ =>
           logger debug ("Duplicate message ignored: "
                         +:+ string_of_Z (message_id message)) ;;;
           triggerResponse bot group sendingBot chatId ;;;
           ret completed
       end
     else
       triggerResponse bot group sendingBot chatId ;;;
       ret completed
     end end end end)
    (λ e, logger error ("Webhook handling failed: " +:+ e) ;;; ret completed).

(** [handleWebhook] from the [await] of line 87 on. *)
Definition handleWebhook_from_create (s : Suspended) : M unit :=
  match s with
  | completed => ret tt
  | awaiting_create bot group sendingBot message message_text senderUsername =>
      try_catch
        (Prisma.message_create
           (match sendingBot with Some sb => bot_id sb | None => bot_id bot end)
           (grp_id group) message_text
           (match sendingBot with Some _ => true | None => false end)
           (message_id message) ;;;
         logger info ("Message stored: " +:+ substring0 20 message_text +:+ "... from "
                      +:+ (if truthy_ostring senderUsername
                           then default "" senderUsername else "user")) ;;;
         (* If message is from a user or another bot, trigger AI response *)
         triggerResponse bot group sendingBot
           (string_of_Z (chat_id (chat message))))
        (λ e, logger error ("Webhook handling failed: " +:+ e))
  end.

(** Two invocations that overlap: each has made its existence check
    before the insert of the other is executed. *)
Definition handleWebhook_overlapping (req1 req2 : Request) : M unit :=
  let* s1 := handleWebhook_until_create req1 in
  let* s2 := handleWebhook_until_create req2 in
  handleWebhook_from_create s1 ;;;
  handleWebhook_from_create s2.

End WebhookController.


(** ** src/middleware/validateWebhook.ts *)

Module ValidateWebhook.

(** The values of a parsed request body; a number is a double. *)
#[local] Unset Elimination Schemes.
Inductive JsValue :=
| JsNull
| JsBool (b : bool)
| JsNumber (n : float)
| JsString (s : string)
| JsArray (items : list JsValue)
| JsObject (props : list (string * JsValue)).
#[local] Set Elimination Schemes.

(** Truthiness; [undefined] is [None]. *)
Definition truthy (v : option JsValue) : bool :=
  match v with
  | None | Some JsNull => false
  | Some (JsBool b) => b
  | Some (JsNumber n) => negb (PrimFloat.is_zero n || PrimFloat.is_nan n)
  | Some (JsString s) => truthy_string s
  | Some (JsArray _) | Some (JsObject _) => true
  end.

(** [typeof v === 'object'] *)
Definition typeof_object (v : option JsValue) : bool :=
  match v with
  | Some JsNull | Some (JsArray _) | Some (JsObject _) => true
  | _ => false
  end.

(** [v[key]] for a name that is no index and no built-in property. *)
Definition property (key : string) (v : option JsValue) : option JsValue :=
  match v with
  | Some (JsObject props) => snd <$> List.find (λ p, bool_decide (p.1 = key)) props
  | _ => None
  end.

Record Request := mkRequest {
  params_botToken : option string;                 (* req.params.botToken *)
  body : option JsValue;                           (* req.body *)
  x_telegram_bot_api_secret_token : option string  (* the request header *)
}.

(** What the middleware does with the request: it hands it on, or answers
    it with a status and an error. *)
Inductive Verdict :=
| next
| rejected (status : Z) (error : string).

(** Middleware to validate Telegram webhook requests. *)
Definition validateWebhook (WEBHOOK_SECRET : option string) (req : Request) : M Verdict :=
  let botToken := params_botToken req in
  if negb (truthy_ostring botToken) then
    logger warn "Webhook request without bot token" ;;;
    ret (rejected 400 "Bot token required")
  else
  (* Telegram sends updates as JSON with specific structure *)
  if negb (truthy (body req)) || negb (typeof_object (body req)) then
    logger warn "Invalid webhook payload" ;;;
    ret (rejected 400 "Invalid payload")
  else
  (* Check for required Telegram update fields *)
  let update := body req in
  if negb (truthy (property "update_id" update)) then
    logger warn "Missing update_id in webhook payload" ;;;
    ret (rejected 400 "Invalid Telegram update")
  else
  (* Optionally verify using secret token if configured *)
  let secretToken := WEBHOOK_SECRET in
  if truthy_ostring secretToken
     && negb (bool_decide (x_telegram_bot_api_secret_token req = secretToken)) then
    logger warn "Invalid webhook secret token" ;;;
    ret (rejected 403 "Forbidden")
  else ret next.

End ValidateWebhook.

(** ** src/controllers/botController.ts *)

Module BotController.

(** The request body as the interface declares it: each field a string, or
    absent. *)
Record RegisterBotBody := mkRegisterBotBody {
  rb_token : option string;
  rb_personality : option string;
  rb_groupId : option string
}.

(** The JSON bodies the handlers answer with. *)
Inductive Body :=
| error_body (error : string)
    (* { error } *)
| registered_body (id username personality groupId webhookUrl : string)
    (* { success: true, bot: { id, username, personality, groupId, webhookUrl } } *)
| deleted_body (message : string)
    (* { success: true, message } *)
| toggled_body (id username : string) (isActive : bool).
    (* { success: true, bot: { id, username, isActive } } *)

Record Response := mkResponse {
  res_status : Z;
  res_body : Body
}.

Section handlers.

(** [process.env.WEBHOOK_DOMAIN] *)
Variable env_WEBHOOK_DOMAIN : option string.
(** The platform's answers. *)
Variable tg : TelegramService.Telegram.
(** The keys the Prisma client generates for a new Group and a new Bot. *)
Variable new_group_id new_bot_id : string.

Definition WEBHOOK_DOMAIN : string :=
  if truthy_ostring env_WEBHOOK_DOMAIN then default "" env_WEBHOOK_DOMAIN
  else "https://yourdomain.com".

(** Register a new bot: POST /api/bots. *)
Definition registerBot (req_body : RegisterBotBody) : M Response :=
  try_catch
    (let '(mkRegisterBotBody token personality groupId) := req_body in
     (* Validate required fields *)
     match token, personality, groupId with
     | Some token, Some personality, Some groupId =>
       if negb (truthy_string token) || negb (truthy_string personality)
          || negb (truthy_string groupId)
       then ret (mkResponse 400
                   (error_body "Missing required fields: token, personality, groupId"))
       else
       (* Check if bot already exists *)
       let* existingBot := Prisma.bot_findUnique token in
       match existingBot with
       | Some _ => ret (mkResponse 409 (error_body "Bot already registered"))
       | None =>
       (* Validate token with Telegram API *)
       let* botInfo := TelegramService.validateToken tg token in
       match botInfo with
       | None => ret (mkResponse 400 (error_body "Invalid bot token"))
       | Some botInfo =>
       (* Create or update group *)
       Prisma.group_upsert new_group_id groupId ("Group " +:+ groupId) ;;;
       (* Create bot record *)
       let* bot := Prisma.bot_create new_bot_id token
                     (TelegramService.info_username botInfo) personality groupId in
       (* Set webhook *)
       let webhookUrl := WEBHOOK_DOMAIN +:+ "/webhook/" +:+ token in
       let* webhookSet := TelegramService.setWebhook tg token webhookUrl in
       (if negb webhookSet then
          logger warn ("Failed to set webhook for bot @"
                       +:+ TelegramService.info_username botInfo)
        else ret tt) ;;;
       logger info ("Bot registered: @" +:+ TelegramService.info_username botInfo
                    +:+ " (" +:+ bot_id bot +:+ ")") ;;;
       ret (mkResponse 201
              (registered_body (bot_id bot) (TelegramService.info_username botInfo)
                 (bot_personality bot) (bot_groupId bot) webhookUrl))
       end end
     | _, _, _ =>
       ret (mkResponse 400
              (error_body "Missing required fields: token, personality, groupId"))
     end)
    (λ e,
       logger error ("Bot registration failed: " +:+ e) ;;;
       ret (mkResponse 500 (error_body "Internal server error"))).

(** Delete a bot: DELETE /api/bots/:id. *)
Definition deleteBot (id : string) : M Response :=
  try_catch
    (let* bot := Prisma.bot_findUnique_id id in
     match bot with
     | None => ret (mkResponse 404 (error_body "Bot not found"))
     | Some bot =>
     (* Remove webhook *)
     TelegramService.removeWebhook tg (bot_token bot) ;;;
     TelegramService.removeBotInstance (bot_token bot) ;;;
     (* Delete bot (messages cascade deleted) *)
     Prisma.bot_delete id ;;;
     (* Update group bot count *)
     Prisma.group_update_decrement (bot_groupId bot) ;;;
     logger info ("Bot deleted: @" +:+ bot_username bot +:+ " (" +:+ id +:+ ")") ;;;
     ret (mkResponse 200 (deleted_body "Bot deleted successfully"))
     end)
    (λ e,
       logger error ("Delete bot failed: " +:+ e) ;;;
       ret (mkResponse 500 (error_body "Internal server error"))).

(** Toggle bot active status: PATCH /api/bots/:id/toggle. *)
Definition toggleBot (id : string) : M Response :=
  try_catch
    (let* bot := Prisma.bot_findUnique_id id in
     match bot with
     | None => ret (mkResponse 404 (error_body "Bot not found"))
     | Some bot =>
     let* updatedBot := Prisma.bot_update_isActive id (negb (bot_isActive bot)) in
     logger info ("Bot " +:+ (if bot_isActive updatedBot then "activated" else "deactivated")
                  +:+ ": @" +:+ bot_username bot) ;;;
     ret (mkResponse 200
            (toggled_body (bot_id updatedBot) (bot_username updatedBot)
               (bot_isActive updatedBot)))
     end)
    (λ e,
       logger error ("Toggle bot failed: " +:+ e) ;;;
       ret (mkResponse 500 (error_body "Internal server error"))).

End handlers.

End BotController.
(** * Specification vocabulary *)

(** ** Outcomes of computations *)

(** [wp m Q w]: running [m] from [w] ends in an outcome satisfying [Q]. *)
Definition wp {A} (m : M A) (Q : Result A → World → Prop) (w : World) : Prop :=
  Q (m w).1 (m w).2.

(** Computations that never reject. *)
Definition never_throws {A} (m : M A) : Prop := ∀ w, ∃ a, (m w).1 = Ok a.

(** Computations that move the world along a relation. *)
Definition respects (R : relation World) {A} (m : M A) : Prop :=
  ∀ w, R w (m w).2.

(** The preorder that keeps one component of the world. *)
Definition keeps {B} (proj : World → B) : relation World :=
  λ w w', proj w' = proj w.

(** The preorder that lets the call trace grow by calls satisfying [P]. *)
Definition calls_grow (P : string → Prop) : relation World :=
  λ w w', ∃ cs, w_calls w' = w_calls w ++ cs ∧ Forall P cs.

(** The preorder that lets the queue grow by jobs satisfying [P]. *)
Definition queue_grow (P : Job → Prop) : relation World :=
  λ w w', ∃ js, w_queue w' = w_queue w ++ js ∧ Forall P js.

Definition is_redis_call (s : string) : Prop := String.prefix "redis." s = true.

(** What the rate limiter leaves alone. *)
Definition outside_redis (w : World) :=
  (w_bots w, w_groups w, w_messages w, w_nextMsgId w, w_queue w, w_nextJobId w,
   w_botInstances w, w_outbox w, w_statuses w, w_prisma_faults w, w_bull_faults w,
   w_telegram w, w_ai w, w_random w).

(** What the selector leaves alone. *)
Definition outside_selector (w : World) :=
  (w_bots w, w_groups w, w_messages w, w_nextMsgId w, w_redis w, w_queue w,
   w_nextJobId w, w_botInstances w, w_outbox w, w_clock w, w_statuses w,
   w_redis_faults w, w_bull_faults w, w_telegram w, w_ai w, w_random w).

(** What a send leaves alone. *)
Definition outside_send (w : World) :=
  (w_bots w, w_groups w, w_messages w, w_nextMsgId w, w_redis w, w_queue w,
   w_nextJobId w, w_clock w, w_statuses w, w_calls w, w_prisma_faults w,
   w_redis_faults w, w_bull_faults w, w_ai w, w_random w).

(** ** Turn selection *)

(** The bots [selectNextBot] chooses among: the active bots of the group
    other than the excluded one. *)
Definition is_eligible (groupTelegramId excludeBotId : string) (b : Bot) : bool :=
  bool_decide (bot_groupId b = groupTelegramId)
  && bot_isActive b
  && negb (bool_decide (bot_id b = excludeBotId)).

(** ... in order of registration. *)
Definition eligible (groupTelegramId excludeBotId : string) (w : World) : list Bot :=
  merge_sort Prisma.createdAt_asc
    (List.filter (is_eligible groupTelegramId excludeBotId) (w_bots w)).

(** The most recent AI-generated message of a group, as the selector sees it. *)
Definition lastAiMessage (groupUuid : string) (w : World) : option Message :=
  head (merge_sort Prisma.timestamp_desc
          (List.filter (λ m, bool_decide (msg_groupId m = groupUuid) && msg_isAiGenerated m)
             (w_messages w))).

Definition nextBot_of (b : Bot) : NextBot :=
  mkNextBot (bot_id b) (bot_token b) (bot_username b) (bot_personality b).

(** The index [selectNextBot] computes from the eligible bots and the last
    AI-generated message. *)
Definition nextBotIndex (bots : list Bot) (lastMessage : option Message) : Z :=
  match lastMessage with
  | Some lastMessage =>
      let lastBotIndex :=
        findIndex (λ b, bool_decide (bot_id b = msg_botId lastMessage)) bots in
      if negb (lastBotIndex =? -1)
      then (lastBotIndex + 1) mod Z.of_nat (length bots)
      else 0
  | None => 0
  end.

(** No AI-generated message is stored for the group. *)
Definition no_ai_message (groupUuid : string) (w : World) : Prop :=
  ∀ m, m ∈ w_messages w → msg_groupId m = groupUuid → msg_isAiGenerated m = false.

(** [b] is the earliest-registered bot among those [selectNextBot] may
    choose for the group. *)
Definition earliest_eligible (groupTelegramId excludeBotId : string) (w : World)
    (b : Bot) : Prop :=
  b ∈ w_bots w ∧ is_eligible groupTelegramId excludeBotId b = true ∧
  head (eligible groupTelegramId excludeBotId w) = Some b ∧
  ∀ b', b' ∈ w_bots w → is_eligible groupTelegramId excludeBotId b' = true →
        bot_createdAt b ≤ bot_createdAt b'.

(** ** Rate limiting *)

Definition ratelimit_key (botId : string) : string := "ratelimit:bot:" +:+ botId.

(** No request of the bot is left in the window that ends now. *)
Definition window_free (botId : string) (w : World) : Prop :=
  ∀ e, e ∈ Redis.read_zset (ratelimit_key botId) w →
       0 ≤ e.1 ≤ w_clock w - RateLimiter.RATE_LIMIT_WINDOW.

(** No recorded request of the bot is later than now. *)
Definition no_future_entry (botId : string) (w : World) : Prop :=
  ∀ e, e ∈ Redis.read_zset (ratelimit_key botId) w → e.1 ≤ w_clock w.

(** ** Enqueueing *)

(** The delay of a job lies in [lo, hi). *)
Definition delay_within (lo hi : Z) (j : Job) : Prop :=
  lo ≤ opt_delay (job_opts j) < hi.

(** The retry policy of a job. *)
Definition retry_policy (j : Job) : Z * BackoffType * Z :=
  (opt_attempts (job_opts j), opt_backoff_type (job_opts j), opt_backoff_delay (job_opts j)).

(** What every job of the queue with chaining satisfies. *)
Definition relay_job (j : Job) : Prop :=
  delay_within 500 1500 j ∧ retry_policy j = (3, exponential, 1000).

(** ** Delivery *)

(** The platform rejects the next send. *)
Definition send_rejected (w : World) : Prop :=
  w_telegram w = [] ∨ ∃ rest, w_telegram w = None :: rest.

(** The platform accepts the next send and numbers the message [id]. *)
Definition send_accepted (id : Z) (w : World) : Prop :=
  id ≠ 0 ∧ ∃ rest, w_telegram w = Some id :: rest.

(** The AI provider rejects the next request. *)
Definition generation_rejected (w : World) : Prop :=
  w_ai w = [] ∨ ∃ rest, w_ai w = None :: rest.

(** Every AI-generated message of the group is owned by a stored bot (the
    foreign key [Message_botId_fkey]). *)
Definition history_intact (groupUuid : string) (w : World) : Prop :=
  ∀ m, m ∈ w_messages w → msg_groupId m = groupUuid → msg_isAiGenerated m = true →
       ∃ b, List.find (λ b, bool_decide (bot_id b = msg_botId m)) (w_bots w) = Some b.

(** The bot of the job is still registered, so that the foreign key lets
    its message be stored. *)
Definition bot_registered (botId : string) (w : World) : Prop :=
  existsb (λ b, bool_decide (bot_id b = botId)) (w_bots w) = true.

(** The entry of the conversation context built from a message and its bot. *)
Definition context_entry (x : Message * option Bot) : AiService.ConversationMessage :=
  AiService.mkConversationMessage
    (if msg_isAiGenerated x.1 then from_option bot_username "" x.2 else "User")
    (msg_text x.1) (msg_isAiGenerated x.1).

(** The calls a delivery issues before it sends: the rate limiter's Redis
    commands, then the history query. *)
Definition calls_before_send (cs : list string) : Prop :=
  ∃ rs, cs = rs ++ ["prisma.message.findMany"] ∧ Forall is_redis_call rs.

(** The log record of a send the platform rejected. *)
Definition send_failure_logged : LogEntry :=
  mkLog error "Failed to send message: telegram: request failed".

(** The log record of a failed selection. *)
Definition selection_failure_logged : LogEntry :=
  mkLog error "Bot selection failed: prisma unavailable".

(** The log record of a delivery that failed at the enqueue. *)
Definition enqueue_failure_logged : LogEntry :=
  mkLog error "Message processing failed: bull unavailable".

(** A delivery has sent and persisted: the outbox holds the message sent
    for the job and the Message table its record. *)
Definition sent_and_persisted (job : Job) (text : string) (id : Z) (w w' : World) : Prop :=
  w_outbox w' = w_outbox w ++
    [mkSent (botToken (job_data job)) (groupTelegramId (job_data job)) text
       (replyToMsgId (job_data job)) id] ∧
  ∃ ts, w_messages w' = w_messages w ++
    [mkMessage (w_nextMsgId w) (botId (job_data job)) (groupId (job_data job)) text ts
       true (Some id)].

(** The steps of a delivery up to and including the persist succeed: the
    history query and [message.create] are not due to fail, the provider
    answers [text], the platform accepts the send as message [id], the
    history is intact and the job's bot is registered. *)
Definition delivers (job : Job) (text : string) (id : Z) (w : World) : Prop :=
  w_prisma_faults w !! 0%nat ≠ Some true ∧
  w_prisma_faults w !! 1%nat ≠ Some true ∧
  (∃ ais, w_ai w = Some text :: ais) ∧
  send_accepted id w ∧
  history_intact (groupId (job_data job)) w ∧
  bot_registered (botId (job_data job)) w.

(** A lookup of the chained selection is due to fail. *)
Definition chained_selection_fails (w : World) : Prop :=
  w_prisma_faults w !! 2%nat = Some true ∨ w_prisma_faults w !! 3%nat = Some true.

(** The chained selection finds a bot, and enqueueing its job is due to fail. *)
Definition chained_enqueue_fails (job : Job) (w : World) : Prop :=
  w_prisma_faults w !! 2%nat ≠ Some true ∧
  w_prisma_faults w !! 3%nat ≠ Some true ∧
  (∃ b0, b0 ∈ w_bots w ∧
         is_eligible (groupTelegramId (job_data job)) (botId (job_data job)) b0 = true) ∧
  head (w_bull_faults w) = Some true.

(** ** Webhook handling *)

(** The job the webhook handler builds for the selected bot. *)
Definition response_job_data (nb : NextBot) (group : Group) (chatId : string)
  : MessageJobData :=
  mkJobData (nb_token nb) (nb_id nb) (grp_id group) chatId (nb_username nb)
    (nb_personality nb) None.

(** The handler has added at most one job, the response job of [nb]. *)
Definition enqueued_for (nb : NextBot) (group : Group) (chatId : string)
    (w w' : World) : Prop :=
  ∃ job, w_queue w' = w_queue w ++ [job] ∧
         job_data job = response_job_data nb group chatId.

(** The number of Message rows stored for a (group, platform message id) pair. *)
Definition stored_count (groupUuid : string) (telegramMsgId : Z) (msgs : list Message) : nat :=
  length (List.filter
            (λ m, bool_decide (msg_telegramMsgId m = Some telegramMsgId)
                  && bool_decide (msg_groupId m = groupUuid))
            msgs).

(** At most one Message row per (group, platform message id) pair. *)
Definition unique_pairs (msgs : list Message) : Prop :=
  ∀ g mid, (stored_count g mid msgs ≤ 1)%nat.

(** One row for the pair has been appended, none having been there. *)
Definition stored_new (g : string) (mid : Z) (msgs msgs' : list Message) : Prop :=
  stored_count g mid msgs = 0%nat ∧
  ∃ m, msgs' = msgs ++ [m] ∧ msg_groupId m = g ∧ msg_telegramMsgId m = Some mid.

(** A text message of a group chat. *)
Definition group_text_message (msg : WebhookController.TelegramMessage) (txt : string)
  : Prop :=
  WebhookController.text msg = Some txt ∧ truthy_string txt = true ∧
  (WebhookController.chat_type (WebhookController.chat msg) = "group" ∨
   WebhookController.chat_type (WebhookController.chat msg) = "supergroup").

(** ** A group of three bots

    Bots A, B and C registered in that order into the Telegram group
    [-100] (stored as group [g1]), all active; the platform and the AI
    provider answer every request. *)

Definition botA : Bot := mkBot "A" "tokA" "alice" "curious" "-100" true 0.
Definition botB : Bot := mkBot "B" "tokB" "bob" "grumpy" "-100" true 1.
Definition botC : Bot := mkBot "C" "tokC" "carol" "cheerful" "-100" true 2.
Definition group1 : Group := mkGroup "g1" "-100" "room" 3.

Definition three_bots : World :=
  mkWorld [botA; botB; botC] [group1] [] 0 ∅ [] 1 ∅ [] 1000000 [] [] []
    [] [] []
    [Some 11; Some 12; Some 13; Some 14; Some 15; Some 16]
    [Some "hi"; Some "yo"; Some "sup"; Some "lol"; Some "brb"; Some "g2g"]
    [0; 0; 0; 0; 0; 0; 0].

(** The three bots with a scripted [Math.random]: the first draw is the
    largest possible, the second the smallest. *)
Definition three_bots_drawing : World :=
  set_random [2 ^ 53 - 1; 0] three_bots.

(** A job for bot A of the three bots. *)
Definition jobA : Job :=
  mkJob 1 (mkJobData "tokA" "A" "g1" "-100" "alice" "curious" None) (jobOptions 500).

(** The text message "hello" of a human in the group. *)
Definition hello_message : WebhookController.TelegramMessage :=
  WebhookController.mkTelegramMessage 10
    (WebhookController.mkChat (-100) "group" None)
    (Some (WebhookController.mkUser 77 (Some "joe") false))
    (Some "hello").

(** The update carrying it reaches the webhook of the bot with the given
    token. *)
Definition human_hello (token : string) : WebhookController.Request :=
  WebhookController.mkRequest token (WebhookController.mkUpdate 1 (Some hello_message)).

(** The worker picks the waiting job up once its delay has elapsed. *)
Definition deliver_after_delay : M unit :=
  let* w := get in
  match w_queue w with
  | job :: _ => sleep (opt_delay (job_opts job)) ;;; Relay.deliver_next
  | [] => ret tt
  end.

Fixpoint deliveries (n : nat) : M unit :=
  match n with
  | O => ret tt
  | S n' => deliver_after_delay ;;; deliveries n'
  end.

(** The authors of the AI-generated messages stored, oldest first. *)
Definition speakers (w : World) : list string :=
  msg_botId <$> List.filter msg_isAiGenerated (w_messages w).


(** * Vocabulary for the rest of the code *)

(** ** Rate limiting *)

(** The log record of a rate-limit check that Redis has failed. *)
Definition rate_limit_failure_logged : LogEntry :=
  mkLog error "Rate limit check failed: redis unavailable".

(** ** Turn selection *)

(** The log record of a selection that finds no candidate. *)
Definition no_candidates_logged (groupTelegramId : string) : LogEntry :=
  mkLog warn ("No active bots found for group " +:+ groupTelegramId).

(** The three bots after one of them has spoken: one AI-generated message
    of [author] is stored for the group. *)
Definition spoken (author : string) : Message :=
  mkMessage 0 author "g1" "hi" 1000000 true (Some 11).

Definition three_bots_after (author : string) : World :=
  set_messages (λ _, [spoken author]) three_bots.

(** ** Delivery *)

(** The preorder that lets the outbox grow by messages satisfying [P]. *)
Definition outbox_grow (P : Sent → Prop) : relation World :=
  λ w w', ∃ ss, w_outbox w' = w_outbox w ++ ss ∧ Forall P ss.

(** A job that replies to no message, and a message sent as no reply. *)
Definition no_reply (j : Job) : Prop := replyToMsgId (job_data j) = None.

Definition sent_without_reply (s : Sent) : Prop := sent_replyTo s = None.

(** The payload of the job a delivery chains for bot [b]. *)
Definition chained_job_data (job : Job) (b : Bot) : MessageJobData :=
  mkJobData (bot_token b) (bot_id b) (groupId (job_data job))
    (groupTelegramId (job_data job)) (bot_username b) (bot_personality b) None.

(** The message a delivery sends. *)
Definition sent_for (job : Job) (text : string) (id : Z) : Sent :=
  mkSent (botToken (job_data job)) (groupTelegramId (job_data job)) text
    (replyToMsgId (job_data job)) id.

(** A call that is neither the selector's query for the candidates nor an
    enqueue. *)
Definition no_chaining (c : string) : Prop :=
  c ≠ "prisma.bot.findMany" ∧ c ≠ "bull.add".

(** ** Webhook handling *)

(** What an update that is only acknowledged leaves alone: everything but
    the statuses sent and the log. *)
Definition outside_ack (w : World) :=
  (w_bots w, w_groups w, w_messages w, w_nextMsgId w, w_redis w, w_queue w,
   w_nextJobId w, w_botInstances w, w_outbox w, w_clock w, w_calls w,
   w_prisma_faults w, w_redis_faults w, w_bull_faults w, w_telegram w, w_ai w,
   w_random w).

(** An update the handler does not process: it carries no message, or a
    message without text, or a message of a chat that is no group. *)
Definition not_group_text (update : WebhookController.TelegramUpdate) : Prop :=
  match WebhookController.message update with
  | None => True
  | Some msg =>
      truthy_ostring (WebhookController.text msg) = false ∨
      (WebhookController.chat_type (WebhookController.chat msg) ≠ "group" ∧
       WebhookController.chat_type (WebhookController.chat msg) ≠ "supergroup")
  end.

(** The lookups the handler makes before it stores or selects. *)
Definition is_registration_lookup (c : string) : Prop :=
  c = "prisma.bot.findUnique" ∨ c = "prisma.group.findUnique".

(** The registered bot a message comes from, as the handler resolves it:
    the sender is flagged as a bot and its username is that of a bot
    registered for the chat. *)
Definition sendingBot_of (msg : WebhookController.TelegramMessage) (bots : list Bot)
  : option Bot :=
  match WebhookController.from msg with
  | Some user =>
      match WebhookController.user_username user with
      | Some username =>
          if WebhookController.user_is_bot user && truthy_string username then
            List.find
              (λ b, bool_decide (bot_username b = username)
                    && bool_decide (bot_groupId b =
                         string_of_Z (WebhookController.chat_id
                                        (WebhookController.chat msg))))
              bots
          else None
      | None => None
      end
  | None => None
  end.

(** The row stored for a message that reaches [bot]: it is attributed to
    the registered bot it comes from and marked AI-generated, or, coming
    from anyone else, attributed to the receiving bot and not marked. *)
Definition stored_row (w : World) (bot : Bot) (group : Group)
    (msg : WebhookController.TelegramMessage) (txt : string) : Message :=
  mkMessage (w_nextMsgId w)
    (match sendingBot_of msg (w_bots w) with Some sb => bot_id sb | None => bot_id bot end)
    (grp_id group) txt (w_clock w)
    (bool_decide (is_Some (sendingBot_of msg (w_bots w))))
    (Some (WebhookController.message_id msg)).

(** A call that is not the selector's query for the candidates. *)
Definition no_selection (c : string) : Prop := c ≠ "prisma.bot.findMany".

(** The message "hi" of the bot alice (bot A) in the group, and the update
    carrying it. *)
Definition alice_message : WebhookController.TelegramMessage :=
  WebhookController.mkTelegramMessage 12
    (WebhookController.mkChat (-100) "group" None)
    (Some (WebhookController.mkUser 1 (Some "alice") true))
    (Some "hi").

Definition alice_says (token : string) : WebhookController.Request :=
  WebhookController.mkRequest token (WebhookController.mkUpdate 2 (Some alice_message)).

(** A private message. *)
Definition private_hello : WebhookController.Request :=
  WebhookController.mkRequest "tokA"
    (WebhookController.mkUpdate 1
       (Some (WebhookController.mkTelegramMessage 10
                (WebhookController.mkChat 5 "private" None) None (Some "hello")))).

(** ** The platform calls of telegramService.ts *)

(** What the platform answers to [getMe], as [validateToken] reports it. *)
Definition botInfo_of (p : Result TelegramService.UserFromGetMe)
  : option TelegramService.TelegramBotInfo :=
  match p with
  | Ok me =>
      Some (TelegramService.mkTelegramBotInfo (TelegramService.me_id me)
              (or_empty (TelegramService.me_username me))
              (TelegramService.me_first_name me))
  | Throw _ => None
  end.

(** Whether a promise has resolved. *)
Definition resolved {A} (p : Result A) : bool :=
  match p with Ok _ => true | Throw _ => false end.

(** What the platform calls leave alone: everything but the instance
    registry and the log. *)
Definition outside_instances (w : World) :=
  (w_bots w, w_groups w, w_messages w, w_nextMsgId w, w_redis w, w_queue w,
   w_nextJobId w, w_outbox w, w_clock w, w_statuses w, w_calls w,
   w_prisma_faults w, w_redis_faults w, w_bull_faults w, w_telegram w, w_ai w,
   w_random w).

(** A platform that knows every token as the bot dave and accepts every
    request, and one that is out of reach. *)
Definition platform : TelegramService.Telegram :=
  TelegramService.mkTelegram
    (λ _, Ok (TelegramService.mkUserFromGetMe 42 (Some "dave") "Dave"))
    (λ _ _, Ok tt) (λ _, Ok tt).

Definition platform_down : TelegramService.Telegram :=
  TelegramService.mkTelegram
    (λ _, Throw "ETIMEDOUT") (λ _ _, Throw "ETIMEDOUT") (λ _, Throw "ETIMEDOUT").

(** A platform that knows every token as the bot dave and refuses every
    request about a webhook. *)
Definition platform_without_webhooks : TelegramService.Telegram :=
  TelegramService.mkTelegram
    (λ _, Ok (TelegramService.mkUserFromGetMe 42 (Some "dave") "Dave"))
    (λ _ _, Throw "Bad Request") (λ _, Throw "Bad Request").

(** ** The conversation context and the providers *)

(** The line of the context for a message. *)
Definition context_line (msg : AiService.ConversationMessage) : string :=
  "@" +:+ AiService.cm_botUsername msg +:+ ": " +:+ AiService.cm_text msg.

Definition no_provider_error : string :=
  "No AI provider configured. Set OPENAI_API_KEY or GEMINI_API_KEY".

(** The world after the failure of OpenAI has been logged. *)
Definition openai_failure_logged (e : string) (w : World) : World :=
  set_log (λ l, l ++ [mkLog warn ("OpenAI failed, trying Gemini: " +:+ e)]) w.

(** What [generateResponse] makes of the outcome of Gemini. *)
Definition gemini_outcome (out : Result string * World) : Result string * World :=
  match out with
  | (Ok text, w) => (Ok text, w)
  | (Throw e, w) =>
      (Throw e, set_log (λ l, l ++ [mkLog error ("Gemini also failed: " +:+ e)]) w)
  end.

(** A history of two messages. *)
Definition short_history : list AiService.ConversationMessage :=
  [AiService.mkConversationMessage "User" "hello" false;
   AiService.mkConversationMessage "alice" "hi" true].

(** A history of ten messages. *)
Definition ten_messages : list AiService.ConversationMessage :=
  replicate 10 (AiService.mkConversationMessage "bob" "yo" true).

(** ** Webhook validation *)

(** A request the middleware lets through: it names a bot token, its body
    is an object whose [update_id] is truthy, and it carries the secret
    when one is configured. *)
Definition well_formed_update (secret : option string) (req : ValidateWebhook.Request)
  : Prop :=
  truthy_ostring (ValidateWebhook.params_botToken req) = true ∧
  (∃ props, ValidateWebhook.body req = Some (ValidateWebhook.JsObject props) ∧
            ValidateWebhook.truthy
              (ValidateWebhook.property "update_id" (ValidateWebhook.body req)) = true) ∧
  (truthy_ostring secret = true →
   ValidateWebhook.x_telegram_bot_api_secret_token req = secret).

(** What the middleware leaves alone: everything but the log. *)
Definition outside_log (w : World) :=
  (w_bots w, w_groups w, w_messages w, w_nextMsgId w, w_redis w, w_queue w,
   w_nextJobId w, w_botInstances w, w_outbox w, w_clock w, w_statuses w, w_calls w,
   w_prisma_faults w, w_redis_faults w, w_bull_faults w, w_telegram w, w_ai w,
   w_random w).

(** An update whose [update_id] is 0. *)
Definition update_zero : ValidateWebhook.Request :=
  ValidateWebhook.mkRequest (Some "tokA")
    (Some (ValidateWebhook.JsObject
             [("update_id", ValidateWebhook.JsNumber 0%float);
              ("message", ValidateWebhook.JsObject [])]))
    None.

(** ** Bot administration *)

(** The handler answers, with one of the statuses listed. *)
Definition answers (statuses : list Z) (r : Result BotController.Response) : Prop :=
  ∃ resp, r = Ok resp ∧ BotController.res_status resp ∈ statuses.

(** The Group row of a chat. *)
Definition group_of (telegramId : string) (w : World) : option Group :=
  List.find (λ g, bool_decide (grp_telegramId g = telegramId)) (w_groups w).

(** The bots counted for a chat; a chat without a Group row counts none. *)
Definition activeBots_of (telegramId : string) (w : World) : Z :=
  from_option grp_activeBots 0 (group_of telegramId w).

(** The Bot row stored under a token, and under a key. *)
Definition bot_of_token (token : string) (w : World) : option Bot :=
  List.find (λ b, bool_decide (bot_token b = token)) (w_bots w).

Definition bot_of_id (id : string) (w : World) : option Bot :=
  List.find (λ b, bool_decide (bot_id b = id)) (w_bots w).

Definition is_bot (id : string) (b : Bot) : bool := bool_decide (bot_id b = id).

(** A complete registration request. *)
Definition registration (token personality groupId : string)
  : BotController.RegisterBotBody :=
  BotController.mkRegisterBotBody (Some token) (Some personality) (Some groupId).

(** A request that lacks a field or has an empty one. *)
Definition incomplete (body : BotController.RegisterBotBody) : Prop :=
  truthy_ostring (BotController.rb_token body)
  && truthy_ostring (BotController.rb_personality body)
  && truthy_ostring (BotController.rb_groupId body) = false.

(** The store can take the rows of a registration: the key generated for
    the bot is new, and the Group row of the chat can count one more bot
    or, there being none, the key generated for it is new. *)
Definition keys_available (new_group_id new_bot_id groupId : string) (w : World) : Prop :=
  (∀ b, b ∈ w_bots w → bot_id b ≠ new_bot_id) ∧
  match group_of groupId w with
  | Some g => int4 (grp_activeBots g + 1) = true
  | None => ∀ g, g ∈ w_groups w → grp_id g ≠ new_group_id
  end.

(** The row of a bot that has just been registered. *)
Definition registered_bot (id token personality groupId : string)
    (me : TelegramService.UserFromGetMe) (w : World) : Bot :=
  mkBot id token (or_empty (TelegramService.me_username me)) personality groupId true
    (w_clock w).

(** The answers of the handlers. *)
Definition created (dom : option string) (b : Bot) : BotController.Response :=
  BotController.mkResponse 201
    (BotController.registered_body (bot_id b) (bot_username b) (bot_personality b)
       (bot_groupId b) (BotController.WEBHOOK_DOMAIN dom +:+ "/webhook/" +:+ bot_token b)).

Definition missing_fields : BotController.Response :=
  BotController.mkResponse 400
    (BotController.error_body "Missing required fields: token, personality, groupId").

Definition already_registered : BotController.Response :=
  BotController.mkResponse 409 (BotController.error_body "Bot already registered").

Definition invalid_token : BotController.Response :=
  BotController.mkResponse 400 (BotController.error_body "Invalid bot token").

Definition internal_error : BotController.Response :=
  BotController.mkResponse 500 (BotController.error_body "Internal server error").

Definition not_found : BotController.Response :=
  BotController.mkResponse 404 (BotController.error_body "Bot not found").

Definition deleted : BotController.Response :=
  BotController.mkResponse 200 (BotController.deleted_body "Bot deleted successfully").

Definition toggled (b : Bot) : BotController.Response :=
  BotController.mkResponse 200
    (BotController.toggled_body (bot_id b) (bot_username b) (bot_isActive b)).

(** The tables of the store. *)
Definition tables (w : World) := (w_bots w, w_groups w, w_messages w).

(** The Bot and Message tables without a bot and without its messages. *)
Definition bots_without (id : string) (bots : list Bot) : list Bot :=
  List.filter (λ b, negb (bool_decide (bot_id b = id))) bots.

Definition messages_without (id : string) (msgs : list Message) : list Message :=
  List.filter (λ m, negb (bool_decide (msg_botId m = id))) msgs.

(** The Group row of the bot's chat is there and can count one bot less. *)
Definition group_counted (b : Bot) (w : World) : Prop :=
  ∃ g, group_of (bot_groupId b) w = Some g ∧ int4 (grp_activeBots g - 1) = true.

(** A bot with its [isActive] flag set. *)
Definition with_isActive (isActive : bool) (b : Bot) : Bot :=
  mkBot (bot_id b) (bot_token b) (bot_username b) (bot_personality b) (bot_groupId b)
    isActive (bot_createdAt b).

(** The columns of a Bot row that [toggleBot] does not write. *)
Definition fixed_columns (b : Bot) :=
  (bot_id b, bot_token b, bot_username b, bot_personality b, bot_groupId b,
   bot_createdAt b).

(** Every stored message is owned by a stored bot ([Message_botId_fkey]). *)
Definition referential (w : World) : Prop :=
  ∀ m, m ∈ w_messages w → bot_registered (msg_botId m) w.

(** * Reasoning about computations *)

Section outcomes.
Context {A : Type}.

Lemma wp_intro (m : M A) Q w r w' : m w = (r, w') → Q r w' → wp m Q w.
Proof. unfold wp. intros ->. done. Qed.

Lemma wp_elim (m : M A) Q w : wp m Q w → ∃ r w', m w = (r, w') ∧ Q r w'.
Proof. unfold wp. destruct (m w) as [r w']. eauto. Qed.

Lemma wp_mono (m : M A) (P Q : Result A → World → Prop) w :
  (∀ r w', P r w' → Q r w') → wp m P w → wp m Q w.
Proof. unfold wp. auto. Qed.

Lemma wp_ret (a : A) Q w : Q (Ok a) w → wp (ret a) Q w.
Proof. done. Qed.

Lemma wp_throw e (Q : Result A → World → Prop) w : Q (Throw e) w → wp (throw e) Q w.
Proof. done. Qed.

Lemma wp_try_catch (body : M A) handler Q w :
  wp body (λ r w', match r with
                   | Ok a => Q (Ok a) w'
                   | Throw e => wp (handler e) Q w'
                   end) w →
  wp (try_catch body handler) Q w.
Proof. unfold wp, try_catch. by destruct (body w) as [[a|e] w']. Qed.

End outcomes.

Lemma wp_bind {A B} (m : M A) (k : A → M B) Q w :
  wp m (λ r w', match r with
                | Ok a => wp (k a) Q w'
                | Throw e => Q (Throw e) w'
                end) w →
  wp (bind m k) Q w.
Proof. unfold wp, bind. by destruct (m w) as [[a|e] w']. Qed.

Lemma wp_get Q w : Q (Ok w) w → wp get Q w.
Proof. done. Qed.

Lemma wp_modify f Q w : Q (Ok tt) (f w) → wp (modify f) Q w.
Proof. done. Qed.

Lemma wp_logger lv s Q w :
  Q (Ok tt) (set_log (λ l, l ++ [mkLog lv s]) w) → wp (logger lv s) Q w.
Proof. done. Qed.

Lemma wp_Date_now Q w : Q (Ok (w_clock w)) w → wp Date_now Q w.
Proof. done. Qed.

Lemma wp_sleep ms Q w : Q (Ok tt) (set_clock (w_clock w + ms) w) → wp (sleep ms) Q w.
Proof. done. Qed.

Lemma wp_random_floor n Q w :
  0 < n →
  (∀ r, 0 ≤ r < n → Q (Ok r) (set_random (tail (w_random w)) w)) →
  wp (random_floor n) Q w.
Proof.
  intros Hn H. unfold wp, random_floor. destruct (w_random w) as [|k ks] eqn:E.
  - assert (set_random [] w = w) as Heta by (destruct w; simpl in *; by subst).
    specialize (H 0 ltac:(lia)). simpl in H. by rewrite Heta in H.
  - simpl. apply H.
    pose proof (Z.mod_pos_bound k (2 ^ 53) ltac:(lia)) as Hk.
    split; [apply Z.div_pos; nia|].
    apply Z.div_lt_upper_bound; nia.
Qed.

(** An external call either rejects, when a fault is due, or resolves; in
    both cases the call is recorded and the fault script advances. *)
Lemma wp_external svc op Q w :
  (let w1 := set_faults_of svc (tail (faults_of svc w))
               (set_calls (λ l, l ++ [service_name svc +:+ "." +:+ op]) w) in
   (head (faults_of svc w) ≠ Some true → Q (Ok tt) w1) ∧
   (head (faults_of svc w) = Some true →
    Q (Throw (service_name svc +:+ " unavailable")) w1)) →
  wp (external svc op) Q w.
Proof.
  unfold wp, external. cbv zeta. intros [Hok Hfail].
  replace (faults_of svc (set_calls _ w)) with (faults_of svc w) by (by destruct svc).
  destruct (faults_of svc w) as [|[] fs] eqn:E; simpl in *.
  - replace (set_calls _ w) with
      (set_faults_of svc [] (set_calls (λ l, l ++ [service_name svc +:+ "." +:+ op]) w));
      [by apply Hok|].
    destruct w, svc; simpl in *; by subst.
  - by apply Hfail.
  - by apply Hok.
Qed.

(** ** Computations that never reject *)

Lemma never_throws_ret {A} (a : A) : never_throws (ret a).
Proof. intros w. by exists a. Qed.

Lemma never_throws_bind {A B} (m : M A) (k : A → M B) :
  never_throws m → (∀ a, never_throws (k a)) → never_throws (bind m k).
Proof.
  intros Hm Hk w. unfold bind. destruct (Hm w) as [a Ha].
  destruct (m w) as [r w']. simpl in Ha. subst r. apply Hk.
Qed.

Lemma never_throws_try_catch {A} (body : M A) handler :
  (∀ e, never_throws (handler e)) → never_throws (try_catch body handler).
Proof.
  intros Hh w. unfold try_catch. destruct (body w) as [[a|e] w']; [by exists a|apply Hh].
Qed.

Lemma never_throws_get : never_throws get.
Proof. intros w. by exists w. Qed.

Lemma never_throws_modify f : never_throws (modify f).
Proof. intros w. by exists tt. Qed.

Lemma never_throws_logger lv s : never_throws (logger lv s).
Proof. apply never_throws_modify. Qed.

Lemma never_throws_wp {A} (m : M A) Q w :
  never_throws m → wp m (λ r w', ∀ a, r = Ok a → Q (Ok a) w') w → wp m Q w.
Proof.
  unfold wp. intros Hm H. destruct (Hm w) as [a Ha]. rewrite Ha in *. by apply H.
Qed.

(** ** Computations that move the world along a preorder *)

Section respects.
Context (R : relation World) `{!PreOrder R}.

Lemma respects_ret {A} (a : A) : respects R (ret a).
Proof. intros w. simpl. reflexivity. Qed.

Lemma respects_throw {A} e : respects R (@throw A e).
Proof. intros w. simpl. reflexivity. Qed.

Lemma respects_bind {A B} (m : M A) (k : A → M B) :
  respects R m → (∀ a, respects R (k a)) → respects R (bind m k).
Proof.
  intros Hm Hk w. unfold bind. specialize (Hm w).
  destruct (m w) as [[a|e] w']; simpl in *; [|done].
  etrans; [exact Hm|apply Hk].
Qed.

Lemma respects_try_catch {A} (body : M A) handler :
  respects R body → (∀ e, respects R (handler e)) → respects R (try_catch body handler).
Proof.
  intros Hb Hh w. unfold try_catch. specialize (Hb w).
  destruct (body w) as [[a|e] w']; simpl in *; [done|].
  etrans; [exact Hb|apply Hh].
Qed.

Lemma respects_mapM {A B} (f : A → M B) l :
  (∀ x, respects R (f x)) → respects R (mapM f l).
Proof.
  intros Hf. induction l as [|x l IH]; simpl.
  - apply respects_ret.
  - apply respects_bind; [apply Hf|]. intros y.
    apply respects_bind; [apply IH|]. intros ys. apply respects_ret.
Qed.

Lemma respects_wp {A} (m : M A) Q w :
  respects R m → wp m (λ r w', R w w' → Q r w') w → wp m Q w.
Proof. unfold wp. intros Hm H. apply H, Hm. Qed.

End respects.

#[export] Instance keeps_preorder {B} (proj : World → B) : PreOrder (keeps proj).
Proof.
  split.
  - by intros w.
  - intros w1 w2 w3 H12 H23. unfold keeps in *. congruence.
Qed.

#[export] Instance calls_grow_preorder P : PreOrder (calls_grow P).
Proof.
  split.
  - intros w. exists []. by rewrite app_nil_r.
  - intros w1 w2 w3 (cs1 & H1 & HP1) (cs2 & H2 & HP2).
    exists (cs1 ++ cs2). rewrite H2, H1, app_assoc. split; [done|].
    by apply Forall_app.
Qed.

(** ** Automation *)

Create HintDb relay discriminated.
Create HintDb relay_frames discriminated.

#[export] Hint Unfold
  Prisma.bot_findUnique Prisma.group_findUnique Prisma.bot_findFirst Prisma.bot_findMany
  Prisma.message_findFirst Prisma.message_findFirst_desc Prisma.message_findMany_desc
  Prisma.message_create
  Redis.zremrangebyscore Redis.zcard Redis.zrange_first_withscores Redis.zadd Redis.expire
  Bull.add Bull.process_next
  RateLimiter.checkRateLimit RateLimiter.waitForRateLimit
  TelegramService.initializeBot TelegramService.sendMessage
  Relay.addToQueue Relay.selectNextBot Relay.processMessage Relay.deliver_next
  MessageQueue.addToQueue MessageQueue.selectNextBot MessageQueue.processMessage
  WebhookController.storeMessage WebhookController.triggerResponse
  WebhookController.handleWebhook : relay.

(** A primitive step: run it and compare the two worlds. *)
Ltac run_primitive :=
  let w := fresh "w" in
  intros w; hnf;
  cbv [external random_floor Date_now sleep modify get logger
       TelegramService.telegram_sendMessage AiService.generateResponse
       faults_of set_faults_of];
  cbn;
  repeat case_match; cbn;
  first
    [ reflexivity
    | eexists []; split; [symmetry; apply app_nil_r | constructor]
    | eexists [_]; split; [reflexivity | repeat constructor; done] ].

Ltac head_of t :=
  lazymatch t with
  | ?f _ => head_of f
  | _ => t
  end.

Ltac respects_step :=
  lazymatch goal with
  | |- respects _ (ret _) => apply respects_ret; apply _
  | |- respects _ (throw _) => apply respects_throw; apply _
  | |- respects _ (bind _ _) => apply respects_bind; [apply _ | | intros ?]
  | |- respects _ (try_catch _ _) => apply respects_try_catch; [apply _ | | intros ?]
  | |- respects _ (mapM _ _) => apply respects_mapM; [apply _ | intros ?]
  | |- respects _ (match ?x with _ => _ end) => destruct x
  | |- respects _ ?m =>
      first [ solve [auto with relay_frames]
            | solve [run_primitive]
            | let h := head_of m in progress unfold h
            | progress cbv beta ]
  end.

Ltac solve_respects := repeat respects_step.

Ltac never_throws_step :=
  lazymatch goal with
  | |- never_throws (ret _) => apply never_throws_ret
  | |- never_throws (bind _ _) => apply never_throws_bind; [| intros ?]
  | |- never_throws (try_catch _ _) => apply never_throws_try_catch; intros ?
  | |- never_throws (logger _ _) => apply never_throws_logger
  | |- never_throws get => apply never_throws_get
  | |- never_throws (modify _) => apply never_throws_modify
  | |- never_throws (match ?x with _ => _ end) => destruct x
  | |- never_throws _ => progress autounfold with relay
  end.

Ltac solve_never_throws := repeat never_throws_step.

(** Reduce projections of updated worlds, and nothing else. *)
Ltac wsimpl :=
  cbn [w_bots w_groups w_messages w_nextMsgId w_redis w_queue w_nextJobId
       w_botInstances w_outbox w_clock w_log w_statuses w_calls
       w_prisma_faults w_redis_faults w_bull_faults w_telegram w_ai w_random
       set_messages set_nextMsgId set_redis set_queue set_nextJobId
       set_botInstances set_outbox set_clock set_log set_statuses set_calls
       set_prisma_faults set_redis_faults set_bull_faults set_telegram set_ai
       set_random faults_of set_faults_of fst snd head tail] in *.

Ltac wp_step :=
  lazymatch goal with
  | |- wp (bind _ _) _ _ => apply wp_bind
  | |- wp (try_catch _ _) _ _ => apply wp_try_catch
  | |- wp (ret _) _ _ => apply wp_ret
  | |- wp (throw _) _ _ => apply wp_throw
  | |- wp get _ _ => apply wp_get
  | |- wp (modify _) _ _ => apply wp_modify
  | |- wp (logger _ _) _ _ => apply wp_logger
  | |- wp Date_now _ _ => apply wp_Date_now
  | |- wp (sleep _) _ _ => apply wp_sleep
  end; cbv beta; wsimpl.

Ltac wp_steps := repeat wp_step.

(** Step over an external call: one goal where it resolves, one where it
    rejects. *)
Ltac wp_call :=
  lazymatch goal with
  | |- wp (external _ _) _ _ =>
      apply wp_external; cbv zeta; wsimpl; split; intros ?
  end.

(** * Frame properties of the components *)

Lemma checkRateLimit_never_throws b : never_throws (RateLimiter.checkRateLimit b).
Proof.
  unfold RateLimiter.checkRateLimit.
  apply never_throws_bind; [by intros w; exists (w_clock w)|]. intros now.
  solve_never_throws.
Qed.

Lemma waitForRateLimit_never_throws b : never_throws (RateLimiter.waitForRateLimit b).
Proof.
  unfold RateLimiter.waitForRateLimit.
  apply never_throws_bind; [apply checkRateLimit_never_throws|]. intros r.
  destruct (RateLimiter.resetIn r) as [ms|]; [|apply never_throws_ret].
  destruct (_ && _); [|apply never_throws_ret].
  apply never_throws_bind; [apply never_throws_logger|]. intros _.
  by intros w; exists tt.
Qed.

Lemma selectNextBot_never_throws g t x : never_throws (Relay.selectNextBot g t x).
Proof. solve_never_throws. Qed.

Lemma selectNextBot0_never_throws t x : never_throws (MessageQueue.selectNextBot t x).
Proof. solve_never_throws. Qed.

Lemma sendMessage_never_throws tok c txt r :
  never_throws (TelegramService.sendMessage tok c txt r).
Proof. solve_never_throws. Qed.

Lemma initializeBot_never_throws tok : never_throws (TelegramService.initializeBot tok).
Proof. solve_never_throws. Qed.

(** * Turn selection *)

(** With a fault due at one of its lookups the selector resolves to [None]. *)
Lemma selectNextBot_fault g t x w :
  w_prisma_faults w !! 0%nat = Some true ∨ w_prisma_faults w !! 1%nat = Some true →
  (Relay.selectNextBot g t x w).1 = Ok None.
Proof.
  intros Hfault.
  change (wp (Relay.selectNextBot g t x) (λ r _, r = Ok None) w).
  unfold Relay.selectNextBot, Prisma.bot_findMany, Prisma.message_findFirst_desc.
  wp_steps. wp_call; wp_steps; [|done].
  destruct (length _ =? 0)%nat; wp_steps; [done|].
  wp_call; wp_steps; [|done].
  destruct (w_prisma_faults w) as [|[] [|[] fs]]; simpl in *; intuition congruence.
Qed.

Lemma selectNextBot0_fault t x w :
  w_prisma_faults w !! 0%nat = Some true ∨ w_prisma_faults w !! 1%nat = Some true →
  (MessageQueue.selectNextBot t x w).1 = Ok None.
Proof.
  intros Hfault.
  change (wp (MessageQueue.selectNextBot t x) (λ r _, r = Ok None) w).
  unfold MessageQueue.selectNextBot, Prisma.bot_findMany, Prisma.message_findFirst_desc.
  wp_steps. wp_call; wp_steps; [|done].
  destruct (length _ =? 0)%nat; wp_steps; [done|].
  wp_call; wp_steps; [|done].
  destruct (w_prisma_faults w) as [|[] [|[] fs]]; simpl in *; intuition congruence.
Qed.

(** C9. Whenever a store lookup of [selectNextBot] fails, the failure is
    caught inside the selector: the call resolves, and it resolves to "no
    next bot" ([null]); no world makes the selector reject.  The first
    lookup fails when the next Prisma fault is due; the second lookup, if it
    is reached, fails when the fault after that is due.  Both versions of the
    selector behave so. *)
Theorem selectNextBot_lookup_failure_gives_none (g t x : string) (w : World) :
  (∃ r, (Relay.selectNextBot g t x w).1 = Ok r) ∧
  (∃ r, (MessageQueue.selectNextBot t x w).1 = Ok r) ∧
  (w_prisma_faults w !! 0%nat = Some true ∨ w_prisma_faults w !! 1%nat = Some true →
   (Relay.selectNextBot g t x w).1 = Ok None ∧
   (MessageQueue.selectNextBot t x w).1 = Ok None).
Proof.
  split; [apply (selectNextBot_never_throws g t x w)|].
  split; [apply (selectNextBot0_never_throws t x w)|].
  intros Hfault. split; [by apply selectNextBot_fault|by apply selectNextBot0_fault].
Qed.

Lemma selectNextBot_lookup_failure_witness :
  (Relay.selectNextBot "g1" "-100" "" (set_prisma_faults [true] three_bots)).1 = Ok None ∧
  (MessageQueue.selectNextBot "-100" "" (set_prisma_faults [true] three_bots)).1 = Ok None.
Proof.
  apply (selectNextBot_lookup_failure_gives_none "g1" "-100" ""
           (set_prisma_faults [true] three_bots)).
  left. reflexivity.
Defined.

(** ** The ordered list of eligible bots *)

#[export] Instance createdAt_asc_total : Total Prisma.createdAt_asc.
Proof. intros a b. unfold Prisma.createdAt_asc. lia. Qed.

#[export] Instance createdAt_asc_trans : Transitive Prisma.createdAt_asc.
Proof. intros a b c. unfold Prisma.createdAt_asc. lia. Qed.

#[export] Instance timestamp_desc_total : Total Prisma.timestamp_desc.
Proof. intros a b. unfold Prisma.timestamp_desc. lia. Qed.

#[export] Instance timestamp_desc_trans : Transitive Prisma.timestamp_desc.
Proof. intros a b c. unfold Prisma.timestamp_desc. lia. Qed.

Lemma is_eligible_spec t x b :
  is_eligible t x b = true ↔ bot_groupId b = t ∧ bot_isActive b = true ∧ bot_id b ≠ x.
Proof.
  unfold is_eligible. rewrite !andb_true_iff, negb_true_iff.
  rewrite bool_decide_eq_true, bool_decide_eq_false. tauto.
Qed.

Lemma elem_of_filter_bool {A} (p : A → bool) (l : list A) (a : A) :
  a ∈ List.filter p l ↔ a ∈ l ∧ p a = true.
Proof. rewrite !list_elem_of_In. apply filter_In. Qed.

Lemma elem_of_eligible t x w b :
  b ∈ eligible t x w ↔ b ∈ w_bots w ∧ is_eligible t x b = true.
Proof.
  unfold eligible. rewrite merge_sort_Permutation. apply elem_of_filter_bool.
Qed.

Lemma eligible_head_earliest t x w b bs :
  eligible t x w = b :: bs → earliest_eligible t x w b.
Proof.
  intros E.
  assert (b ∈ eligible t x w) as Hb by (rewrite E; left).
  apply elem_of_eligible in Hb as [Hb1 Hb2].
  repeat split; [done|done|by rewrite E|].
  intros b' Hb'1 Hb'2.
  assert (b' ∈ eligible t x w) as Hin by (by apply elem_of_eligible).
  pose proof (StronglySorted_merge_sort Prisma.createdAt_asc
                (List.filter (is_eligible t x) (w_bots w))) as Hs.
  fold (eligible t x w) in Hs. rewrite E in Hs, Hin.
  apply StronglySorted_inv in Hs as [_ Hall].
  apply elem_of_cons in Hin as [->|Hin]; [done|].
  rewrite Forall_forall in Hall. by apply Hall.
Qed.

Lemma eligible_nonempty t x w b0 :
  b0 ∈ w_bots w → is_eligible t x b0 = true → ∃ b bs, eligible t x w = b :: bs.
Proof.
  intros H1 H2. destruct (eligible t x w) as [|b bs] eqn:E; [|eauto].
  assert (b0 ∈ eligible t x w) as Hin by (by apply elem_of_eligible).
  rewrite E in Hin. by apply elem_of_nil in Hin.
Qed.

Lemma findIndex_none {A} (p : A → bool) (l : list A) :
  (∀ a, a ∈ l → p a = false) → findIndex p l = -1.
Proof.
  induction l as [|a l IH]; intros H; simpl; [done|].
  rewrite (H a) by left. rewrite IH; [done|]. intros a' Ha'. apply H. by right.
Qed.

Lemma lastAiMessage_none g w : no_ai_message g w → lastAiMessage g w = None.
Proof.
  intros Hno. unfold lastAiMessage.
  destruct (merge_sort _ _) as [|m ms] eqn:E; [done|].
  assert (m ∈ merge_sort Prisma.timestamp_desc
                (List.filter (λ m, bool_decide (msg_groupId m = g) && msg_isAiGenerated m)
                   (w_messages w))) as Hin by (rewrite E; left).
  rewrite merge_sort_Permutation in Hin.
  apply elem_of_filter_bool in Hin as [Hin Hp].
  apply andb_true_iff in Hp as [Hg Hai]. apply bool_decide_eq_true in Hg.
  rewrite (Hno m Hin Hg) in Hai. done.
Qed.

(** ** What the selector returns when its lookups succeed *)

Lemma selectNextBot_run g t x w :
  w_prisma_faults w !! 0%nat ≠ Some true → w_prisma_faults w !! 1%nat ≠ Some true →
  (Relay.selectNextBot g t x w).1 =
  Ok (if (length (eligible t x w) =? 0)%nat then None
      else nextBot_of <$>
           eligible t x w !! Z.to_nat (nextBotIndex (eligible t x w) (lastAiMessage g w))).
Proof.
  intros H0 H1.
  match goal with |- _ = ?r =>
    change (wp (Relay.selectNextBot g t x) (λ r' _, r' = r) w) end.
  unfold Relay.selectNextBot, Prisma.bot_findMany, Prisma.message_findFirst_desc.
  wp_steps. wp_call; wp_steps.
  2:{ destruct (w_prisma_faults w) as [|[] ?]; simpl in *; congruence. }
  fold (is_eligible t x). fold (eligible t x w).
  destruct (length (eligible t x w) =? 0)%nat; wp_steps; [done|].
  wp_call; wp_steps.
  2:{ destruct (w_prisma_faults w) as [|[] [|[] ?]]; simpl in *; congruence. }
  fold (lastAiMessage g w). fold (nextBotIndex (eligible t x w) (lastAiMessage g w)).
  destruct (eligible t x w !! _) as [b|]; by wp_steps.
Qed.

Lemma selectNextBot0_run t x w :
  w_prisma_faults w !! 0%nat ≠ Some true → w_prisma_faults w !! 1%nat ≠ Some true →
  (MessageQueue.selectNextBot t x w).1 =
  Ok (if (length (eligible t x w) =? 0)%nat then None
      else nextBot_of <$>
           eligible t x w !! Z.to_nat (nextBotIndex (eligible t x w) (lastAiMessage t w))).
Proof.
  intros H0 H1.
  match goal with |- _ = ?r =>
    change (wp (MessageQueue.selectNextBot t x) (λ r' _, r' = r) w) end.
  unfold MessageQueue.selectNextBot, Prisma.bot_findMany, Prisma.message_findFirst_desc.
  wp_steps. wp_call; wp_steps.
  2:{ destruct (w_prisma_faults w) as [|[] ?]; simpl in *; congruence. }
  fold (is_eligible t x). fold (eligible t x w).
  destruct (length (eligible t x w) =? 0)%nat; wp_steps; [done|].
  wp_call; wp_steps.
  2:{ destruct (w_prisma_faults w) as [|[] [|[] ?]]; simpl in *; congruence. }
  fold (lastAiMessage t w). fold (nextBotIndex (eligible t x w) (lastAiMessage t w)).
  destruct (eligible t x w !! _) as [b|]; by wp_steps.
Qed.

(** C7. In a group with at least one active bot other than the excluded
    one and no AI-generated message stored, [selectNextBot] (its lookups
    succeeding) returns the earliest-registered such bot: the bot at index 0
    of the active bots ordered by [createdAt] ascending, the excluded bot
    removed.  Both versions of the selector behave so. *)
Theorem selectNextBot_without_history_picks_earliest (g t x : string) (w : World) (b0 : Bot) :
  w_prisma_faults w = [] →
  b0 ∈ w_bots w → is_eligible t x b0 = true →
  (no_ai_message g w →
   ∃ b, (Relay.selectNextBot g t x w).1 = Ok (Some (nextBot_of b)) ∧
        earliest_eligible t x w b) ∧
  (no_ai_message t w →
   ∃ b, (MessageQueue.selectNextBot t x w).1 = Ok (Some (nextBot_of b)) ∧
        earliest_eligible t x w b).
Proof.
  intros Hf Hb0 He0.
  destruct (eligible_nonempty t x w b0 Hb0 He0) as (b & bs & E).
  split; intros Hno; exists b; (split; [|by eapply eligible_head_earliest]).
  - rewrite selectNextBot_run by (by rewrite Hf).
    rewrite (lastAiMessage_none _ _ Hno), E. done.
  - rewrite selectNextBot0_run by (by rewrite Hf).
    rewrite (lastAiMessage_none _ _ Hno), E. done.
Qed.

Lemma selectNextBot_without_history_witness :
  ∃ b, (Relay.selectNextBot "g1" "-100" "" three_bots).1 = Ok (Some (nextBot_of b)) ∧
       earliest_eligible "-100" "" three_bots b.
Proof.
  apply (selectNextBot_without_history_picks_earliest "g1" "-100" "" three_bots botA).
  - reflexivity.
  - apply list_elem_of_here.
  - reflexivity.
  - intros m Hm. by apply elem_of_nil in Hm.
Defined.

(** ** What holds of the rotation

    Whatever the world, a bot the selector returns is an active bot of the
    group other than the excluded one. *)
Lemma selectNextBot_never_returns_excluded g t x w nb :
  (Relay.selectNextBot g t x w).1 = Ok (Some nb) →
  nb_id nb ≠ x ∧ ∃ b, b ∈ w_bots w ∧ is_eligible t x b = true ∧ nb = nextBot_of b.
Proof.
  intros Hsel.
  destruct (decide (w_prisma_faults w !! 0%nat = Some true)) as [H0|H0];
    [rewrite selectNextBot_fault in Hsel by (by left); done|].
  destruct (decide (w_prisma_faults w !! 1%nat = Some true)) as [H1|H1];
    [rewrite selectNextBot_fault in Hsel by (by right); done|].
  rewrite selectNextBot_run in Hsel by done.
  destruct (length _ =? 0)%nat; [done|].
  destruct (eligible t x w !! _) as [b|] eqn:Eb; [|done].
  simpl in Hsel. injection Hsel as <-.
  apply list_elem_of_lookup_2, elem_of_eligible in Eb as [Hb1 Hb2].
  split; [by apply is_eligible_spec in Hb2 as (_ & _ & ?)|]. by exists b.
Qed.

(** ** The selector in a chain step

    In a chain step the excluded bot is the author of the most recent
    AI-generated message.  It is not among the eligible bots, so its index
    is -1 and the selector falls back to index 0. *)
Lemma selectNextBot_after_own_message g t x w m :
  w_prisma_faults w = [] →
  lastAiMessage g w = Some m → msg_botId m = x →
  (Relay.selectNextBot g t x w).1 = Ok (nextBot_of <$> head (eligible t x w)).
Proof.
  intros Hf Hm Hx. rewrite selectNextBot_run by (by rewrite Hf).
  unfold nextBotIndex. rewrite Hm, Hx.
  rewrite findIndex_none.
  - simpl. by destruct (eligible t x w).
  - intros b Hb. apply elem_of_eligible in Hb as [_ Hb].
    apply is_eligible_spec in Hb as (_ & _ & Hb). by apply bool_decide_eq_false.
Qed.

(** C1 (the code departs from the claim). With three active bots A, B, C, a
    human message makes A answer first; chaining [selectNextBot], each time
    excluding the bot that has just spoken, then alternates between A and B:
    after six deliveries the speakers are A, B, A, B, A, B and C, active
    and registered all along, has not been chosen once. *)
Theorem chain_of_three_bots_never_reaches_third :
  let w := ((WebhookController.handleWebhook (human_hello "tokA") ;;; deliveries 6)
              three_bots).2 in
  speakers w = ["A"; "B"; "A"; "B"; "A"; "B"] ∧
  botId ∘ job_data <$> w_queue w = ["A"] ∧
  botC ∈ eligible "-100" "B" w.
Proof.
  vm_compute. split; [reflexivity|]. split; [reflexivity|].
  apply list_elem_of_further, list_elem_of_here.
Qed.

(** * Rate limiter *)

Lemma parseInt_string_of_Z z : parseInt (string_of_Z z) = Some z.
Proof.
  unfold parseInt, string_of_Z. rewrite NilZero.isi.
  - simpl. f_equal. apply DecimalZ.of_to.
  - destruct z; simpl; [done| |done].
    intros [= H]. by apply Unsigned.to_uint_nonnil in H.
  - destruct z; simpl; [done|done|].
    intros [= H]. by apply Unsigned.to_uint_nonnil in H.
Qed.

Lemma lookup_key_write key zs now keys :
  Redis.lookup_key key now (Redis.write_zset key zs now keys) =
  match zs with
  | [] => None
  | _ => Some (mkRedisKey zs (Redis.lookup_key key now keys ≫= rk_expireAt))
  end.
Proof.
  unfold Redis.write_zset. destruct zs as [|e zs].
  - unfold Redis.lookup_key. by rewrite lookup_delete_eq.
  - unfold Redis.lookup_key at 1. rewrite lookup_insert_eq. simpl.
    unfold Redis.lookup_key.
    destruct (keys !! key) as [k|]; simpl; [|done].
    destruct (rk_expireAt k) as [d|] eqn:Ed; simpl; [|by rewrite Ed].
    destruct (d <=? now) eqn:El; simpl; [done|]. by rewrite Ed, El.
Qed.

Lemma filter_nil_bool {A} (p : A → bool) (l : list A) :
  (∀ a, a ∈ l → p a = false) → List.filter p l = [].
Proof.
  induction l as [|a l IH]; intros H; simpl; [done|].
  rewrite (H a) by left. apply IH. intros a' Ha'. apply H. by right.
Qed.

Ltac no_fault := solve [simpl in *; congruence].

(** A request that finds the window free is allowed and recorded. *)
Lemma checkRateLimit_allows b w :
  w_redis_faults w = [] → window_free b w →
  wp (RateLimiter.checkRateLimit b)
     (λ r w', r = Ok (RateLimiter.mkRateLimitResult true 0 (Some 0)) ∧
              w_redis_faults w' = [] ∧ w_clock w' = w_clock w ∧
              w_redis w' !! ratelimit_key b =
                Some (mkRedisKey [(w_clock w, string_of_Z (w_clock w))]
                        (Some (w_clock w + 2000)))) w.
Proof.
  intros Hf Hfree.
  unfold RateLimiter.checkRateLimit. fold (ratelimit_key b).
  unfold Redis.zremrangebyscore, Redis.zcard, Redis.zadd, Redis.expire.
  unfold window_free in Hfree. unfold Redis.read_zset in *.
  wp_steps. wp_call; rewrite Hf in *; wsimpl; [|no_fault]. wp_steps.
  rewrite filter_nil_bool.
  2:{ intros e He. apply Hfree in He. apply negb_false_iff, andb_true_iff.
      split; [apply Z.leb_le|apply Z.leb_le]; lia. }
  wp_call; [|no_fault]. wp_steps.
  rewrite lookup_key_write. simpl.
  wp_steps. wp_call; [|no_fault]. wp_steps.
  rewrite lookup_key_write. simpl.
  wp_steps. wp_call; [|no_fault]. wp_steps.
  rewrite !lookup_key_write. simpl. wp_steps.
  repeat split; try done. by rewrite lookup_insert_eq.
Qed.

(** A request that finds an entry of age below the window is denied, and
    told to wait for the rest of the window. *)
Lemma checkRateLimit_denies b w t0 :
  w_redis_faults w = [] →
  w_redis w !! ratelimit_key b =
    Some (mkRedisKey [(t0, string_of_Z t0)] (Some (t0 + 2000))) →
  t0 ≤ w_clock w < t0 + RateLimiter.RATE_LIMIT_WINDOW →
  (RateLimiter.checkRateLimit b w).1 =
  Ok (RateLimiter.mkRateLimitResult false 0
        (Some (RateLimiter.RATE_LIMIT_WINDOW - (w_clock w - t0)))).
Proof.
  intros Hf Hkey Ht. unfold RateLimiter.RATE_LIMIT_WINDOW in *.
  match goal with |- _ = ?r =>
    change (wp (RateLimiter.checkRateLimit b) (λ r' _, r' = r) w) end.
  unfold RateLimiter.checkRateLimit. fold (ratelimit_key b).
  unfold Redis.zremrangebyscore, Redis.zcard, Redis.zrange_first_withscores.
  assert (Redis.lookup_key (ratelimit_key b) (w_clock w) (w_redis w)
          = Some (mkRedisKey [(t0, string_of_Z t0)] (Some (t0 + 2000)))) as Hlk.
  { unfold Redis.lookup_key. rewrite Hkey. simpl.
    destruct (t0 + 2000 <=? w_clock w) eqn:E; [|done]. apply Z.leb_le in E. lia. }
  unfold Redis.read_zset.
  wp_steps. wp_call; rewrite Hf in *; wsimpl; [|no_fault]. wp_steps.
  rewrite Hlk. simpl.
  unfold RateLimiter.RATE_LIMIT_WINDOW.
  replace (t0 <=? w_clock w - 1000) with false by (symmetry; apply Z.leb_gt; lia).
  rewrite andb_false_r. simpl.
  wp_call; [|no_fault]. wp_steps.
  rewrite lookup_key_write. simpl.
  wp_steps. wp_call; [|no_fault]. wp_steps.
  rewrite lookup_key_write. simpl. rewrite parseInt_string_of_Z. simpl.
  do 3 f_equal. lia.
Qed.

Lemma read_after_write key zs now keys :
  match Redis.lookup_key key now (Redis.write_zset key zs now keys) with
  | Some k => rk_zset k
  | None => []
  end = zs.
Proof. rewrite lookup_key_write. by destruct zs. Qed.

(** Whatever the state of the window and whichever commands fail, a denied
    request is told to wait between 0 and the window width, as long as no
    recorded request is later than now. *)
Lemma checkRateLimit_denied_wait_bounded b w r :
  no_future_entry b w →
  (RateLimiter.checkRateLimit b w).1 = Ok r →
  RateLimiter.allowed r = false →
  ∃ ms, RateLimiter.resetIn r = Some ms ∧ 0 ≤ ms ≤ RateLimiter.RATE_LIMIT_WINDOW.
Proof.
  intros Hnf. revert r.
  change (wp (RateLimiter.checkRateLimit b)
            (λ r' _, ∀ r, r' = Ok r → RateLimiter.allowed r = false →
                     ∃ ms, RateLimiter.resetIn r = Some ms ∧
                           0 ≤ ms ≤ RateLimiter.RATE_LIMIT_WINDOW) w).
  unfold RateLimiter.checkRateLimit. fold (ratelimit_key b).
  unfold Redis.zremrangebyscore, Redis.zcard, Redis.zrange_first_withscores,
    Redis.zadd, Redis.expire.
  unfold no_future_entry in Hnf. unfold Redis.read_zset in *.
  unfold RateLimiter.RATE_LIMIT_WINDOW, RateLimiter.MAX_REQUESTS_PER_WINDOW.
  wp_steps. wp_call; wp_steps; [|by intros ? [= <-]].
  wp_call; wp_steps; [|by intros ? [= <-]].
  rewrite !read_after_write.
  match goal with |- context [List.filter ?p ?l] =>
    pose proof (λ e, proj1 (elem_of_filter_bool p l e)) as Hsub;
    destruct (List.filter p l) as [|[score member] rest]
  end.
  - simpl. wp_steps. wp_call; wp_steps; [|by intros ? [= <-]].
    wp_call; wp_steps; [|by intros ? [= <-]].
    match goal with |- context [Redis.lookup_key ?k ?n ?m] =>
      destruct (Redis.lookup_key k n m) end; wp_steps; by intros ? [= <-].
  - replace (1 <=? Z.of_nat (length ((score, member) :: rest))) with true
      by (symmetry; apply Z.leb_le; simpl; lia).
    wp_steps. wp_call; wp_steps; [|by intros ? [= <-]].
    rewrite !read_after_write. simpl. rewrite parseInt_string_of_Z. simpl.
    intros r [= <-] _. simpl. eexists. split; [done|].
    destruct (Hsub (score, member)) as [Hin _]; [left|].
    apply Hnf in Hin. simpl in Hin. lia.
Qed.

(** C8. Two requests of one bot within one window (capacity + 1), the
    first finding the window free: the first is allowed at once and the
    second is denied, so exactly [MAX_REQUESTS_PER_WINDOW] = 1 of the two is
    allowed;
    the denied request gets [resetIn] = window width minus the age of the
    recorded request, which lies between 0 and the window width (1000 ms).
    More generally every denied request gets a [resetIn] in that range, as
    long as no recorded request is later than now. *)
Theorem rate_limit_one_admission_per_window (b : string) (w : World) (t1 : Z) :
  w_redis_faults w = [] → window_free b w →
  w_clock w ≤ t1 < w_clock w + RateLimiter.RATE_LIMIT_WINDOW →
  let first := RateLimiter.checkRateLimit b w in
  let second := RateLimiter.checkRateLimit b (set_clock t1 first.2) in
  (∃ r1 r2 waitMs,
     first.1 = Ok r1 ∧ second.1 = Ok r2 ∧
     RateLimiter.allowed r1 = true ∧ RateLimiter.allowed r2 = false ∧
     Z.of_nat (length (List.filter RateLimiter.allowed [r1; r2]))
       = RateLimiter.MAX_REQUESTS_PER_WINDOW ∧
     RateLimiter.resetIn r2 = Some waitMs ∧
     waitMs = RateLimiter.RATE_LIMIT_WINDOW - (t1 - w_clock w) ∧
     0 ≤ waitMs ≤ RateLimiter.RATE_LIMIT_WINDOW ∧
     RateLimiter.RATE_LIMIT_WINDOW = 1000) ∧
  (∀ w' r, no_future_entry b w' →
           (RateLimiter.checkRateLimit b w').1 = Ok r →
           RateLimiter.allowed r = false →
           ∃ ms, RateLimiter.resetIn r = Some ms ∧
                 0 ≤ ms ≤ RateLimiter.RATE_LIMIT_WINDOW).
Proof.
  intros Hf Hfree Ht first second.
  split; [|intros w' r; apply checkRateLimit_denied_wait_bounded].
  pose proof (checkRateLimit_allows b w Hf Hfree) as H1.
  unfold wp in H1. fold first in H1. destruct H1 as (Hr1 & Hf1 & Hc1 & Hk1).
  pose proof (checkRateLimit_denies b (set_clock t1 first.2) (w_clock w)) as H2.
  fold second in H2. wsimpl.
  rewrite H2; [|done|done|done].
  do 3 eexists. rewrite Hr1. repeat split; try reflexivity.
  all: unfold RateLimiter.RATE_LIMIT_WINDOW in *; lia.
Qed.

Lemma rate_limit_one_admission_witness :
  ∃ r1 r2 waitMs,
    (RateLimiter.checkRateLimit "A" three_bots).1 = Ok r1 ∧
    (RateLimiter.checkRateLimit "A"
       (set_clock 1000400 (RateLimiter.checkRateLimit "A" three_bots).2)).1 = Ok r2 ∧
    RateLimiter.allowed r1 = true ∧ RateLimiter.allowed r2 = false ∧
    Z.of_nat (length (List.filter RateLimiter.allowed [r1; r2]))
      = RateLimiter.MAX_REQUESTS_PER_WINDOW ∧
    RateLimiter.resetIn r2 = Some waitMs ∧
    waitMs = RateLimiter.RATE_LIMIT_WINDOW - (1000400 - w_clock three_bots) ∧
    0 ≤ waitMs ≤ RateLimiter.RATE_LIMIT_WINDOW ∧
    RateLimiter.RATE_LIMIT_WINDOW = 1000.
Proof.
  apply (rate_limit_one_admission_per_window "A" three_bots 1000400).
  - reflexivity.
  - intros e He. vm_compute in He. by apply elem_of_nil in He.
  - vm_compute. split; [by intros [=]|done].
Defined.

(** * Enqueueing *)

#[export] Instance queue_grow_preorder P : PreOrder (queue_grow P).
Proof.
  split.
  - intros w. exists []. by rewrite app_nil_r.
  - intros w1 w2 w3 (js1 & H1 & HP1) (js2 & H2 & HP2).
    exists (js1 ++ js2). rewrite H2, H1, app_assoc. split; [done|].
    by apply Forall_app.
Qed.

Lemma addToQueue_grows data :
  respects (queue_grow relay_job) (Relay.addToQueue data).
Proof.
  intros w. change (wp (Relay.addToQueue data) (λ _ w', queue_grow relay_job w w') w).
  unfold Relay.addToQueue, Bull.add. wp_steps.
  apply wp_random_floor; [lia|]. intros r Hr. wsimpl. wp_steps.
  wp_call; wp_steps.
  - eexists [_]. split; [done|]. repeat constructor; simpl; lia.
  - exists []. by rewrite app_nil_r.
Qed.

#[export] Hint Resolve addToQueue_grows : relay_frames.

Lemma addToQueue0_grows data :
  respects (queue_grow (delay_within 3000 5000)) (MessageQueue.addToQueue data).
Proof.
  intros w.
  change (wp (MessageQueue.addToQueue data)
            (λ _ w', queue_grow (delay_within 3000 5000) w w') w).
  unfold MessageQueue.addToQueue, Bull.add. wp_steps.
  apply wp_random_floor; [lia|]. intros r Hr. wsimpl. wp_steps.
  wp_call; wp_steps.
  - eexists [_]. split; [done|]. repeat constructor; simpl; lia.
  - exists []. by rewrite app_nil_r.
Qed.

Lemma handleWebhook_grows req :
  respects (queue_grow relay_job) (WebhookController.handleWebhook req).
Proof. solve_respects. Qed.

Lemma processMessage_grows job :
  respects (queue_grow relay_job) (Relay.processMessage job).
Proof. solve_respects. Qed.

Lemma Forall_relay_job_delay js : Forall relay_job js → Forall (delay_within 500 1500) js.
Proof. intros H. eapply Forall_impl; [exact H|]. by intros j [Hj _]. Qed.

(** C6, as the code has it. Every job is enqueued through the one
    [addToQueue], which draws its delay from a single window whatever the
    origin of the job: 500 ms up to (not including) 1500 ms in the queue
    with chaining, both for the first response enqueued by the webhook
    handler and for the continuation enqueued by a delivery; 3000 ms up to
    5000 ms in [src/services/messageQueue.ts], which has no chaining. *)
Theorem every_job_delay_in_one_window :
  (∀ req w, ∃ js,
     w_queue (WebhookController.handleWebhook req w).2 = w_queue w ++ js ∧
     Forall (delay_within 500 1500) js) ∧
  (∀ job w, ∃ js,
     w_queue (Relay.processMessage job w).2 = w_queue w ++ js ∧
     Forall (delay_within 500 1500) js) ∧
  (∀ data w, ∃ js,
     w_queue (MessageQueue.addToQueue data w).2 = w_queue w ++ js ∧
     Forall (delay_within 3000 5000) js).
Proof.
  split; [|split].
  - intros req w. destruct (handleWebhook_grows req w) as (js & H1 & H2).
    exists js. split; [done|by apply Forall_relay_job_delay].
  - intros job w. destruct (processMessage_grows job w) as (js & H1 & H2).
    exists js. split; [done|by apply Forall_relay_job_delay].
  - intros data w. apply (addToQueue0_grows data w).
Qed.

(** C6, refuted as stated. With [Math.random] drawing high and then low,
    the first response to a fresh human message is enqueued with a delay of
    1499 ms, which is not below a second, and the chained continuation that
    follows it with a delay of 500 ms, which is neither several seconds nor
    longer than the first. *)
Lemma first_response_delay_not_shorter_than_chained :
  let w1 := (WebhookController.handleWebhook (human_hello "tokA") three_bots_drawing).2 in
  let w2 := (deliveries 1 w1).2 in
  opt_delay ∘ job_opts <$> w_queue w1 = [1499] ∧
  opt_delay ∘ job_opts <$> w_queue w2 = [500] ∧
  botId ∘ job_data <$> w_queue w2 = ["B"] ∧
  ¬ (1499 < 1000) ∧ ¬ (1499 < 500).
Proof. vm_compute. repeat split; by intros [=]. Qed.

(** * Delivery *)

Lemma waitForRateLimit_frame b :
  respects (keeps outside_redis) (RateLimiter.waitForRateLimit b).
Proof. solve_respects. Qed.

Lemma waitForRateLimit_calls b :
  respects (calls_grow is_redis_call) (RateLimiter.waitForRateLimit b).
Proof. solve_respects. Qed.

Lemma selectNextBot_frame g t x :
  respects (keeps outside_selector) (Relay.selectNextBot g t x).
Proof. solve_respects. Qed.

(** Step over a component that never rejects: its outcome is a value and a
    world related to the current one by the frame given. *)
Ltac wp_component Hnt Hfr F :=
  lazymatch goal with
  | |- wp ?m _ ?w =>
      let a := fresh "a" in
      let Ha := fresh "Ha" in
      let r := fresh "r" in
      let w1 := fresh "w" in
      let E := fresh "E" in
      destruct (Hnt w) as [a Ha];
      pose proof (Hfr w) as F;
      destruct (m w) as [r w1] eqn:E;
      simpl in Ha; subst r; cbn [fst snd] in F;
      apply (wp_intro m _ w (Ok a) w1 E); cbv beta iota; clear E
  end.

Ltac wp_component2 Hnt Hfr F Hfr' F' :=
  lazymatch goal with
  | |- wp ?m _ ?w => pose proof (Hfr' w) as F'; wp_component Hnt Hfr F
  end.

(** Step over a component that may reject, keeping the frame given. *)
Ltac wp_frame Hfr F :=
  lazymatch goal with
  | |- wp ?m _ ?w =>
      let a := fresh "a" in
      let e := fresh "e" in
      let w1 := fresh "w" in
      let E := fresh "E" in
      pose proof (Hfr w) as F;
      destruct (m w) as [[a|e] w1] eqn:E;
      cbn [fst snd] in F;
      [ apply (wp_intro m _ w (Ok a) w1 E) | apply (wp_intro m _ w (Throw e) w1 E) ];
      cbv beta iota; clear E
  end.

Ltac with_world tac := lazymatch goal with |- wp _ _ ?w => tac w end.

(** Split a frame into equations about the components it keeps. *)
Ltac frame_equations F :=
  unfold keeps, outside_redis, outside_selector, outside_send in F; wsimpl;
  repeat lazymatch type of F with
         | (_, _) = (_, _) => let H := fresh "F" in injection F as F H
         end.

(** Use the equations a frame gives about the components of a world. *)
Ltac is_world w :=
  is_var w; lazymatch type of w with World => idtac end.

Ltac frame_rewrite :=
  repeat match goal with
         | H : ?proj ?w1 = _ |- context [?proj ?w1] => is_world w1; rewrite !H
         | H : ?proj ?w1 = _, H' : context [?proj ?w1] |- _ =>
             is_world w1;
             lazymatch type of H' with
             | proj w1 = _ => fail
             | _ => rewrite !H in H'
             end
         end.

Lemma mapM_pure {A B} (f : A → M B) (g : A → B) (l : list A) w :
  (∀ x, x ∈ l → ∀ w, f x w = (Ok (g x), w)) → mapM f l w = (Ok (g <$> l), w).
Proof.
  revert w. induction l as [|x l IH]; intros w H; simpl; [done|].
  unfold bind. rewrite (H x) by left. rewrite IH; [done|].
  intros y Hy. apply H. by right.
Qed.

Lemma wp_mapM_pure {A B} (f : A → M B) (g : A → B) (l : list A) Q w :
  (∀ x, x ∈ l → ∀ w, f x w = (Ok (g x), w)) →
  Q (Ok (g <$> l)) w → wp (mapM f l) Q w.
Proof. intros H HQ. unfold wp. by rewrite (mapM_pure f g l w H). Qed.

(** The rows the history query returns carry their bot when they are
    AI-generated. *)
Lemma history_rows_intact gid w bots msgs n x :
  history_intact gid w → bots = w_bots w → msgs = w_messages w →
  x ∈ reverse
        ((λ m, (m, List.find (λ b, bool_decide (bot_id b = msg_botId m)) bots)) <$>
         take n (merge_sort Prisma.timestamp_desc
                   (List.filter (λ m, bool_decide (msg_groupId m = gid)) msgs))) →
  msg_isAiGenerated x.1 = true → ∃ b, x.2 = Some b.
Proof.
  intros Hfk -> -> Hx Hai.
  apply elem_of_reverse, list_elem_of_fmap in Hx as (m & -> & Hm).
  apply elem_of_take in Hm as (i & Hm & _).
  apply list_elem_of_lookup_2 in Hm.
  rewrite merge_sort_Permutation in Hm.
  apply elem_of_filter_bool in Hm as [Hm Hg]. apply bool_decide_eq_true in Hg.
  simpl in *. by apply Hfk.
Qed.

Lemma wp_generateResponse p h u Q w text ais :
  w_ai w = Some text :: ais →
  Q (Ok text) (set_ai ais w) → wp (AiService.generateResponse p h u) Q w.
Proof. intros H HQ. unfold wp, AiService.generateResponse. by rewrite H. Qed.

Lemma wp_generateResponse_rejected p h u (Q : Result string → World → Prop) w :
  generation_rejected w →
  (∀ e, Q (Throw e) (set_ai (tail (w_ai w)) w)) →
  wp (AiService.generateResponse p h u) Q w.
Proof.
  intros H HQ. unfold wp, AiService.generateResponse.
  destruct H as [H|[rest H]]; specialize (HQ
    (match w_ai w with
     | [] => "No AI provider configured. Set OPENAI_API_KEY or GEMINI_API_KEY"
     | _ => "AI provider failed"
     end)); rewrite H in *; simpl in *; [|done].
  replace (set_ai [] w) with w in HQ; [done|].
  destruct w; simpl in *; by subst.
Qed.

Lemma sendMessage_frame tok c txt r :
  respects (keeps outside_send) (TelegramService.sendMessage tok c txt r).
Proof. solve_respects. Qed.

(** A send the platform rejects resolves to [null] and leaves the outbox. *)
Lemma sendMessage_rejected tok c txt r w :
  send_rejected w →
  (TelegramService.sendMessage tok c txt r w).1 = Ok None ∧
  w_outbox (TelegramService.sendMessage tok c txt r w).2 = w_outbox w ∧
  last (w_log (TelegramService.sendMessage tok c txt r w).2) = Some send_failure_logged.
Proof.
  intros Hrej.
  change (wp (TelegramService.sendMessage tok c txt r)
            (λ r' w', r' = Ok None ∧ w_outbox w' = w_outbox w ∧
                      last (w_log w') = Some send_failure_logged) w).
  unfold TelegramService.sendMessage, TelegramService.initializeBot. wp_steps.
  destruct (bool_decide _); wp_steps;
    unfold wp, TelegramService.telegram_sendMessage; wsimpl;
    destruct Hrej as [->|[rest ->]]; simpl; by rewrite last_snoc.
Qed.

(** A send the platform accepts resolves to the message id and files the
    message in the outbox. *)
Lemma sendMessage_accepted tok c txt r w id rest :
  w_telegram w = Some id :: rest →
  (TelegramService.sendMessage tok c txt r w).1 = Ok (Some id) ∧
  w_outbox (TelegramService.sendMessage tok c txt r w).2
    = w_outbox w ++ [mkSent tok c txt r id] ∧
  w_telegram (TelegramService.sendMessage tok c txt r w).2 = rest.
Proof.
  intros Htg.
  change (wp (TelegramService.sendMessage tok c txt r)
            (λ r' w', r' = Ok (Some id) ∧
                      w_outbox w' = w_outbox w ++ [mkSent tok c txt r id] ∧
                      w_telegram w' = rest) w).
  unfold TelegramService.sendMessage, TelegramService.initializeBot. wp_steps.
  destruct (bool_decide _); wp_steps;
    unfold wp, TelegramService.telegram_sendMessage; wsimpl; by rewrite Htg.
Qed.

Lemma sendMessage_result tok c txt r w id :
  (TelegramService.sendMessage tok c txt r w).1 = Ok (Some id) →
  head (w_telegram w) = Some (Some id).
Proof.
  change (wp (TelegramService.sendMessage tok c txt r)
            (λ r' _, r' = Ok (Some id) → head (w_telegram w) = Some (Some id)) w).
  unfold TelegramService.sendMessage, TelegramService.initializeBot. wp_steps.
  destruct (bool_decide _); wp_steps;
    unfold wp, TelegramService.telegram_sendMessage; wsimpl;
    destruct (w_telegram w) as [|[id'|] rest]; simpl; congruence.
Qed.

Lemma wp_generateResponse_cases p h u (Q : Result string → World → Prop) w :
  (∀ text ais, w_ai w = Some text :: ais → Q (Ok text) (set_ai ais w)) →
  (∀ e, generation_rejected w → Q (Throw e) (set_ai (tail (w_ai w)) w)) →
  wp (AiService.generateResponse p h u) Q w.
Proof.
  intros Hok Hrej. destruct (w_ai w) as [|[text|] ais] eqn:E.
  - apply wp_generateResponse_rejected; [by left|]. intros e. rewrite E.
    apply Hrej. by left.
  - eapply wp_generateResponse; [exact E|]. by apply Hok.
  - apply wp_generateResponse_rejected; [right; by eexists|]. intros e. rewrite E.
    apply Hrej. right. by eexists.
Qed.

Lemma mapM_keeps_world {A B} (f : A → M B) (l : list A) :
  (∀ x, respects (keeps (λ w, w)) (f x)) → respects (keeps (λ w, w)) (mapM f l).
Proof. intros Hf. apply respects_mapM; [apply _|done]. Qed.

(** Run a delivery up to the generation: the rate limiter lets the job
    through and the history query succeeds. *)
Ltac deliver_until_generate :=
  wp_steps;
  lazymatch goal with
  | |- wp (RateLimiter.waitForRateLimit ?bid) _ _ =>
      let F := fresh "F" in
      let Fc := fresh "Fc" in
      wp_component2 (waitForRateLimit_never_throws bid) (waitForRateLimit_frame bid) F
        (waitForRateLimit_calls bid) Fc;
      destruct Fc as (?rs & ?Hrs & ?Hredis); wsimpl; frame_equations F
  end;
  unfold Prisma.message_findMany_desc; wp_steps;
  wp_call; frame_rewrite; [|no_fault];
  wp_steps;
  apply (wp_mapM_pure _ context_entry);
  [ let m := fresh "m" in
    let b := fresh "b" in
    let Hx := fresh "Hx" in
    let Em := fresh "Em" in
    intros [m b] Hx ?; unfold context_entry; simpl;
    destruct (msg_isAiGenerated m) eqn:Em; [|done];
    eapply history_rows_intact in Hx as [? Hx]; [|done..]; simpl in Hx; by subst b
  | wp_steps ].

(** ... and up to the send, the generation succeeding. *)
Ltac deliver_until_send :=
  deliver_until_generate;
  eapply wp_generateResponse; [wsimpl; by frame_rewrite|]; wp_steps.

(** A delivery whose send is rejected: nothing is stored, selected or
    enqueued, and the handler resolves. *)
Lemma processMessage_send_rejected job w text ais :
  head (w_prisma_faults w) ≠ Some true →
  w_ai w = Some text :: ais →
  send_rejected w →
  history_intact (groupId (job_data job)) w →
  wp (Relay.processMessage job)
     (λ r w', r = Ok tt ∧ w_messages w' = w_messages w ∧ w_queue w' = w_queue w ∧
              w_outbox w' = w_outbox w ∧
              last (w_log w') = Some send_failure_logged ∧
              ∃ cs, w_calls w' = w_calls w ++ cs ∧ calls_before_send cs) w.
Proof.
  intros Hpf Hai Htg Hfk.
  unfold Relay.processMessage.
  destruct (job_data job) as [tok bid gid tgid uname pers reply] eqn:Ejob. simpl in Hfk.
  deliver_until_send.
  with_world ltac:(fun w1 =>
    assert (send_rejected w1) as Hrej
      by (unfold send_rejected; wsimpl; frame_rewrite; exact Htg);
    pose proof (sendMessage_rejected tok tgid text reply w1 Hrej) as (Hr & Ho & Hl)).
  wp_component (sendMessage_never_throws tok tgid text reply)
    (sendMessage_frame tok tgid text reply) F'.
  simpl in Hr. injection Hr as ->. frame_equations F'. wsimpl.
  wp_steps. frame_rewrite.
  repeat split; [done|]. exists (rs ++ ["prisma.message.findMany"]).
  split; [by rewrite app_assoc|]. by exists rs.
Qed.

(** C10. A delivery that reaches the send (the history query and the
    generation succeed) and whose send the platform rejects, so that
    [sendMessage] returns no message id: the handler resolves without error,
    stores no Message, enqueues no job and leaves the outbox; after the rate
    limiter's Redis commands its only external call is the history query, so
    neither [message.create] nor the selector's [bot.findMany] nor Bull's
    [add] is issued. *)
Theorem delivery_with_rejected_send_changes_nothing
    (job : Job) (w : World) (text : string) (ais : list (option string)) :
  head (w_prisma_faults w) ≠ Some true →
  w_ai w = Some text :: ais →
  send_rejected w →
  history_intact (groupId (job_data job)) w →
  ∃ w' cs,
    Relay.processMessage job w = (Ok tt, w') ∧
    w_messages w' = w_messages w ∧ w_queue w' = w_queue w ∧
    w_outbox w' = w_outbox w ∧
    w_calls w' = w_calls w ++ cs ∧ calls_before_send cs ∧
    ("prisma.message.create" ∉ cs) ∧ ("prisma.bot.findMany" ∉ cs) ∧ ("bull.add" ∉ cs).
Proof.
  intros Hpf Hai Htg Hfk.
  pose proof (processMessage_send_rejected job w text ais Hpf Hai Htg Hfk) as H.
  apply wp_elim in H as (r & w' & E & -> & Hm & Hq & Ho & _ & cs & Hc & Hcs).
  exists w', cs. repeat split; try done.
  all: destruct Hcs as (rs & -> & Hrs); intros Hin;
    apply elem_of_app in Hin as [Hin|Hin];
    [ rewrite Forall_forall in Hrs; by apply Hrs in Hin
    | by apply list_elem_of_singleton in Hin ].
Qed.

Lemma delivery_with_rejected_send_witness :
  ∃ w' cs,
    Relay.processMessage jobA (set_telegram [None] three_bots) = (Ok tt, w') ∧
    w_messages w' = w_messages (set_telegram [None] three_bots) ∧
    w_queue w' = w_queue (set_telegram [None] three_bots) ∧
    w_outbox w' = w_outbox (set_telegram [None] three_bots) ∧
    w_calls w' = w_calls (set_telegram [None] three_bots) ++ cs ∧ calls_before_send cs ∧
    ("prisma.message.create" ∉ cs) ∧ ("prisma.bot.findMany" ∉ cs) ∧ ("bull.add" ∉ cs).
Proof.
  eapply (delivery_with_rejected_send_changes_nothing jobA (set_telegram [None] three_bots)).
  - simpl. discriminate.
  - reflexivity.
  - right. eexists. reflexivity.
  - intros m Hm. by apply elem_of_nil in Hm.
Defined.

Lemma processMessage_generation_rejected job w :
  head (w_prisma_faults w) ≠ Some true →
  generation_rejected w →
  history_intact (groupId (job_data job)) w →
  wp (Relay.processMessage job)
     (λ r w', (∃ e, r = Throw e) ∧ w_messages w' = w_messages w ∧
              w_queue w' = w_queue w ∧ w_outbox w' = w_outbox w) w.
Proof.
  intros Hpf Hai Hfk.
  unfold Relay.processMessage.
  destruct (job_data job) as [tok bid gid tgid uname pers reply] eqn:Ejob. simpl in Hfk.
  deliver_until_generate.
  apply wp_generateResponse_rejected.
  { unfold generation_rejected. wsimpl. by frame_rewrite. }
  intros e. wp_steps. frame_rewrite. eauto.
Qed.

Lemma nextBotIndex_range bots last :
  bots ≠ [] → 0 ≤ nextBotIndex bots last < Z.of_nat (length bots).
Proof.
  intros Hne. assert (0 < Z.of_nat (length bots)) by (destruct bots; simpl; [done|lia]).
  unfold nextBotIndex. destruct last as [m|]; [|lia].
  destruct (negb _); [|lia]. by apply Z.mod_pos_bound.
Qed.

Lemma selectNextBot_some g t x w b0 :
  w_prisma_faults w !! 0%nat ≠ Some true → w_prisma_faults w !! 1%nat ≠ Some true →
  b0 ∈ w_bots w → is_eligible t x b0 = true →
  ∃ nb, (Relay.selectNextBot g t x w).1 = Ok (Some nb).
Proof.
  intros H0 H1 Hb0 He0. rewrite selectNextBot_run by done.
  destruct (eligible_nonempty t x w b0 Hb0 He0) as (b & bs & E).
  pose proof (nextBotIndex_range (eligible t x w) (lastAiMessage g w)) as Hr.
  rewrite E in *. specialize (Hr ltac:(done)). simpl length in *.
  destruct (lookup_lt_is_Some_2 (b :: bs)
              (Z.to_nat (nextBotIndex (b :: bs) (lastAiMessage g w)))) as [b' Hb'].
  { simpl. lia. }
  rewrite Hb'. simpl. eauto.
Qed.

(** With a fault due at its first lookup the selector logs the failure. *)
Lemma selectNextBot_fault_logged g t x w :
  head (w_prisma_faults w) = Some true →
  last (w_log (Relay.selectNextBot g t x w).2) = Some selection_failure_logged.
Proof.
  intros Hf.
  change (wp (Relay.selectNextBot g t x)
            (λ _ w', last (w_log w') = Some selection_failure_logged) w).
  unfold Relay.selectNextBot, Prisma.bot_findMany. wp_steps.
  wp_call; [congruence|]. wp_steps. by rewrite last_snoc.
Qed.

(** Run a delivery from the send up to the chain step: the platform accepts
    the message and its record is stored. *)
Ltac deliver_send_and_persist Htg Hid Hbot :=
  lazymatch goal with
  | |- wp (TelegramService.sendMessage ?tok ?c ?txt ?r) _ _ =>
      with_world ltac:(fun w1 =>
        let Hr := fresh "Hr" in
        let Ho := fresh "Hout" in
        let Ht := fresh "Htel" in
        let F := fresh "F" in
        destruct (sendMessage_accepted tok c txt r w1 _ _
                    ltac:(wsimpl; frame_rewrite; first [reflexivity | exact Htg])) as (Hr & Ho & Ht);
        wp_component (sendMessage_never_throws tok c txt r) (sendMessage_frame tok c txt r) F;
        simpl in Hr; injection Hr as ->; frame_equations F; wsimpl)
  end;
  cbv beta iota;
  rewrite (proj2 (Z.eqb_neq _ 0) Hid); cbn [negb];
  unfold Prisma.message_create; wp_steps;
  wp_call; frame_rewrite; [|no_fault];
  wp_steps; frame_rewrite;
  unfold bot_registered in Hbot; rewrite Hbot;
  wp_steps.

Lemma processMessage_selection_fault job w text id :
  delivers job text id w → chained_selection_fails w →
  wp (Relay.processMessage job)
     (λ r w', r = Ok tt ∧ w_queue w' = w_queue w ∧ sent_and_persisted job text id w w' ∧
              (w_prisma_faults w !! 2%nat = Some true →
               selection_failure_logged ∈ w_log w')) w.
Proof.
  intros (Hp0 & Hp1 & [ais Hai] & [Hid [rest Htg]] & Hfk & Hbot) Hp2.
  rewrite <- head_lookup in Hp0. rewrite <- lookup_tail, <- head_lookup in Hp1.
  unfold Relay.processMessage, sent_and_persisted.
  destruct (job_data job) as [tok bid gid tgid uname pers reply] eqn:Ejob.
  simpl in Hfk, Hbot |- *.
  deliver_until_send.
  deliver_send_and_persist Htg Hid Hbot.
  with_world ltac:(fun w2 =>
    pose proof (selectNextBot_fault gid tgid bid w2
                  ltac:(wsimpl; frame_rewrite; rewrite !lookup_tail; exact Hp2)) as Hsel;
    pose proof (selectNextBot_fault_logged gid tgid bid w2) as Hlog).
  wsimpl. frame_rewrite. rewrite head_lookup, !lookup_tail in Hlog.
  wp_component (selectNextBot_never_throws gid tgid bid) (selectNextBot_frame gid tgid bid) Fsel.
  simpl in Hsel. injection Hsel as ->. frame_equations Fsel.
  wp_steps. frame_rewrite.
  split; [done|]. split; [done|]. split; [split; [done|eauto]|].
  intros Hf. apply Hlog in Hf. apply last_Some in Hf as [l' Hl'].
  rewrite Hl'. apply elem_of_app. left. apply elem_of_app. right. apply list_elem_of_here.
Qed.

Lemma processMessage_enqueue_fault job w text id :
  delivers job text id w → chained_enqueue_fails job w →
  wp (Relay.processMessage job)
     (λ r w', r = Throw "bull unavailable" ∧ w_queue w' = w_queue w ∧
              sent_and_persisted job text id w w' ∧
              last (w_log w') = Some enqueue_failure_logged) w.
Proof.
  intros (Hp0 & Hp1 & [ais Hai] & [Hid [rest Htg]] & Hfk & Hbot)
         (Hp2 & Hp3 & (b0 & Hb0 & He0) & Hbf).
  rewrite <- head_lookup in Hp0. rewrite <- lookup_tail, <- head_lookup in Hp1.
  unfold Relay.processMessage, sent_and_persisted.
  destruct (job_data job) as [tok bid gid tgid uname pers reply] eqn:Ejob.
  simpl in Hfk, Hbot, He0 |- *.
  deliver_until_send.
  deliver_send_and_persist Htg Hid Hbot.
  with_world ltac:(fun w2 =>
    destruct (selectNextBot_some gid tgid bid w2 b0) as [nb Hsel];
      [wsimpl; frame_rewrite; rewrite ?lookup_tail; done ..|]).
  wp_component (selectNextBot_never_throws gid tgid bid) (selectNextBot_frame gid tgid bid) Fsel.
  simpl in Hsel. injection Hsel as ->. frame_equations Fsel.
  unfold Relay.addToQueue, Bull.add. wp_steps.
  apply wp_random_floor; [lia|]. intros r Hr. wsimpl. wp_steps.
  wp_call; frame_rewrite; [congruence|].
  wp_steps. frame_rewrite.
  split; [done|]. split; [done|]. split; [split; [done|eauto]|].
  by rewrite last_snoc.
Qed.

(** C4, as the code has it. Of the chain steps that follow a successful
    send and persist, a failing store lookup of the re-invoked Turn Selector
    is swallowed (and logged by the selector): the delivery resolves, nothing
    is enqueued, the message stays sent and persisted.  A failure of
    enqueueing the chained job is not swallowed: it is logged by the
    delivery handler and re-thrown, so the delivery of the already sent and
    persisted message rejects. *)
Theorem chain_step_failure_outcomes (job : Job) (wa wb : World) (text : string) (id : Z) :
  delivers job text id wa → chained_selection_fails wa →
  delivers job text id wb → chained_enqueue_fails job wb →
  (∃ w', Relay.processMessage job wa = (Ok tt, w') ∧
         w_queue w' = w_queue wa ∧ sent_and_persisted job text id wa w' ∧
         (w_prisma_faults wa !! 2%nat = Some true → selection_failure_logged ∈ w_log w')) ∧
  (∃ w', Relay.processMessage job wb = (Throw "bull unavailable", w') ∧
         w_queue w' = w_queue wb ∧ sent_and_persisted job text id wb w' ∧
         last (w_log w') = Some enqueue_failure_logged).
Proof.
  intros Ha1 Ha2 Hb1 Hb2. split.
  - pose proof (processMessage_selection_fault job wa text id Ha1 Ha2) as H.
    apply wp_elim in H as (r & w' & E & -> & H). by exists w'.
  - pose proof (processMessage_enqueue_fault job wb text id Hb1 Hb2) as H.
    apply wp_elim in H as (r & w' & E & -> & H). by exists w'.
Qed.

Lemma three_bots_deliver (w : World) :
  w_bots w = w_bots three_bots → w_messages w = [] →
  w_ai w = w_ai three_bots → w_telegram w = w_telegram three_bots →
  w_prisma_faults w !! 0%nat ≠ Some true → w_prisma_faults w !! 1%nat ≠ Some true →
  delivers jobA "hi" 11 w.
Proof.
  intros Hb Hm Hai Htg H0 H1. repeat split; try done.
  - rewrite Hai. by eexists.
  - rewrite Htg. by eexists.
  - intros m Hin. rewrite Hm in Hin. by apply elem_of_nil in Hin.
  - unfold bot_registered. by rewrite Hb.
Defined.

Lemma chain_step_failure_witness :
  (∃ w', Relay.processMessage jobA (set_prisma_faults [false; false; true] three_bots)
           = (Ok tt, w') ∧
         w_queue w' = [] ∧
         sent_and_persisted jobA "hi" 11
           (set_prisma_faults [false; false; true] three_bots) w' ∧
         (Some true = Some true → selection_failure_logged ∈ w_log w')) ∧
  (∃ w', Relay.processMessage jobA (set_bull_faults [true] three_bots)
           = (Throw "bull unavailable", w') ∧
         w_queue w' = [] ∧
         sent_and_persisted jobA "hi" 11 (set_bull_faults [true] three_bots) w' ∧
         last (w_log w') = Some enqueue_failure_logged).
Proof.
  apply (chain_step_failure_outcomes jobA
           (set_prisma_faults [false; false; true] three_bots)
           (set_bull_faults [true] three_bots) "hi" 11).
  - apply three_bots_deliver; try reflexivity; simpl; discriminate.
  - left. reflexivity.
  - apply three_bots_deliver; try reflexivity; simpl; discriminate.
  - split; [simpl; discriminate|]. split; [simpl; discriminate|].
    split; [|reflexivity]. exists botB. split; [|reflexivity].
    apply list_elem_of_further, list_elem_of_here.
Defined.

(** C4, refuted as stated. The platform accepts A's message and its record
    is stored; B is selected; Bull rejects the enqueue of B's job: the
    delivery rejects with that error, although the message has been sent and
    persisted, so the queue marks A's job failed and will retry it. *)
Lemma chained_enqueue_failure_fails_the_delivery :
  let out := Relay.processMessage jobA (set_bull_faults [true] three_bots) in
  out.1 = Throw "bull unavailable" ∧
  speakers out.2 = ["A"] ∧
  sent_text <$> w_outbox out.2 = ["hi"] ∧
  out.1 ≠ Ok tt.
Proof. vm_compute. repeat split; by intros [=]. Qed.

(** C5, as the code has it. A send the platform rejects is caught inside
    [sendMessage], which logs it and returns no message id; the delivery
    handler then resolves, so the queue sees a completed job and retries
    nothing.  Errors raised before the send do propagate: a rejected
    generation makes the delivery reject.  Every job, whether enqueued by
    the webhook handler or by a delivery, carries the retry policy
    attempts = 3, backoff exponential from 1000 ms. *)
Theorem rejected_send_resolves_the_delivery
    (job : Job) (w1 w2 : World) (text : string) (ais : list (option string)) :
  head (w_prisma_faults w1) ≠ Some true →
  w_ai w1 = Some text :: ais →
  send_rejected w1 →
  history_intact (groupId (job_data job)) w1 →
  head (w_prisma_faults w2) ≠ Some true →
  generation_rejected w2 →
  history_intact (groupId (job_data job)) w2 →
  (∃ w', Relay.processMessage job w1 = (Ok tt, w') ∧
         last (w_log w') = Some send_failure_logged ∧
         w_outbox w' = w_outbox w1) ∧
  (∃ e w', Relay.processMessage job w2 = (Throw e, w')) ∧
  (∀ j w, ∃ js, w_queue (Relay.processMessage j w).2 = w_queue w ++ js ∧
                Forall (λ j', retry_policy j' = (3, exponential, 1000)) js) ∧
  (∀ req w, ∃ js, w_queue (WebhookController.handleWebhook req w).2 = w_queue w ++ js ∧
                  Forall (λ j', retry_policy j' = (3, exponential, 1000)) js).
Proof.
  intros Hp1 Hai1 Htg1 Hfk1 Hp2 Hai2 Hfk2.
  split; [|split; [|split]].
  - pose proof (processMessage_send_rejected job w1 text ais Hp1 Hai1 Htg1 Hfk1) as H.
    apply wp_elim in H as (r & w' & E & -> & _ & _ & Ho & Hl & _). by exists w'.
  - pose proof (processMessage_generation_rejected job w2 Hp2 Hai2 Hfk2) as H.
    apply wp_elim in H as (r & w' & E & [e ->] & _). by exists e, w'.
  - intros j w. destruct (processMessage_grows j w) as (js & H1 & H2).
    exists js. split; [done|]. eapply Forall_impl; [exact H2|]. by intros j' [_ Hj'].
  - intros req w. destruct (handleWebhook_grows req w) as (js & H1 & H2).
    exists js. split; [done|]. eapply Forall_impl; [exact H2|]. by intros j' [_ Hj'].
Qed.

Lemma rejected_send_witness :
  (∃ w', Relay.processMessage jobA (set_telegram [None] three_bots) = (Ok tt, w') ∧
         last (w_log w') = Some send_failure_logged ∧
         w_outbox w' = []) ∧
  (∃ e w', Relay.processMessage jobA (set_ai [None] three_bots) = (Throw e, w')).
Proof.
  pose proof (rejected_send_resolves_the_delivery jobA
                (set_telegram [None] three_bots) (set_ai [None] three_bots)
                "hi" (tail (w_ai three_bots))) as H.
  destruct H as (H1 & H2 & _).
  - simpl. discriminate.
  - reflexivity.
  - right. eexists. reflexivity.
  - intros m Hm. by apply elem_of_nil in Hm.
  - simpl. discriminate.
  - right. eexists. reflexivity.
  - intros m Hm. by apply elem_of_nil in Hm.
  - split; [exact H1|exact H2].
Defined.

(** C5, refuted as stated. The platform rejects the send of A's message:
    the delivery handler resolves, it does not reject, so no error reaches
    the queue and the job is not retried; nothing has been sent. *)
Lemma rejected_send_does_not_propagate :
  let out := Relay.processMessage jobA (set_telegram [None] three_bots) in
  out.1 = Ok tt ∧ (∀ e, out.1 ≠ Throw e) ∧
  w_outbox out.2 = [] ∧
  last (w_log out.2) = Some send_failure_logged.
Proof. vm_compute. repeat split; by intros. Qed.
(** * Webhook handling *)

(** The trigger block leaves the queue or adds the response job of the bot
    the selector returned, which is then the receiving bot. *)
Lemma triggerResponse_outcome bot group sendingBot chatId w :
  wp (WebhookController.triggerResponse bot group sendingBot chatId)
     (λ _ w',
        w_queue w' = w_queue w ∨
        ∃ nb, (Relay.selectNextBot (grp_id group) (grp_telegramId group)
                 (or_empty (bot_id <$> sendingBot)) w).1 = Ok (Some nb) ∧
              nb_id nb = bot_id bot ∧
              enqueued_for nb group chatId w w') w.
Proof.
  unfold WebhookController.triggerResponse.
  destruct (match sendingBot with None => _ | Some _ => _ end); [|by left].
  wp_steps.
  wp_component (selectNextBot_never_throws (grp_id group) (grp_telegramId group)
                  (or_empty (bot_id <$> sendingBot)))
    (selectNextBot_frame (grp_id group) (grp_telegramId group)
       (or_empty (bot_id <$> sendingBot))) F.
  frame_equations F. cbn [fst].
  destruct a as [nb|]; [|wp_steps; left; by frame_rewrite].
  destruct (negb _ && bool_decide (nb_id nb = bot_id bot)) eqn:G;
    [|wp_steps; left; by frame_rewrite].
  apply andb_true_iff in G as [_ G]. apply bool_decide_eq_true in G.
  unfold TelegramService.initializeBot, Relay.addToQueue, Bull.add. wp_steps.
  destruct (bool_decide (nb_token nb ∈ _)); wp_steps.
  all: apply wp_random_floor; [lia|]; intros r Hr; wsimpl; wp_steps.
  all: wp_call; wp_steps; frame_rewrite; try (by left).
  all: right; exists nb; split; [done|]; split; [done|].
  all: unfold enqueued_for; wsimpl; frame_rewrite; by eexists.
Qed.

(** Every job the webhook handler adds is the response job of the bot whose
    webhook received the update. *)
Lemma handleWebhook_outcome req w :
  wp (WebhookController.handleWebhook req)
     (λ _ w',
        w_queue w' = w_queue w ∨
        ∃ bot job,
          List.find (λ b, bool_decide (bot_token b = WebhookController.req_botToken req))
            (w_bots w) = Some bot ∧
          w_queue w' = w_queue w ++ [job] ∧
          botId (job_data job) = bot_id bot) w.
Proof.
  unfold WebhookController.handleWebhook. wp_steps.
  destruct (WebhookController.message _) as [msg|]; [|wp_steps; by left].
  destruct (WebhookController.text msg) as [txt|]; [|wp_steps; by left].
  destruct (negb (truthy_string txt)); [wp_steps; by left|].
  destruct (_ && _); [wp_steps; by left|].
  unfold Prisma.bot_findUnique, Prisma.group_findUnique. wp_steps.
  wp_call; wp_steps; [|by left].
  destruct (find _ (w_bots w)) as [bot|] eqn:Ebot; [|wp_steps; by left].
  wp_steps. wp_call; wp_steps; [|by left].
  destruct (find _ (w_groups w)) as [group|] eqn:Egroup; [|wp_steps; by left].
  wp_steps.
  match goal with |- wp ?m _ _ => set (lookup := m) end.
  assert (respects (keeps w_queue) lookup) as Hlookup by (subst lookup; solve_respects).
  wp_frame Hlookup F1; unfold keeps in F1; wsimpl; [|wp_steps; left; by frame_rewrite].
  wp_steps.
  match goal with |- wp ?m _ _ =>
    assert (respects (keeps w_queue) m) as Hstore by solve_respects end.
  wp_frame Hstore F2; unfold keeps in F2; [|wp_steps; left; by frame_rewrite].
  eapply wp_mono; [|apply triggerResponse_outcome].
  intros r w' Hout.
  assert (w_queue w' = w_queue w ∨
          ∃ bot0 job, Some bot = Some bot0 ∧ w_queue w' = w_queue w ++ [job] ∧
                      botId (job_data job) = bot_id bot0) as Hpost.
  { destruct Hout as [Hq|(nb & _ & Hid & job & Hq & Hjd)]; frame_rewrite.
    - by left.
    - right. exists bot, job. split; [done|]. split; [done|]. by rewrite Hjd. }
  destruct r; [done|]. wp_steps. done.
Qed.

(** C2. The webhook handler enqueues a response job only when the bot
    chosen by the Turn Selector is the bot whose webhook received the
    update.  At the trigger block, run for the receiving [bot]: the queue is
    left as it was, or the selector (invoked there) returned a bot whose id
    is the receiving bot's and exactly the response job of that bot was
    added; when the selector returns a bot with another id, or none, the
    queue is left as it was.  For the whole handler: it adds at most one
    job, and that job is for the bot registered under the token of the
    request. *)
Theorem response_enqueued_only_for_selected_self
    (bot : Bot) (group : Group) (sendingBot : option Bot) (chatId : string) (w : World)
    (req : WebhookController.Request) (w0 : World) :
  let sel := (Relay.selectNextBot (grp_id group) (grp_telegramId group)
                (or_empty (bot_id <$> sendingBot)) w).1 in
  let w' := (WebhookController.triggerResponse bot group sendingBot chatId w).2 in
  let w0' := (WebhookController.handleWebhook req w0).2 in
  (w_queue w' = w_queue w ∨
   ∃ nb, sel = Ok (Some nb) ∧ nb_id nb = bot_id bot ∧ enqueued_for nb group chatId w w') ∧
  (∀ nb, sel = Ok (Some nb) → nb_id nb ≠ bot_id bot → w_queue w' = w_queue w) ∧
  (sel = Ok None → w_queue w' = w_queue w) ∧
  (w_queue w0' = w_queue w0 ∨
   ∃ bot0 job,
     List.find (λ b, bool_decide (bot_token b = WebhookController.req_botToken req))
       (w_bots w0) = Some bot0 ∧
     w_queue w0' = w_queue w0 ++ [job] ∧
     botId (job_data job) = bot_id bot0).
Proof.
  intros sel w' w0'.
  pose proof (triggerResponse_outcome bot group sendingBot chatId w) as H.
  unfold wp in H. fold w' sel in H.
  split; [exact H|]. split; [|split].
  - intros nb Hsel Hne. destruct H as [H|(nb' & Hsel' & Hid & _)]; [done|].
    rewrite Hsel in Hsel'. injection Hsel' as <-. done.
  - intros Hsel. destruct H as [H|(nb' & Hsel' & _)]; [done|].
    rewrite Hsel in Hsel'. done.
  - apply (handleWebhook_outcome req w0).
Qed.

Lemma response_not_enqueued_for_other_witness :
  w_queue (WebhookController.triggerResponse botB group1 None "-100" three_bots).2
  = w_queue three_bots.
Proof.
  refine (proj1 (proj2 (response_enqueued_only_for_selected_self
                          botB group1 None "-100" three_bots
                          (human_hello "tokB") three_bots))
            (nextBot_of botA) _ _).
  - reflexivity.
  - simpl. discriminate.
Defined.

(** * Message dedup *)

Lemma find_none_filter {A} (p : A → bool) (l : list A) :
  List.find p l = None → List.filter p l = [].
Proof.
  induction l as [|a l IH]; simpl; [done|].
  destruct (p a); [done|]. apply IH.
Qed.

Lemma filter_nil_find {A} (p : A → bool) (l : list A) :
  length (List.filter p l) = 0%nat → List.find p l = None.
Proof.
  induction l as [|a l IH]; simpl; [done|].
  destruct (p a); [done|]. apply IH.
Qed.

Lemma find_some_existsb {A} (p q : A → bool) (l : list A) (a : A) :
  List.find p l = Some a → q a = true → existsb q l = true.
Proof.
  intros Hf Hq. apply existsb_exists. exists a. split; [|done].
  by apply find_some in Hf as [Hin _].
Qed.

Lemma stored_count_snoc g mid msgs m :
  stored_count g mid (msgs ++ [m]) =
  (stored_count g mid msgs +
   if bool_decide (msg_telegramMsgId m = Some mid) && bool_decide (msg_groupId m = g)
   then 1 else 0)%nat.
Proof.
  unfold stored_count. rewrite List.filter_app, length_app. simpl.
  by destruct (_ && _).
Qed.

Lemma stored_new_unique g mid msgs msgs' :
  stored_new g mid msgs msgs' → unique_pairs msgs → unique_pairs msgs'.
Proof.
  intros (H0 & m & -> & Hg & Hmid) Hu g' mid'. rewrite stored_count_snoc.
  destruct (_ && _) eqn:E; [|specialize (Hu g' mid'); lia].
  apply andb_true_iff in E as [E1 E2].
  apply bool_decide_eq_true in E1, E2. rewrite Hmid in E1. injection E1 as <-.
  rewrite Hg in E2. subst g'. lia.
Qed.

Lemma storeMessage_outcome bot group sendingBot msg txt su w :
  wp (WebhookController.storeMessage bot group sendingBot msg txt su)
     (λ _ w', w_messages w' = w_messages w ∨
              stored_new (grp_id group) (WebhookController.message_id msg)
                (w_messages w) (w_messages w')) w.
Proof.
  unfold WebhookController.storeMessage.
  destruct (truthy_string txt); [|wp_steps; by left].
  unfold Prisma.message_findFirst, Prisma.message_create. wp_steps.
  wp_call; wp_steps; [|by left].
  destruct (find _ (w_messages w)) as [existing|] eqn:Efind; wp_steps; [by left|].
  wp_call; wp_steps; [|by left].
  destruct (existsb _ _); wp_steps; [|by left].
  right. split.
  - unfold stored_count. by rewrite (find_none_filter _ _ Efind).
  - by eexists.
Qed.

Lemma triggerResponse_keeps_messages bot group sb chatId :
  respects (keeps w_messages) (WebhookController.triggerResponse bot group sb chatId).
Proof. solve_respects. Qed.

(** The webhook handler leaves the Message table as it is or appends one
    row for a pair that had none. *)
Lemma handleWebhook_messages req w :
  wp (WebhookController.handleWebhook req)
     (λ _ w', w_messages w' = w_messages w ∨
              ∃ g mid, stored_new g mid (w_messages w) (w_messages w')) w.
Proof.
  unfold WebhookController.handleWebhook. wp_steps.
  destruct (WebhookController.message _) as [msg|]; [|wp_steps; by left].
  destruct (WebhookController.text msg) as [txt|]; [|wp_steps; by left].
  destruct (negb (truthy_string txt)); [wp_steps; by left|].
  destruct (_ && _); [wp_steps; by left|].
  unfold Prisma.bot_findUnique, Prisma.group_findUnique. wp_steps.
  wp_call; wp_steps; [|by left].
  destruct (find _ (w_bots w)) as [bot|] eqn:Ebot; [|wp_steps; by left].
  wp_steps. wp_call; wp_steps; [|by left].
  destruct (find _ (w_groups w)) as [group|] eqn:Egroup; [|wp_steps; by left].
  wp_steps.
  match goal with |- wp ?m _ _ => set (lookup := m) end.
  assert (respects (keeps w_messages) lookup) as Hlookup by (subst lookup; solve_respects).
  wp_frame Hlookup F1; unfold keeps in F1; wsimpl; [|wp_steps; left; by frame_rewrite].
  wp_steps.
  eapply wp_mono; [|apply storeMessage_outcome].
  intros r w1 Hstore.
  assert (w_messages w1 = w_messages w ∨
          ∃ g mid, stored_new g mid (w_messages w) (w_messages w1)) as Hpost.
  { destruct Hstore as [Hm|Hnew]; frame_rewrite; [by left|]. right. eauto. }
  destruct r as [[]|e]; [|wp_steps; done].
  match goal with |- wp ?m _ _ =>
    pose proof (triggerResponse_keeps_messages bot group a
                  (string_of_Z (WebhookController.chat_id (WebhookController.chat msg))))
      as Htrig end.
  wp_frame Htrig F2; unfold keeps in F2; [|wp_steps]; by rewrite F2.
Qed.

(** A first delivery of a group text message to a registered bot of a
    registered group stores it, when the store answers. *)
Lemma handleWebhook_stores req w msg txt bot group :
  WebhookController.message (WebhookController.req_body req) = Some msg →
  group_text_message msg txt →
  List.find (λ b, bool_decide (bot_token b = WebhookController.req_botToken req))
    (w_bots w) = Some bot →
  List.find (λ g, bool_decide (grp_telegramId g =
               string_of_Z (WebhookController.chat_id (WebhookController.chat msg))))
    (w_groups w) = Some group →
  w_prisma_faults w = [] →
  stored_count (grp_id group) (WebhookController.message_id msg) (w_messages w) = 0%nat →
  wp (WebhookController.handleWebhook req)
     (λ _ w', stored_count (grp_id group) (WebhookController.message_id msg)
                (w_messages w') = 1%nat) w.
Proof.
  intros Hmsg (Htxt & Htruthy & Htype) Hbot Hgroup Hpf Hcount.
  unfold WebhookController.handleWebhook. rewrite Hmsg, Htxt, Htruthy. simpl negb.
  replace (negb _ && negb _) with false
    by (destruct Htype as [-> | ->]; reflexivity).
  cbv iota.
  unfold Prisma.bot_findUnique, Prisma.group_findUnique. wp_steps.
  wp_call; rewrite ?Hpf in *; wsimpl; [|no_fault]. wp_steps. rewrite Hbot.
  wp_steps. wp_call; [|no_fault]. wp_steps. rewrite Hgroup. wp_steps.
  assert (existsb (λ b, bool_decide (bot_id b = bot_id bot)) (w_bots w) = true) as Hfk.
  { eapply find_some_existsb; [exact Hbot|]. by apply bool_decide_eq_true. }
  pose proof (filter_nil_find _ _ Hcount) as Hnone.
  (* the store block, for whichever sending bot the lookup resolves to *)
  assert (∀ (sb : option Bot) (su : option string) w1,
            w_messages w1 = w_messages w → w_bots w1 = w_bots w →
            w_prisma_faults w1 = [] →
            (∀ b, sb = Some b → b ∈ w_bots w) →
            wp (WebhookController.storeMessage bot group sb msg txt su)
               (λ r w', r = Ok tt ∧
                        stored_count (grp_id group) (WebhookController.message_id msg)
                          (w_messages w') = 1%nat) w1) as Hstore.
  { intros sb su w1 Hm Hb Hf Hsb. unfold WebhookController.storeMessage.
    rewrite Htruthy. unfold Prisma.message_findFirst, Prisma.message_create.
    wp_steps. wp_call; rewrite ?Hf in *; wsimpl; [|no_fault]. wp_steps.
    rewrite Hm, Hnone. wp_steps. wp_call; [|no_fault]. wp_steps. rewrite Hb.
    replace (existsb _ (w_bots w)) with true.
    2:{ symmetry. destruct sb as [b|]; [|done].
        apply existsb_exists. exists b. split; [|by apply bool_decide_eq_true].
        apply list_elem_of_In. by apply Hsb. }
    wp_steps. split; [done|]. rewrite Hm, stored_count_snoc, Hcount. simpl.
    by rewrite !bool_decide_eq_true_2. }
  (* after the store block nothing touches the Message table *)
  pose (Qtc := λ (r : Result unit) (w' : World),
          match r with
          | Ok _ => stored_count (grp_id group) (WebhookController.message_id msg)
                      (w_messages w') = 1%nat
          | Throw e =>
              wp (logger error ("Webhook handling failed: " +:+ e))
                 (λ _ w'', stored_count (grp_id group) (WebhookController.message_id msg)
                             (w_messages w'') = 1%nat) w'
          end).
  assert (∀ (sb : option Bot) (su : option string) w1,
            w_messages w1 = w_messages w → w_bots w1 = w_bots w →
            w_prisma_faults w1 = [] →
            (∀ b, sb = Some b → b ∈ w_bots w) →
            wp (WebhookController.storeMessage bot group sb msg txt su)
               (λ r w', match r with
                        | Ok _ =>
                            wp (WebhookController.triggerResponse bot group sb
                                  (string_of_Z (WebhookController.chat_id
                                                  (WebhookController.chat msg))))
                               Qtc w'
                        | Throw e => Qtc (Throw e) w'
                        end) w1) as Hrest.
  { intros sb su w1 Hm Hb Hf Hsb.
    eapply wp_mono; [|by apply Hstore]. intros r w2 [-> Hc]. cbv beta iota.
    pose proof (triggerResponse_keeps_messages bot group sb
                  (string_of_Z (WebhookController.chat_id (WebhookController.chat msg))))
      as Htrig.
    wp_frame Htrig F; unfold keeps in F; unfold Qtc; [|wp_steps]; by rewrite F. }
  destruct (WebhookController.from msg) as [[uid [uname|] []]|]; simpl;
    try (wp_steps; apply Hrest; [reflexivity..|by intros ? [=]]).
  destruct (truthy_string uname);
    [|wp_steps; apply Hrest; [reflexivity..|by intros ? [=]]].
  unfold Prisma.bot_findFirst. wp_steps. wp_call; [|no_fault]. wp_steps.
  apply Hrest; try reflexivity.
  intros b Hb. apply find_some in Hb as [Hb _]. by apply list_elem_of_In.
Qed.

(** A delivery leaves the Message table as it is or appends one row, for
    the group of the job and the message id the platform has answered. *)
Lemma processMessage_messages job w :
  wp (Relay.processMessage job)
     (λ _ w', w_messages w' = w_messages w ∨
              ∃ id m, head (w_telegram w) = Some (Some id) ∧
                      w_messages w' = w_messages w ++ [m] ∧
                      msg_groupId m = groupId (job_data job) ∧
                      msg_telegramMsgId m = Some id) w.
Proof.
  unfold Relay.processMessage.
  destruct (job_data job) as [tok bid gid tgid uname pers reply] eqn:Ejob. simpl.
  wp_steps.
  wp_component (waitForRateLimit_never_throws bid) (waitForRateLimit_frame bid) F.
  frame_equations F.
  unfold Prisma.message_findMany_desc. wp_steps.
  wp_call; wp_steps; frame_rewrite; [|by left].
  match goal with |- wp (mapM ?f ?l) _ _ =>
    assert (respects (keeps (λ w, w)) (mapM f l)) as Hmap
  end.
  { apply mapM_keeps_world. intros [m b]. solve_respects. }
  wp_frame Hmap Fm; unfold keeps in Fm; subst; wsimpl;
    [|wp_steps; frame_rewrite; by left].
  wp_steps.
  apply wp_generateResponse_cases;
    [intros text ais Hai|intros e Hrej; wp_steps; frame_rewrite; by left].
  wp_steps.
  with_world ltac:(fun w1 =>
    pose proof (sendMessage_result tok tgid text reply w1) as Hres).
  wp_component (sendMessage_never_throws tok tgid text reply)
    (sendMessage_frame tok tgid text reply) Fs.
  frame_equations Fs. cbn [fst] in Hres. wsimpl. frame_rewrite.
  match goal with |- wp (match ?x with _ => _ end) _ _ => destruct x as [sent|] end;
    [|wp_steps; frame_rewrite; by left].
  specialize (Hres sent eq_refl).
  destruct (negb (sent =? 0)); [|wp_steps; frame_rewrite; by left].
  unfold Prisma.message_create. wp_steps.
  wp_call; wp_steps; frame_rewrite; [|by left].
  destruct (existsb _ _); wp_steps; frame_rewrite; [|by left].
  match goal with |- wp ?m ?Q ?w1 =>
    assert (respects (keeps w_messages) m) as Hsel by solve_respects
  end.
  wp_frame Hsel Fsel; unfold keeps in Fsel; wsimpl.
  - match goal with |- wp ?m ?Q ?w1 =>
      assert (respects (keeps w_messages) m) as Hadd by solve_respects
    end.
    wp_frame Hadd Fadd; unfold keeps in Fadd; wsimpl; [|wp_steps];
      frame_rewrite; right; by eexists _, _.
  - wp_steps. frame_rewrite. right. by eexists _, _.
Qed.

Lemma processMessage_unique job w :
  unique_pairs (w_messages w) →
  (∀ id, head (w_telegram w) = Some (Some id) →
         stored_count (groupId (job_data job)) id (w_messages w) = 0%nat) →
  unique_pairs (w_messages (Relay.processMessage job w).2).
Proof.
  intros Hu Hfresh. pose proof (processMessage_messages job w) as H. unfold wp in H.
  destruct H as [->|(id & m & Hid & Hm & Hg & Hmid)]; [done|].
  eapply stored_new_unique; [|exact Hu].
  split; [by apply Hfresh|]. by exists m.
Qed.

Lemma handleWebhook_unique req w :
  unique_pairs (w_messages w) →
  unique_pairs (w_messages (WebhookController.handleWebhook req w).2).
Proof.
  intros Hu. pose proof (handleWebhook_messages req w) as H. unfold wp in H.
  destruct H as [->|(g & mid & Hnew)]; [done|].
  by eapply stored_new_unique.
Qed.

(** Deliveries handled one after the other.  The webhook handler looks for
    a Message with the same group and platform message id before it
    inserts, and skips the insert when there is one.  So a group text
    message that reaches a registered bot of a registered group, no row
    being stored for its pair and the store answering, is stored as exactly
    one row, and exactly one row is still there after any further update
    has been handled from beginning to end, in particular a second delivery
    of the same message to this or to another bot's webhook.  A handler
    that runs from beginning to end without another one in between never
    breaks "at most one row per (group, platform message id)"; neither does
    a delivery, which inserts without a check, as long as the platform
    numbers the sent message with an id not yet stored for the group. *)
Theorem inbound_message_stored_once
    (req1 req2 : WebhookController.Request) (w : World)
    (msg : WebhookController.TelegramMessage) (txt : string) (bot : Bot) (group : Group) :
  WebhookController.message (WebhookController.req_body req1) = Some msg →
  group_text_message msg txt →
  List.find (λ b, bool_decide (bot_token b = WebhookController.req_botToken req1))
    (w_bots w) = Some bot →
  List.find (λ g, bool_decide (grp_telegramId g =
               string_of_Z (WebhookController.chat_id (WebhookController.chat msg))))
    (w_groups w) = Some group →
  w_prisma_faults w = [] →
  stored_count (grp_id group) (WebhookController.message_id msg) (w_messages w) = 0%nat →
  let w1 := (WebhookController.handleWebhook req1 w).2 in
  let w2 := (WebhookController.handleWebhook req2 w1).2 in
  stored_count (grp_id group) (WebhookController.message_id msg) (w_messages w1) = 1%nat ∧
  stored_count (grp_id group) (WebhookController.message_id msg) (w_messages w2) = 1%nat ∧
  (∀ req w0, unique_pairs (w_messages w0) →
             unique_pairs (w_messages (WebhookController.handleWebhook req w0).2)) ∧
  (∀ job w0, unique_pairs (w_messages w0) →
             (∀ id, head (w_telegram w0) = Some (Some id) →
                    stored_count (groupId (job_data job)) id (w_messages w0) = 0%nat) →
             unique_pairs (w_messages (Relay.processMessage job w0).2)).
Proof.
  intros Hmsg Htxt Hbot Hgroup Hpf Hcount w1 w2.
  pose proof (handleWebhook_stores req1 w msg txt bot group
                Hmsg Htxt Hbot Hgroup Hpf Hcount) as H1.
  unfold wp in H1. fold w1 in H1.
  split; [done|].
  split; [|split; [apply handleWebhook_unique|apply processMessage_unique]].
  pose proof (handleWebhook_messages req2 w1) as H2. unfold wp in H2. fold w2 in H2.
  destruct H2 as [->|(g & mid & H0 & m & -> & Hg & Hmid)]; [done|].
  rewrite stored_count_snoc, H1.
  destruct (_ && _) eqn:E; [|done].
  apply andb_true_iff in E as [E1 E2]. apply bool_decide_eq_true in E1, E2.
  rewrite Hmid in E1. injection E1 as ->. rewrite Hg in E2. subst g.
  unfold w1 in *. congruence.
Qed.

Lemma inbound_message_stored_once_witness :
  let w1 := (WebhookController.handleWebhook (human_hello "tokA") three_bots).2 in
  let w2 := (WebhookController.handleWebhook (human_hello "tokB") w1).2 in
  stored_count "g1" 10 (w_messages w1) = 1%nat ∧
  stored_count "g1" 10 (w_messages w2) = 1%nat ∧
  (∀ req w0, unique_pairs (w_messages w0) →
             unique_pairs (w_messages (WebhookController.handleWebhook req w0).2)) ∧
  (∀ job w0, unique_pairs (w_messages w0) →
             (∀ id, head (w_telegram w0) = Some (Some id) →
                    stored_count (groupId (job_data job)) id (w_messages w0) = 0%nat) →
             unique_pairs (w_messages (Relay.processMessage job w0).2)).
Proof.
  apply (inbound_message_stored_once (human_hello "tokA") (human_hello "tokB")
           three_bots hello_message "hello" botA group1).
  - reflexivity.
  - split; [reflexivity|]. split; [reflexivity|]. left. reflexivity.
  - reflexivity.
  - reflexivity.
  - reflexivity.
  - reflexivity.
Defined.

(** One invocation of the webhook handler, cut at its
    [await prisma.message.create] and resumed at once, is
    [handleWebhook]. *)
Lemma handleWebhook_resumed req w :
  (let* s := WebhookController.handleWebhook_until_create req in
   WebhookController.handleWebhook_from_create s) w
  = WebhookController.handleWebhook req w.
Proof.
  unfold WebhookController.handleWebhook_until_create, WebhookController.handleWebhook,
    WebhookController.handleWebhook_from_create, WebhookController.storeMessage.
  unfold bind, try_catch, ret, modify, logger. simpl.
  repeat (case_match; simplify_eq/=; try done).
  all: by repeat match goal with u : () |- _ => destruct u end.
Qed.

Lemma stored_twice_not_unique g mid msgs :
  stored_count g mid msgs = 2%nat → ¬ unique_pairs msgs.
Proof. intros E H. specialize (H g mid). rewrite E in H. lia. Qed.

(** C3. The existence check does not keep "at most one Message per (group,
    platform message id)".  The check and the insert of the webhook handler
    are two requests to the store with an [await] between them, and the
    Message table has no unique index on the pair.  The human message
    "hello", numbered 10, of the group of three bots is delivered to the
    webhooks of bot A and of bot B.  Handled one after the other the two
    deliveries store one row.  When they overlap, each handler having made
    its check before the insert of the other is executed, both find no row
    and both insert: two rows are stored for the pair (g1, 10).  The other
    writer of the table, the delivery of a queued job, inserts with no
    check at all: when the platform numbers the message sent for the job
    of bot A with an id that is stored for the group, here 10 again, a
    second row is stored for (g1, 10) as well. *)
Theorem overlapping_deliveries_store_message_twice :
  let to_A := human_hello "tokA" in
  let to_B := human_hello "tokB" in
  let in_turn :=
    (WebhookController.handleWebhook to_A ;;; WebhookController.handleWebhook to_B)
      three_bots in
  let overlapping := WebhookController.handleWebhook_overlapping to_A to_B three_bots in
  let delivered :=
    (WebhookController.handleWebhook to_A ;;; deliver_after_delay)
      (set_telegram [Some 10] three_bots) in
  (∀ req w,
     (let* s := WebhookController.handleWebhook_until_create req in
      WebhookController.handleWebhook_from_create s) w
     = WebhookController.handleWebhook req w) ∧
  (in_turn.1 = Ok tt ∧ stored_count "g1" 10 (w_messages in_turn.2) = 1%nat) ∧
  (overlapping.1 = Ok tt ∧
   stored_count "g1" 10 (w_messages overlapping.2) = 2%nat ∧
   ¬ unique_pairs (w_messages overlapping.2)) ∧
  (delivered.1 = Ok tt ∧
   stored_count "g1" 10 (w_messages delivered.2) = 2%nat ∧
   ¬ unique_pairs (w_messages delivered.2)).
Proof.
  intros to_A to_B in_turn overlapping delivered.
  split; [apply handleWebhook_resumed|].
  assert (stored_count "g1" 10 (w_messages overlapping.2) = 2%nat) as E1
    by (vm_compute; reflexivity).
  assert (stored_count "g1" 10 (w_messages delivered.2) = 2%nat) as E2
    by (vm_compute; reflexivity).
  split; [split; vm_compute; reflexivity|].
  split.
  - split; [vm_compute; reflexivity|]. split; [exact E1|].
    by eapply stored_twice_not_unique.
  - split; [vm_compute; reflexivity|]. split; [exact E2|].
    by eapply stored_twice_not_unique.
Qed.


(** * The rest of the code: reasoning rules *)

Lemma wp_settled {A} (p : Result A) Q w : Q p w → wp (settled p) Q w.
Proof. done. Qed.

#[export] Hint Unfold
  Prisma.bot_findUnique_id Prisma.group_upsert Prisma.group_update_decrement
  Prisma.bot_create Prisma.bot_update_isActive Prisma.bot_delete
  TelegramService.validateToken TelegramService.setWebhook TelegramService.removeWebhook
  TelegramService.getBotInstance TelegramService.removeBotInstance
  TelegramService.getWebhookCallback
  AiProviders.generateResponse ValidateWebhook.validateWebhook
  BotController.registerBot BotController.deleteBot BotController.toggleBot : relay.

Ltac run_primitive ::=
  let w := fresh "w" in
  intros w; hnf;
  cbv [external random_floor Date_now sleep modify get logger settled
       TelegramService.telegram_sendMessage AiService.generateResponse
       faults_of set_faults_of];
  cbn;
  repeat case_match; cbn;
  first
    [ reflexivity
    | eexists []; split; [symmetry; apply app_nil_r | constructor]
    | eexists [_]; split; [reflexivity | repeat constructor; done] ].

Ltac wsimpl ::=
  cbn [w_bots w_groups w_messages w_nextMsgId w_redis w_queue w_nextJobId
       w_botInstances w_outbox w_clock w_log w_statuses w_calls
       w_prisma_faults w_redis_faults w_bull_faults w_telegram w_ai w_random
       set_bots set_groups
       set_messages set_nextMsgId set_redis set_queue set_nextJobId
       set_botInstances set_outbox set_clock set_log set_statuses set_calls
       set_prisma_faults set_redis_faults set_bull_faults set_telegram set_ai
       set_random faults_of set_faults_of fst snd head tail] in *.

Ltac wp_step ::=
  lazymatch goal with
  | |- wp (bind _ _) _ _ => apply wp_bind
  | |- wp (try_catch _ _) _ _ => apply wp_try_catch
  | |- wp (ret _) _ _ => apply wp_ret
  | |- wp (throw _) _ _ => apply wp_throw
  | |- wp get _ _ => apply wp_get
  | |- wp (modify _) _ _ => apply wp_modify
  | |- wp (logger _ _) _ _ => apply wp_logger
  | |- wp Date_now _ _ => apply wp_Date_now
  | |- wp (sleep _) _ _ => apply wp_sleep
  | |- wp (settled _) _ _ => apply wp_settled
  end; cbv beta; wsimpl.

Ltac frame_equations F ::=
  unfold keeps, outside_redis, outside_selector, outside_send, outside_instances,
    outside_log, outside_ack in F; wsimpl;
  repeat lazymatch type of F with
         | (_, _) = (_, _) => let H := fresh "F" in injection F as F H
         end.

(** Run a computation to its end, splitting at every external call and
    every branch. *)
Ltac wp_run :=
  repeat first
    [ wp_step
    | wp_call
    | lazymatch goal with
      | |- wp (match ?x with _ => _ end) _ _ => destruct x eqn:?
      | |- match ?x with _ => _ end => destruct x eqn:?
      end
    | lazymatch goal with
      | |- wp ?m _ _ => let h := head_of m in progress unfold h
      end ].

(** Step over a component that may reject, keeping three frames. *)
Ltac wp_frame3 Hfr1 F1 Hfr2 F2 Hfr3 F3 :=
  lazymatch goal with
  | |- wp ?m _ ?w =>
      let a := fresh "a" in
      let e := fresh "e" in
      let w1 := fresh "w" in
      let E := fresh "E" in
      pose proof (Hfr1 w) as F1; pose proof (Hfr2 w) as F2; pose proof (Hfr3 w) as F3;
      destruct (m w) as [[a|e] w1] eqn:E;
      cbn [fst snd] in F1, F2, F3;
      [ apply (wp_intro m _ w (Ok a) w1 E) | apply (wp_intro m _ w (Throw e) w1 E) ];
      cbv beta iota; clear E
  end.

(** Read the outcome of a run off what has been shown of it. *)
Lemma wp_outcome {A} (m : M A) (Q : Result A → World → Prop) w :
  wp m Q w → ∃ r w', m w = (r, w') ∧ Q r w'.
Proof. apply wp_elim. Qed.

(** How many faults a handler can meet. *)
Lemma no_fault_in_three (fs : list bool) :
  head fs ≠ Some true → head (tail fs) ≠ Some true → head (tail (tail fs)) ≠ Some true →
  true ∉ take 3 fs.
Proof.
  destruct fs as [|[] [|[] [|[] fs]]]; simpl; intros H1 H2 H3 Hin; try done;
    repeat (apply elem_of_cons in Hin as [Hin|Hin]; [done|]); by apply elem_of_nil in Hin.
Qed.

Lemma faults_clear_three (fs : list bool) :
  true ∉ take 3 fs →
  head fs ≠ Some true ∧ head (tail fs) ≠ Some true ∧ head (tail (tail fs)) ≠ Some true.
Proof.
  destruct fs as [|[] [|[] [|[] fs]]]; simpl; intros H; repeat split; try done;
    intros _; apply H; repeat first [apply list_elem_of_here | apply list_elem_of_further].
Qed.

Lemma faults_clear_two (fs : list bool) :
  true ∉ take 2 fs → head fs ≠ Some true ∧ head (tail fs) ≠ Some true.
Proof.
  destruct fs as [|[] [|[] ?]]; simpl; intros H; split; try done;
    intros _; apply H; repeat first [apply list_elem_of_here | apply list_elem_of_further].
Qed.

Lemma four_faults (fs : list bool) :
  true ∉ take 4 fs → (true ∉ take 2 fs) ∧ (true ∉ take 2 (drop 2 fs)).
Proof.
  destruct fs as [|? [|? [|? [|? ?]]]]; simpl; intros H; split; intros Hin; apply H;
    repeat (apply elem_of_cons in Hin as [->|Hin];
            [repeat first [apply list_elem_of_here | apply list_elem_of_further]|]);
    by apply elem_of_nil in Hin.
Qed.

Lemma six_faults (fs : list bool) :
  true ∉ take 6 fs → (true ∉ take 3 fs) ∧ (true ∉ take 3 (drop 3 fs)).
Proof.
  destruct fs as [|? [|? [|? [|? [|? [|? ?]]]]]]; simpl; intros H; split; intros Hin;
    apply H;
    repeat (apply elem_of_cons in Hin as [->|Hin];
            [repeat first [apply list_elem_of_here | apply list_elem_of_further]|]);
    by apply elem_of_nil in Hin.
Qed.

(** * Rate limiter: failures, waiting and recovery *)

Lemma checkRateLimit_keeps_clock b : respects (keeps w_clock) (RateLimiter.checkRateLimit b).
Proof. solve_respects. Qed.

Lemma checkRateLimit_fault b w :
  true ∈ take 3 (w_redis_faults w) →
  wp (RateLimiter.checkRateLimit b)
     (λ r w', r = Ok (RateLimiter.mkRateLimitResult true 0 (Some 0)) ∧
              last (w_log w') = Some rate_limit_failure_logged ∧
              w_clock w' = w_clock w) w.
Proof.
  intros Hf.
  unfold RateLimiter.checkRateLimit.
  unfold Redis.zremrangebyscore, Redis.zcard, Redis.zrange_first_withscores,
    Redis.zadd, Redis.expire.
  wp_steps. wp_call; wp_steps; [|by rewrite last_snoc].
  wp_call; wp_steps; [|by rewrite last_snoc].
  destruct (_ <=? _); wp_steps; (wp_call; wp_steps; [|by rewrite last_snoc]);
    by destruct (no_fault_in_three (w_redis_faults w)).
Qed.

(** X1. The rate limiter fails open.  When one of the first three Redis
    commands of a check rejects (every check issues at least three),
    [checkRateLimit] does not reject: it logs the failure and reports the
    request as allowed, with nothing remaining and nothing to wait for; and
    [waitForRateLimit] then returns at once, the clock where it was. *)
Theorem checkRateLimit_fails_open (b : string) (w : World) :
  true ∈ take 3 (w_redis_faults w) →
  ∃ w', RateLimiter.checkRateLimit b w
          = (Ok (RateLimiter.mkRateLimitResult true 0 (Some 0)), w') ∧
        last (w_log w') = Some rate_limit_failure_logged ∧
        RateLimiter.waitForRateLimit b w = (Ok tt, w') ∧
        w_clock w' = w_clock w.
Proof.
  intros Hf.
  pose proof (checkRateLimit_fault b w Hf) as H.
  apply wp_elim in H as (r & w' & E & -> & Hl & Hc).
  exists w'. split; [done|]. split; [done|]. split; [|done].
  unfold RateLimiter.waitForRateLimit, bind. by rewrite E.
Qed.

Lemma checkRateLimit_fails_open_witness :
  ∃ w', RateLimiter.checkRateLimit "A" (set_redis_faults [false; true] three_bots)
          = (Ok (RateLimiter.mkRateLimitResult true 0 (Some 0)), w') ∧
        last (w_log w') = Some rate_limit_failure_logged ∧
        RateLimiter.waitForRateLimit "A" (set_redis_faults [false; true] three_bots)
          = (Ok tt, w') ∧
        w_clock w' = w_clock (set_redis_faults [false; true] three_bots).
Proof.
  apply (checkRateLimit_fails_open "A" (set_redis_faults [false; true] three_bots)).
  simpl. apply list_elem_of_further, list_elem_of_here.
Defined.

(** A check that finds one recorded request, younger than the window, is
    denied and leaves the record as it is. *)
Lemma checkRateLimit_denied_run b w t0 m d :
  w_redis_faults w = [] →
  w_redis w !! ratelimit_key b = Some (mkRedisKey [(t0, m)] d) →
  (∀ dl, d = Some dl → w_clock w < dl) →
  w_clock w - RateLimiter.RATE_LIMIT_WINDOW < t0 →
  wp (RateLimiter.checkRateLimit b)
     (λ r w', r = Ok (RateLimiter.mkRateLimitResult false 0
                        (Some (Z.max 0 (RateLimiter.RATE_LIMIT_WINDOW - (w_clock w - t0))))) ∧
              w_redis w' !! ratelimit_key b = Some (mkRedisKey [(t0, m)] d) ∧
              w_clock w' = w_clock w ∧ w_redis_faults w' = [] ∧ w_log w' = w_log w) w.
Proof.
  intros Hf Hkey Hlive Ht. unfold RateLimiter.RATE_LIMIT_WINDOW in *.
  unfold RateLimiter.checkRateLimit. fold (ratelimit_key b).
  unfold Redis.zremrangebyscore, Redis.zcard, Redis.zrange_first_withscores.
  assert (Redis.lookup_key (ratelimit_key b) (w_clock w) (w_redis w)
          = Some (mkRedisKey [(t0, m)] d)) as Hlk.
  { unfold Redis.lookup_key. rewrite Hkey. simpl.
    destruct d as [dl|]; [|done]. specialize (Hlive dl eq_refl).
    destruct (dl <=? w_clock w) eqn:E; [|done]. apply Z.leb_le in E. lia. }
  unfold Redis.read_zset.
  wp_steps. wp_call; rewrite Hf in *; wsimpl; [|no_fault]. wp_steps.
  rewrite Hlk. simpl.
  unfold RateLimiter.RATE_LIMIT_WINDOW.
  replace (t0 <=? w_clock w - 1000) with false by (symmetry; apply Z.leb_gt; lia).
  rewrite andb_false_r. simpl.
  wp_call; [|no_fault]. wp_steps.
  rewrite lookup_key_write. simpl.
  wp_steps. wp_call; [|no_fault]. wp_steps.
  rewrite lookup_key_write. simpl. rewrite parseInt_string_of_Z. simpl.
  split; [done|]. split; [|done].
  unfold Redis.write_zset. rewrite lookup_insert_eq. by rewrite Hlk.
Qed.

(** X2. Waiting is long enough, and the waiting request is not counted.
    When the only recorded request of a bot is younger than the window (and
    not in the future), [waitForRateLimit] suspends until exactly one window
    after that request and records nothing for the request that has waited;
    a check made when it returns is allowed. *)
Theorem waitForRateLimit_waits_out_the_window
    (b : string) (w : World) (t0 : Z) (m : string) (d : option Z) :
  w_redis_faults w = [] →
  w_redis w !! ratelimit_key b = Some (mkRedisKey [(t0, m)] d) →
  (∀ dl, d = Some dl → w_clock w < dl) →
  0 ≤ t0 →
  w_clock w - RateLimiter.RATE_LIMIT_WINDOW < t0 ≤ w_clock w →
  ∃ w1 w2,
    RateLimiter.waitForRateLimit b w = (Ok tt, w1) ∧
    w_clock w1 = t0 + RateLimiter.RATE_LIMIT_WINDOW ∧
    w_redis w1 !! ratelimit_key b = Some (mkRedisKey [(t0, m)] d) ∧
    RateLimiter.checkRateLimit b w1
      = (Ok (RateLimiter.mkRateLimitResult true 0 (Some 0)), w2).
Proof.
  intros Hf Hkey Hlive H0 Ht.
  cut (wp (RateLimiter.waitForRateLimit b)
          (λ r w1, r = Ok tt ∧
                   w_clock w1 = t0 + RateLimiter.RATE_LIMIT_WINDOW ∧
                   w_redis w1 !! ratelimit_key b = Some (mkRedisKey [(t0, m)] d) ∧
                   w_redis_faults w1 = []) w).
  { intros H. apply wp_elim in H as (r & w1 & E & -> & Hc & Hk & Hf1).
    assert (window_free b w1) as Hfree.
    { intros e He. unfold Redis.read_zset, Redis.lookup_key in He. rewrite Hk in He.
      simpl in He. rewrite Hc.
      assert (e ∈ [(t0, m)]) as He'.
      { destruct d as [dl|]; [destruct (dl <=? _)|]; simpl in He; try done.
        by apply elem_of_nil in He. }
      apply list_elem_of_singleton in He' as ->. simpl.
      unfold RateLimiter.RATE_LIMIT_WINDOW. lia. }
    pose proof (checkRateLimit_allows b w1 Hf1 Hfree) as H2.
    apply wp_elim in H2 as (r2 & w2 & E2 & -> & _).
    by exists w1, w2. }
  unfold RateLimiter.waitForRateLimit. apply wp_bind.
  eapply wp_mono; [|apply (checkRateLimit_denied_run b w t0 m d); [done..|lia]].
  intros r w1 (-> & Hk & Hc & Hf1 & _). simpl.
  unfold RateLimiter.RATE_LIMIT_WINDOW in *.
  replace (0 <? Z.max 0 (1000 - (w_clock w - t0))) with true
    by (symmetry; apply Z.ltb_lt; lia).
  wp_steps. repeat split; try done. lia.
Qed.

Lemma waitForRateLimit_waits_out_witness :
  ∃ w1 w2,
    RateLimiter.waitForRateLimit "A"
      (set_clock 1000400 (RateLimiter.checkRateLimit "A" three_bots).2) = (Ok tt, w1) ∧
    w_clock w1 = 1000000 + RateLimiter.RATE_LIMIT_WINDOW ∧
    w_redis w1 !! ratelimit_key "A"
      = Some (mkRedisKey [(1000000, "1000000")] (Some 1002000)) ∧
    RateLimiter.checkRateLimit "A" w1
      = (Ok (RateLimiter.mkRateLimitResult true 0 (Some 0)), w2).
Proof.
  apply (waitForRateLimit_waits_out_the_window "A"
           (set_clock 1000400 (RateLimiter.checkRateLimit "A" three_bots).2)
           1000000 "1000000" (Some 1002000)).
  - reflexivity.
  - vm_compute. reflexivity.
  - intros dl [= <-]. vm_compute. reflexivity.
  - lia.
  - vm_compute. split; [reflexivity|by intros [=]].
Defined.

(** X3. The limiter recovers.  Of two requests of one bot at least a
    window apart, the first finding the window free, both are allowed; the
    record of the second replaces that of the first, and expires two seconds
    after it. *)
Theorem rate_limit_allows_again_after_window (b : string) (w : World) (t1 : Z) :
  w_redis_faults w = [] → window_free b w → 0 ≤ w_clock w →
  w_clock w + RateLimiter.RATE_LIMIT_WINDOW ≤ t1 →
  let first := RateLimiter.checkRateLimit b w in
  let second := RateLimiter.checkRateLimit b (set_clock t1 first.2) in
  first.1 = Ok (RateLimiter.mkRateLimitResult true 0 (Some 0)) ∧
  second.1 = Ok (RateLimiter.mkRateLimitResult true 0 (Some 0)) ∧
  w_redis second.2 !! ratelimit_key b
    = Some (mkRedisKey [(t1, string_of_Z t1)] (Some (t1 + 2000))).
Proof.
  intros Hf Hfree H0 Ht first second.
  pose proof (checkRateLimit_allows b w Hf Hfree) as H1.
  unfold wp in H1. fold first in H1. destruct H1 as (Hr1 & Hf1 & Hc1 & Hk1).
  split; [done|].
  assert (window_free b (set_clock t1 first.2)) as Hfree2.
  { intros e He. unfold Redis.read_zset, Redis.lookup_key in He. wsimpl.
    rewrite Hk1 in He. simpl in He.
    destruct (_ <=? _); simpl in He; [by apply elem_of_nil in He|].
    apply list_elem_of_singleton in He as ->. simpl.
    unfold RateLimiter.RATE_LIMIT_WINDOW in *. lia. }
  pose proof (checkRateLimit_allows b (set_clock t1 first.2) Hf1 Hfree2) as H2.
  unfold wp in H2. fold second in H2. destruct H2 as (Hr2 & _ & _ & Hk2).
  done.
Qed.

Lemma rate_limit_allows_again_witness :
  (RateLimiter.checkRateLimit "A" three_bots).1
    = Ok (RateLimiter.mkRateLimitResult true 0 (Some 0)) ∧
  (RateLimiter.checkRateLimit "A"
     (set_clock 1001000 (RateLimiter.checkRateLimit "A" three_bots).2)).1
    = Ok (RateLimiter.mkRateLimitResult true 0 (Some 0)) ∧
  w_redis (RateLimiter.checkRateLimit "A"
             (set_clock 1001000 (RateLimiter.checkRateLimit "A" three_bots).2)).2
    !! ratelimit_key "A"
    = Some (mkRedisKey [(1001000, string_of_Z 1001000)] (Some (1001000 + 2000))).
Proof.
  apply (rate_limit_allows_again_after_window "A" three_bots 1001000).
  - reflexivity.
  - intros e He. vm_compute in He. by apply elem_of_nil in He.
  - vm_compute. by intros [=].
  - vm_compute. by intros [=].
Defined.

(** X4. [waitForRateLimit] never rejects and never holds a job for more
    than one window: as long as no recorded request of the bot is later than
    now, it resolves having advanced the clock by between 0 and 1000 ms, and
    it touches nothing but Redis, the clock, the log and the call trace. *)
Theorem waitForRateLimit_waits_at_most_a_window (b : string) (w : World) :
  no_future_entry b w →
  ∃ w', RateLimiter.waitForRateLimit b w = (Ok tt, w') ∧
        w_clock w ≤ w_clock w' ≤ w_clock w + RateLimiter.RATE_LIMIT_WINDOW ∧
        outside_redis w' = outside_redis w.
Proof.
  intros Hnf.
  pose proof (waitForRateLimit_frame b w) as Hframe.
  cut (wp (RateLimiter.waitForRateLimit b)
          (λ r w', r = Ok tt ∧
                   w_clock w ≤ w_clock w' ≤ w_clock w + RateLimiter.RATE_LIMIT_WINDOW) w).
  { intros H. apply wp_elim in H as (r & w' & E & -> & Hc).
    rewrite E in Hframe. by exists w'. }
  clear Hframe.
  unfold RateLimiter.waitForRateLimit. apply wp_bind.
  pose proof (checkRateLimit_denied_wait_bounded b w) as Hb.
  wp_component (checkRateLimit_never_throws b) (checkRateLimit_keeps_clock b) F.
  unfold keeps in F. specialize (Hb a Hnf eq_refl).
  unfold RateLimiter.RATE_LIMIT_WINDOW in *.
  destruct (RateLimiter.resetIn a) as [ms|] eqn:Ems; [|wp_steps; split; [done|lia]].
  destruct (RateLimiter.allowed a); simpl; [wp_steps; split; [done|lia]|].
  destruct (Hb eq_refl) as (ms' & [= <-] & Hms).
  destruct (0 <? ms); wp_steps; (split; [done|lia]).
Qed.

Lemma waitForRateLimit_waits_at_most_witness :
  ∃ w', RateLimiter.waitForRateLimit "A"
          (set_clock 1000400 (RateLimiter.checkRateLimit "A" three_bots).2) = (Ok tt, w') ∧
        w_clock (set_clock 1000400 (RateLimiter.checkRateLimit "A" three_bots).2)
          ≤ w_clock w'
          ≤ w_clock (set_clock 1000400 (RateLimiter.checkRateLimit "A" three_bots).2)
            + RateLimiter.RATE_LIMIT_WINDOW ∧
        outside_redis w'
          = outside_redis (set_clock 1000400 (RateLimiter.checkRateLimit "A" three_bots).2).
Proof.
  apply (waitForRateLimit_waits_at_most_a_window "A"
           (set_clock 1000400 (RateLimiter.checkRateLimit "A" three_bots).2)).
  intros e He. vm_compute in He. apply list_elem_of_singleton in He as ->.
  vm_compute. by intros [=].
Defined.

Lemma waitForRateLimit_clock b w : w_clock w ≤ w_clock (RateLimiter.waitForRateLimit b w).2.
Proof.
  change (wp (RateLimiter.waitForRateLimit b) (λ _ w', w_clock w ≤ w_clock w') w).
  unfold RateLimiter.waitForRateLimit. apply wp_bind.
  wp_component (checkRateLimit_never_throws b) (checkRateLimit_keeps_clock b) F.
  unfold keeps in F.
  destruct (RateLimiter.resetIn a) as [ms|]; [|wp_steps; lia].
  destruct (negb _); simpl; [|wp_steps; lia].
  destruct (0 <? ms) eqn:E; wp_steps; [|lia]. apply Z.ltb_lt in E. lia.
Qed.

(** * Turn selection: what the selector returns *)

Lemma selectNextBot0_returns_eligible t x w nb :
  (MessageQueue.selectNextBot t x w).1 = Ok (Some nb) →
  ∃ b, b ∈ w_bots w ∧ is_eligible t x b = true ∧ nb = nextBot_of b.
Proof.
  intros Hsel.
  destruct (decide (w_prisma_faults w !! 0%nat = Some true)) as [H0|H0];
    [rewrite selectNextBot0_fault in Hsel by (by left); done|].
  destruct (decide (w_prisma_faults w !! 1%nat = Some true)) as [H1|H1];
    [rewrite selectNextBot0_fault in Hsel by (by right); done|].
  rewrite selectNextBot0_run in Hsel by done.
  destruct (length _ =? 0)%nat; [done|].
  destruct (eligible t x w !! _) as [b|] eqn:Eb; [|done].
  simpl in Hsel. injection Hsel as <-.
  apply list_elem_of_lookup_2, elem_of_eligible in Eb as [Hb1 Hb2]. by exists b.
Qed.

(** X5. Whatever the world, and whether or not a lookup fails, a bot that
    [selectNextBot] returns is a stored bot of the requested group that is
    active and is not the excluded bot, and what is returned is the id,
    token, username and personality of that bot.  Both versions of the
    selector behave so. *)
Theorem selectNextBot_returns_active_bot_of_group
    (g t x : string) (w : World) (nb : NextBot) :
  (Relay.selectNextBot g t x w).1 = Ok (Some nb) ∨
  (MessageQueue.selectNextBot t x w).1 = Ok (Some nb) →
  ∃ b, b ∈ w_bots w ∧ bot_groupId b = t ∧ bot_isActive b = true ∧ bot_id b ≠ x ∧
       nb = mkNextBot (bot_id b) (bot_token b) (bot_username b) (bot_personality b).
Proof.
  intros [Hsel|Hsel].
  - apply selectNextBot_never_returns_excluded in Hsel as (_ & b & Hb & He & ->).
    apply is_eligible_spec in He as (? & ? & ?). by exists b.
  - apply selectNextBot0_returns_eligible in Hsel as (b & Hb & He & ->).
    apply is_eligible_spec in He as (? & ? & ?). by exists b.
Qed.

Lemma selectNextBot_returns_active_bot_witness :
  ∃ b, b ∈ w_bots three_bots ∧ bot_groupId b = "-100" ∧ bot_isActive b = true ∧
       bot_id b ≠ "A" ∧
       nextBot_of botB
         = mkNextBot (bot_id b) (bot_token b) (bot_username b) (bot_personality b).
Proof.
  apply (selectNextBot_returns_active_bot_of_group "g1" "-100" "A" three_bots
           (nextBot_of botB)).
  left. reflexivity.
Defined.

Lemma eligible_empty t x w :
  (∀ b, b ∈ w_bots w → is_eligible t x b = false) → eligible t x w = [].
Proof.
  intros H. unfold eligible. by rewrite filter_nil_bool.
Qed.

(** X6. With no candidate (no active bot of the group other than the
    excluded one) [selectNextBot] resolves to "no next bot" after its first
    query: the last AI-generated message is not looked up.  The version with
    chaining logs a warning that names the group; the older one logs
    nothing. *)
Theorem selectNextBot_without_candidates (g t x : string) (w : World) :
  (∀ b, b ∈ w_bots w → is_eligible t x b = false) →
  head (w_prisma_faults w) ≠ Some true →
  ∃ w1 w2,
    Relay.selectNextBot g t x w = (Ok None, w1) ∧
    MessageQueue.selectNextBot t x w = (Ok None, w2) ∧
    w_log w1 = w_log w ++ [no_candidates_logged t] ∧
    w_log w2 = w_log w ∧
    w_calls w1 = w_calls w ++ ["prisma.bot.findMany"] ∧
    w_calls w2 = w_calls w ++ ["prisma.bot.findMany"].
Proof.
  intros Hnone Hpf.
  assert (wp (Relay.selectNextBot g t x)
             (λ r w1, r = Ok None ∧ w_log w1 = w_log w ++ [no_candidates_logged t] ∧
                      w_calls w1 = w_calls w ++ ["prisma.bot.findMany"]) w) as H1.
  { unfold Relay.selectNextBot, Prisma.bot_findMany. wp_steps.
    wp_call; [|done]. wp_steps.
    fold (is_eligible t x). fold (eligible t x w). rewrite (eligible_empty _ _ _ Hnone).
    simpl. by wp_steps. }
  assert (wp (MessageQueue.selectNextBot t x)
             (λ r w2, r = Ok None ∧ w_log w2 = w_log w ∧
                      w_calls w2 = w_calls w ++ ["prisma.bot.findMany"]) w)
    as H2.
  { unfold MessageQueue.selectNextBot, Prisma.bot_findMany. wp_steps.
    wp_call; [|done]. wp_steps.
    fold (is_eligible t x). fold (eligible t x w). rewrite (eligible_empty _ _ _ Hnone).
    simpl. by wp_steps. }
  apply wp_elim in H1 as (r1 & w1 & E1 & -> & Hl1 & Hc1).
  apply wp_elim in H2 as (r2 & w2 & E2 & -> & Hl2 & Hc2).
  by exists w1, w2.
Qed.

Lemma selectNextBot_without_candidates_witness :
  ∃ w1 w2,
    Relay.selectNextBot "g1" "-200" "" three_bots = (Ok None, w1) ∧
    MessageQueue.selectNextBot "-200" "" three_bots = (Ok None, w2) ∧
    w_log w1 = w_log three_bots ++ [no_candidates_logged "-200"] ∧
    w_log w2 = w_log three_bots ∧
    w_calls w1 = w_calls three_bots ++ ["prisma.bot.findMany"] ∧
    w_calls w2 = w_calls three_bots ++ ["prisma.bot.findMany"].
Proof.
  apply (selectNextBot_without_candidates "g1" "-200" "" three_bots).
  - intros b Hb. vm_compute in Hb.
    repeat (apply elem_of_cons in Hb as [->|Hb]; [reflexivity|]).
    by apply elem_of_nil in Hb.
  - simpl. discriminate.
Defined.

Lemma findIndex_lookup {A} (f : A → string) (l : list A) (i : nat) (b : A) :
  NoDup (f <$> l) → l !! i = Some b →
  findIndex (λ a, bool_decide (f a = f b)) l = Z.of_nat i.
Proof.
  revert i. induction l as [|a l IH]; intros i Hnd Hi; [done|].
  apply NoDup_cons in Hnd as [Hnotin Hnd]. destruct i as [|i]; simpl in *.
  - injection Hi as ->. by rewrite bool_decide_eq_true_2.
  - rewrite bool_decide_eq_false_2.
    + rewrite (IH i Hnd Hi).
      replace (Z.of_nat i =? -1) with false by (symmetry; apply Z.eqb_neq; lia). lia.
    + intros Heq. apply Hnotin. rewrite Heq.
      apply list_elem_of_fmap. exists b. split; [done|]. by eapply list_elem_of_lookup_2.
Qed.

Lemma NoDup_fmap_filter {A B} (f : A → B) (p : A → bool) (l : list A) :
  NoDup (f <$> l) → NoDup (f <$> List.filter p l).
Proof.
  induction l as [|a l IH]; intros Hnd; simpl; [done|].
  apply NoDup_cons in Hnd as [Hnotin Hnd].
  destruct (p a); simpl; [|by apply IH].
  apply NoDup_cons. split; [|by apply IH].
  intros Hin. apply Hnotin. apply list_elem_of_fmap in Hin as (y & -> & Hy).
  apply elem_of_filter_bool in Hy as [Hy _].
  apply list_elem_of_fmap. by exists y.
Qed.

Lemma eligible_unique_ids t x w :
  NoDup (bot_id <$> w_bots w) → NoDup (bot_id <$> eligible t x w).
Proof.
  intros Hnd. unfold eligible. rewrite merge_sort_Permutation.
  by apply NoDup_fmap_filter.
Qed.

Lemma nextBotIndex_after bots m i b :
  NoDup (bot_id <$> bots) → bots !! i = Some b → bot_id b = msg_botId m →
  Z.to_nat (nextBotIndex bots (Some m)) = ((i + 1) mod length bots)%nat.
Proof.
  intros Hnd Hi Hb. unfold nextBotIndex. rewrite <- Hb.
  rewrite (findIndex_lookup bot_id bots i b Hnd Hi).
  replace (Z.of_nat i =? -1) with false by (symmetry; apply Z.eqb_neq; lia). simpl.
  assert (length bots ≠ 0)%nat by (apply lookup_lt_Some in Hi; lia).
  replace (Z.of_nat i + 1) with (Z.of_nat (i + 1)) by lia.
  rewrite <- Nat2Z.inj_mod. by rewrite Nat2Z.id.
Qed.

(** X7. The rotation step.  When the author of the most recent
    AI-generated message of the group is among the candidates, at position
    [i] of the active bots of the group in order of registration (the
    excluded bot removed), the selector of the relay queue returns the
    candidate at position [(i + 1) mod n], wrapping from the last to the
    first; the keys of the bots being distinct and the lookups
    succeeding. *)
Theorem selectNextBot_round_robin_step
    (g t x : string) (w : World) (m : Message) (i : nat) (b : Bot) :
  w_prisma_faults w = [] →
  NoDup (bot_id <$> w_bots w) →
  lastAiMessage g w = Some m →
  eligible t x w !! i = Some b →
  bot_id b = msg_botId m →
  let turn := ((i + 1) mod length (eligible t x w))%nat in
  ∃ b', eligible t x w !! turn = Some b' ∧
        (Relay.selectNextBot g t x w).1 = Ok (Some (nextBot_of b')).
Proof.
  intros Hf Hnd Hm Hi Hb turn.
  assert (length (eligible t x w) ≠ 0)%nat as Hlen by (apply lookup_lt_Some in Hi; lia).
  destruct (lookup_lt_is_Some_2 (eligible t x w) turn) as [b' Hb'].
  { apply Nat.mod_upper_bound. done. }
  exists b'. split; [done|].
  pose proof (nextBotIndex_after (eligible t x w) m i b
                (eligible_unique_ids t x w Hnd) Hi Hb) as Hidx.
  rewrite selectNextBot_run by (by rewrite Hf).
  rewrite (proj2 (Nat.eqb_neq _ _) Hlen), Hm, Hidx. fold turn. by rewrite Hb'.
Qed.

Lemma selectNextBot_round_robin_witness :
  ∃ b', eligible "-100" "" (three_bots_after "C") !! 0%nat = Some b' ∧
        (Relay.selectNextBot "g1" "-100" "" (three_bots_after "C")).1
          = Ok (Some (nextBot_of b')).
Proof.
  apply (selectNextBot_round_robin_step "g1" "-100" "" (three_bots_after "C")
           (spoken "C") 2 botC).
  - reflexivity.
  - apply (bool_decide_unpack _). vm_compute. exact I.
  - reflexivity.
  - reflexivity.
  - reflexivity.
Defined.

Lemma selectNextBot_chain_step g t x w m :
  w_prisma_faults w !! 0%nat ≠ Some true → w_prisma_faults w !! 1%nat ≠ Some true →
  lastAiMessage g w = Some m → msg_botId m = x →
  (Relay.selectNextBot g t x w).1 = Ok (nextBot_of <$> head (eligible t x w)).
Proof.
  intros H0 H1 Hm Hx. rewrite selectNextBot_run by done.
  unfold nextBotIndex. rewrite Hm, Hx.
  rewrite findIndex_none.
  - simpl. by destruct (eligible t x w).
  - intros b Hb. apply elem_of_eligible in Hb as [_ Hb].
    apply is_eligible_spec in Hb as (_ & _ & Hb). by apply bool_decide_eq_false.
Qed.

(** X8. Excluding the last author resets the rotation.  When the excluded
    bot is the author of the most recent AI-generated message of the group,
    that author is not among the candidates, so the selector of the relay
    queue does not advance from it: it returns the earliest-registered
    candidate, whatever was said before (the lookups succeeding, a
    candidate existing). *)
Theorem selectNextBot_excluding_last_author_picks_earliest
    (g t x : string) (w : World) (m : Message) (b0 : Bot) :
  w_prisma_faults w = [] →
  lastAiMessage g w = Some m →
  msg_botId m = x →
  b0 ∈ w_bots w → is_eligible t x b0 = true →
  ∃ b, earliest_eligible t x w b ∧
       (Relay.selectNextBot g t x w).1 = Ok (Some (nextBot_of b)).
Proof.
  intros Hf Hm Hx Hb0 He0.
  destruct (eligible_nonempty t x w b0 Hb0 He0) as (b & bs & E).
  exists b. split; [by eapply eligible_head_earliest|].
  rewrite (selectNextBot_chain_step g t x w m) by (done || by rewrite Hf).
  by rewrite E.
Qed.

Lemma selectNextBot_excluding_last_author_witness :
  ∃ b, earliest_eligible "-100" "B" (three_bots_after "B") b ∧
       (Relay.selectNextBot "g1" "-100" "B" (three_bots_after "B")).1
         = Ok (Some (nextBot_of b)).
Proof.
  apply (selectNextBot_excluding_last_author_picks_earliest "g1" "-100" "B"
           (three_bots_after "B") (spoken "B") botC).
  - reflexivity.
  - reflexivity.
  - reflexivity.
  - apply list_elem_of_further, list_elem_of_further, list_elem_of_here.
  - reflexivity.
Defined.

(** * Delivery: the chained job, a failing persist, replies *)

Lemma lastAiMessage_snoc g w msgs m :
  w_messages w = msgs ++ [m] → msg_groupId m = g → msg_isAiGenerated m = true →
  (∀ m', m' ∈ msgs → msg_timestamp m' < msg_timestamp m) →
  lastAiMessage g w = Some m.
Proof.
  intros Hw Hg Hai Hlt. unfold lastAiMessage. rewrite Hw.
  set (p := λ m0, bool_decide (msg_groupId m0 = g) && msg_isAiGenerated m0).
  assert (p m = true) as Hp by (unfold p; by rewrite Hai, bool_decide_eq_true_2).
  pose proof (StronglySorted_merge_sort Prisma.timestamp_desc (List.filter p (msgs ++ [m])))
    as Hs.
  assert (m ∈ merge_sort Prisma.timestamp_desc (List.filter p (msgs ++ [m]))) as Hin.
  { rewrite merge_sort_Permutation. apply elem_of_filter_bool. split; [|done].
    apply elem_of_app. right. apply list_elem_of_here. }
  destruct (merge_sort _ _) as [|h tl] eqn:E; [by apply elem_of_nil in Hin|].
  simpl. f_equal.
  assert (h ∈ merge_sort Prisma.timestamp_desc (List.filter p (msgs ++ [m]))) as Hh
    by (rewrite E; left).
  rewrite merge_sort_Permutation in Hh. apply elem_of_filter_bool in Hh as [Hh _].
  apply elem_of_app in Hh as [Hh|Hh]; [|by apply list_elem_of_singleton in Hh].
  apply Hlt in Hh.
  apply StronglySorted_inv in Hs as [_ Hall]. rewrite Forall_forall in Hall.
  apply elem_of_cons in Hin as [->|Hin]; [done|].
  apply Hall in Hin. unfold Prisma.timestamp_desc in Hin. lia.
Qed.

Lemma eligible_bots t x w w' : w_bots w' = w_bots w → eligible t x w' = eligible t x w.
Proof. unfold eligible. by intros ->. Qed.

Lemma processMessage_chains job w text id b0 :
  delivers job text id w →
  w_prisma_faults w !! 2%nat ≠ Some true → w_prisma_faults w !! 3%nat ≠ Some true →
  head (w_bull_faults w) ≠ Some true →
  b0 ∈ w_bots w →
  is_eligible (groupTelegramId (job_data job)) (botId (job_data job)) b0 = true →
  (∀ m, m ∈ w_messages w → msg_timestamp m < w_clock w) →
  wp (Relay.processMessage job)
     (λ r w', r = Ok tt ∧ sent_and_persisted job text id w w' ∧
              ∃ b job', earliest_eligible (groupTelegramId (job_data job))
                          (botId (job_data job)) w b ∧
                        w_queue w' = w_queue w ++ [job'] ∧
                        job_data job' = chained_job_data job b) w.
Proof.
  intros (Hp0 & Hp1 & [ais Hai] & [Hid [rest Htg]] & Hfk & Hbot) Hp2 Hp3 Hbf Hb0 He0 Hts.
  rewrite <- head_lookup in Hp0. rewrite <- lookup_tail, <- head_lookup in Hp1.
  unfold Relay.processMessage, sent_and_persisted, chained_job_data.
  destruct (job_data job) as [tok bid gid tgid uname pers reply] eqn:Ejob.
  simpl in Hfk, Hbot, He0 |- *.
  wp_steps.
  with_world ltac:(fun w0 => pose proof (waitForRateLimit_clock bid w0) as Hclk).
  deliver_until_send.
  deliver_send_and_persist Htg Hid Hbot.
  destruct (eligible_nonempty tgid bid w b0 Hb0 He0) as (b & bs & E).
  with_world ltac:(fun w2 =>
    assert (lastAiMessage gid w2
            = Some (mkMessage (w_nextMsgId w) bid gid text (w_clock w0) true (Some id)))
      as Hlast
      by (eapply lastAiMessage_snoc;
          [ wsimpl; frame_rewrite; reflexivity | reflexivity | reflexivity
          | intros m' Hm'; simpl; apply Hts in Hm'; lia ]);
    assert (eligible tgid bid w2 = b :: bs) as Hel
      by (rewrite <- E; apply eligible_bots; wsimpl; by frame_rewrite);
    pose proof (selectNextBot_chain_step gid tgid bid w2 _
                  ltac:(wsimpl; frame_rewrite; rewrite !lookup_tail; exact Hp2)
                  ltac:(wsimpl; frame_rewrite; rewrite !lookup_tail; exact Hp3)
                  Hlast eq_refl) as Hsel;
    rewrite Hel in Hsel).
  wp_component (selectNextBot_never_throws gid tgid bid) (selectNextBot_frame gid tgid bid) Fsel.
  simpl in Hsel. injection Hsel as ->. frame_equations Fsel.
  unfold Relay.addToQueue, Bull.add. wp_steps.
  apply wp_random_floor; [lia|]. intros r Hr. wsimpl. wp_steps.
  wp_call; frame_rewrite; [|congruence].
  wp_steps. frame_rewrite.
  split; [done|]. split; [split; [done|eauto]|].
  exists b. eexists. split; [by eapply eligible_head_earliest|]. split; reflexivity.
Qed.

(** X9. A successful delivery and its chained job.  When every step of a
    delivery succeeds (the history is read, the provider answers, the
    platform accepts the message, the record is stored, the selector's
    lookups and the enqueue succeed), another active bot of the group
    exists and every stored message is older than now, the handler
    resolves, the message is in the outbox and in the Message table, and
    exactly one job is added: a job, carrying no reply id, for the
    earliest-registered active bot of the group other than the bot that has
    just spoken, whoever spoke before. *)
Theorem delivery_chains_to_earliest_other_bot
    (job : Job) (w : World) (text : string) (id : Z) (b0 : Bot) :
  delivers job text id w →
  w_prisma_faults w !! 2%nat ≠ Some true → w_prisma_faults w !! 3%nat ≠ Some true →
  head (w_bull_faults w) ≠ Some true →
  b0 ∈ w_bots w →
  is_eligible (groupTelegramId (job_data job)) (botId (job_data job)) b0 = true →
  (∀ m, m ∈ w_messages w → msg_timestamp m < w_clock w) →
  ∃ w' b job',
    Relay.processMessage job w = (Ok tt, w') ∧
    sent_and_persisted job text id w w' ∧
    earliest_eligible (groupTelegramId (job_data job)) (botId (job_data job)) w b ∧
    w_queue w' = w_queue w ++ [job'] ∧
    job_data job' = chained_job_data job b.
Proof.
  intros Hd Hp2 Hp3 Hbf Hb0 He0 Hts.
  pose proof (processMessage_chains job w text id b0 Hd Hp2 Hp3 Hbf Hb0 He0 Hts) as H.
  apply wp_elim in H as (r & w' & E & -> & Hsp & b & job' & H).
  by exists w', b, job'.
Qed.

Lemma delivery_chains_witness :
  ∃ w' b job',
    Relay.processMessage jobA three_bots = (Ok tt, w') ∧
    sent_and_persisted jobA "hi" 11 three_bots w' ∧
    earliest_eligible "-100" "A" three_bots b ∧
    w_queue w' = w_queue three_bots ++ [job'] ∧
    job_data job' = chained_job_data jobA b.
Proof.
  apply (delivery_chains_to_earliest_other_bot jobA three_bots "hi" 11 botB).
  - apply three_bots_deliver; try reflexivity; simpl; discriminate.
  - simpl. discriminate.
  - simpl. discriminate.
  - simpl. discriminate.
  - apply list_elem_of_further, list_elem_of_here.
  - reflexivity.
  - intros m Hm. by apply elem_of_nil in Hm.
Defined.

(** Run the send of a delivery, the platform accepting the message. *)
Ltac deliver_send :=
  lazymatch goal with
  | |- wp (TelegramService.sendMessage ?tok ?c ?txt ?r) _ _ =>
      with_world ltac:(fun w1 =>
        let Hr := fresh "Hr" in
        let Ho := fresh "Hout" in
        let Ht := fresh "Htel" in
        let F := fresh "F" in
        destruct (sendMessage_accepted tok c txt r w1 _ _
                    ltac:(wsimpl; frame_rewrite; reflexivity)) as (Hr & Ho & Ht);
        wp_component (sendMessage_never_throws tok c txt r) (sendMessage_frame tok c txt r) F;
        simpl in Hr; injection Hr as ->; frame_equations F; wsimpl)
  end;
  cbv beta iota.

Lemma processMessage_persist_fails job w text id :
  head (w_prisma_faults w) ≠ Some true →
  (∃ ais, w_ai w = Some text :: ais) →
  send_accepted id w →
  history_intact (groupId (job_data job)) w →
  w_prisma_faults w !! 1%nat = Some true ∨ ¬ bot_registered (botId (job_data job)) w →
  wp (Relay.processMessage job)
     (λ r w', (∃ e, r = Throw e) ∧
              w_outbox w' = w_outbox w ++ [sent_for job text id] ∧
              w_messages w' = w_messages w ∧ w_queue w' = w_queue w) w.
Proof.
  intros Hp0 [ais Hai] [Hid [rest Htg]] Hfk Hcase.
  rewrite <- lookup_tail, <- head_lookup in Hcase.
  unfold Relay.processMessage, bot_registered, sent_for in *.
  destruct (job_data job) as [tok bid gid tgid uname pers reply] eqn:Ejob.
  simpl in Hfk, Hcase |- *.
  deliver_until_send.
  deliver_send.
  rewrite (proj2 (Z.eqb_neq _ 0) Hid); cbn [negb].
  unfold Prisma.message_create. wp_steps.
  wp_call; frame_rewrite; wp_steps; frame_rewrite; [|eauto].
  destruct Hcase as [Hcase|Hcase]; [done|].
  destruct (existsb _ _); [done|]. wp_steps. frame_rewrite. eauto.
Qed.

(** X10. A send that cannot be recorded fails the job.  When the platform
    has accepted the message and storing its record then fails (the store
    rejects [message.create], or the bot of the job is no longer registered,
    so that the foreign key refuses the row), the delivery rejects: the
    message has gone out, no record of it is stored, nothing is chained, and
    the queue sees a failed job (which its retry policy runs again). *)
Theorem delivery_rejects_when_persist_fails
    (job : Job) (w : World) (text : string) (id : Z) :
  head (w_prisma_faults w) ≠ Some true →
  (∃ ais, w_ai w = Some text :: ais) →
  send_accepted id w →
  history_intact (groupId (job_data job)) w →
  w_prisma_faults w !! 1%nat = Some true ∨ ¬ bot_registered (botId (job_data job)) w →
  ∃ e w',
    Relay.processMessage job w = (Throw e, w') ∧
    w_outbox w' = w_outbox w ++ [sent_for job text id] ∧
    w_messages w' = w_messages w ∧ w_queue w' = w_queue w.
Proof.
  intros Hp0 Hai Htg Hfk Hcase.
  pose proof (processMessage_persist_fails job w text id Hp0 Hai Htg Hfk Hcase) as H.
  apply wp_elim in H as (r & w' & E & [e ->] & H). by exists e, w'.
Qed.

Lemma delivery_rejects_when_persist_fails_witness :
  ∃ e w',
    Relay.processMessage jobA (set_bots (λ _, [botB; botC]) three_bots) = (Throw e, w') ∧
    w_outbox w' = w_outbox (set_bots (λ _, [botB; botC]) three_bots)
                    ++ [sent_for jobA "hi" 11] ∧
    w_messages w' = w_messages (set_bots (λ _, [botB; botC]) three_bots) ∧
    w_queue w' = w_queue (set_bots (λ _, [botB; botC]) three_bots).
Proof.
  apply (delivery_rejects_when_persist_fails jobA
           (set_bots (λ _, [botB; botC]) three_bots) "hi" 11).
  - simpl. discriminate.
  - eexists. reflexivity.
  - split; [discriminate|]. eexists. reflexivity.
  - intros m Hm. by apply elem_of_nil in Hm.
  - right. unfold bot_registered. simpl. discriminate.
Defined.

#[export] Instance outbox_grow_preorder P : PreOrder (outbox_grow P).
Proof.
  split.
  - intros w. exists []. by rewrite app_nil_r.
  - intros w1 w2 w3 (s1 & H1 & HP1) (s2 & H2 & HP2).
    exists (s1 ++ s2). rewrite H2, H1, app_assoc. split; [done|].
    by apply Forall_app.
Qed.

Lemma addToQueue_no_reply data :
  replyToMsgId data = None → respects (queue_grow no_reply) (Relay.addToQueue data).
Proof.
  intros Hd w.
  change (wp (Relay.addToQueue data) (λ _ w', queue_grow no_reply w w') w).
  unfold Relay.addToQueue, Bull.add. wp_steps.
  apply wp_random_floor; [lia|]. intros r Hr. wsimpl. wp_steps.
  wp_call; wp_steps.
  - eexists [_]. split; [done|]. by repeat constructor.
  - exists []. by rewrite app_nil_r.
Qed.

#[export] Hint Resolve addToQueue_no_reply : relay_frames.

Lemma handleWebhook_no_reply req :
  respects (queue_grow no_reply) (WebhookController.handleWebhook req).
Proof. solve_respects. Qed.

Lemma processMessage_no_reply job :
  respects (queue_grow no_reply) (Relay.processMessage job).
Proof. solve_respects. Qed.

Lemma processMessage_sends_without_reply job :
  no_reply job → respects (outbox_grow sent_without_reply) (Relay.processMessage job).
Proof.
  unfold no_reply, Relay.processMessage. destruct (job_data job). simpl. intros ->.
  solve_respects.
Qed.

(** X11. The relay never replies.  No job that the webhook handler or a
    delivery adds to the queue carries a reply id; and a delivery of a job
    without reply id sends its message as no reply.  So every message sent
    for a job that the program has enqueued is sent without
    [reply_to_message_id]. *)
Theorem relay_never_replies :
  (∀ req w, ∃ js,
     w_queue (WebhookController.handleWebhook req w).2 = w_queue w ++ js ∧
     Forall no_reply js) ∧
  (∀ job w, ∃ js,
     w_queue (Relay.processMessage job w).2 = w_queue w ++ js ∧
     Forall no_reply js) ∧
  (∀ job w, no_reply job →
     ∃ ss, w_outbox (Relay.processMessage job w).2 = w_outbox w ++ ss ∧
           Forall sent_without_reply ss).
Proof.
  split; [|split].
  - intros req w. apply (handleWebhook_no_reply req w).
  - intros job w. apply (processMessage_no_reply job w).
  - intros job w Hj. apply (processMessage_sends_without_reply job Hj w).
Qed.

Lemma processMessage0_keeps_queue job :
  respects (keeps w_queue) (MessageQueue.processMessage job).
Proof. solve_respects. Qed.

Lemma processMessage0_no_chaining job :
  respects (calls_grow no_chaining) (MessageQueue.processMessage job).
Proof. solve_respects. Qed.

(** X12. The queue of [src/services/messageQueue.ts] does not chain.  Its
    delivery handler never adds a job and never consults the selector:
    whatever the job and the world, the queue is left as it was, and among
    the calls issued there is neither the selector's [bot.findMany] nor
    Bull's [add]. *)
Theorem older_queue_does_not_chain (job : Job) (w : World) :
  w_queue (MessageQueue.processMessage job w).2 = w_queue w ∧
  ∃ cs, w_calls (MessageQueue.processMessage job w).2 = w_calls w ++ cs ∧
        ("prisma.bot.findMany" ∉ cs) ∧ ("bull.add" ∉ cs).
Proof.
  split; [apply (processMessage0_keeps_queue job w)|].
  destruct (processMessage0_no_chaining job w) as (cs & Hcs & HP).
  exists cs. split; [done|]. rewrite Forall_forall in HP.
  split; intros Hin; apply HP in Hin; by destruct Hin.
Qed.

(** * Webhook handling: acknowledgement, ignored updates, what is stored *)

Lemma handleWebhook_never_throws req : never_throws (WebhookController.handleWebhook req).
Proof. solve_never_throws. Qed.

(** X13. The webhook handler always acknowledges.  Whatever the update and
    whatever fails while it is handled, [handleWebhook] resolves, and it has
    sent one status, 200, and no other. *)
Theorem handleWebhook_always_acknowledges (req : WebhookController.Request) (w : World) :
  ∃ w', WebhookController.handleWebhook req w = (Ok tt, w') ∧
        w_statuses w' = w_statuses w ++ [200].
Proof.
  destruct (handleWebhook_never_throws req w) as [[] Hr].
  assert (wp (WebhookController.handleWebhook req)
             (λ _ w', w_statuses w' = w_statuses w ++ [200]) w) as Hs.
  { unfold WebhookController.handleWebhook. apply wp_bind, wp_modify. cbv beta.
    match goal with |- wp ?m _ _ =>
      assert (respects (keeps w_statuses) m) as Hk by solve_respects end.
    wp_frame Hk F; exact F. }
  unfold wp in Hs. destruct (WebhookController.handleWebhook req w) as [r w'].
  simpl in *. subst r. by exists w'.
Qed.

(** X14. Updates that are no text message of a group are only
    acknowledged.  For an update without message, with a message without
    text (or with empty text), or with a message of a chat whose type is
    neither [group] nor [supergroup], the handler consults no store:
    nothing changes but the status sent and the log. *)
Theorem handleWebhook_ignores_other_updates (req : WebhookController.Request) (w : World) :
  not_group_text (WebhookController.req_body req) →
  outside_ack (WebhookController.handleWebhook req w).2 = outside_ack w.
Proof.
  intros Hig.
  change (wp (WebhookController.handleWebhook req) (λ _ w', outside_ack w' = outside_ack w) w).
  unfold not_group_text in Hig. unfold WebhookController.handleWebhook. wp_steps.
  destruct (WebhookController.message _) as [msg|]; [|by wp_steps].
  destruct (WebhookController.text msg) as [txt|]; [|by wp_steps].
  simpl in Hig.
  destruct (truthy_string txt) eqn:Et; simpl; [|by wp_steps].
  destruct Hig as [Hig|[H1 H2]]; [done|].
  rewrite !bool_decide_eq_false_2 by done. simpl. by wp_steps.
Qed.

Lemma handleWebhook_ignores_other_updates_witness :
  outside_ack (WebhookController.handleWebhook private_hello three_bots).2
  = outside_ack three_bots.
Proof.
  apply (handleWebhook_ignores_other_updates private_hello three_bots).
  right. split; discriminate.
Defined.

(** X15. Updates for an unregistered bot or an unregistered group are
    dropped.  When no bot is stored under the token of the request, or no
    group under the chat of the message, the handler stores no message,
    enqueues no job and creates no bot instance; the only calls it issues
    are the two lookups of the bot and of the group. *)
Theorem handleWebhook_ignores_unregistered
    (req : WebhookController.Request) (w : World) (msg : WebhookController.TelegramMessage) :
  WebhookController.message (WebhookController.req_body req) = Some msg →
  List.find (λ b, bool_decide (bot_token b = WebhookController.req_botToken req))
    (w_bots w) = None ∨
  List.find (λ g, bool_decide (grp_telegramId g =
               string_of_Z (WebhookController.chat_id (WebhookController.chat msg))))
    (w_groups w) = None →
  let w' := (WebhookController.handleWebhook req w).2 in
  w_messages w' = w_messages w ∧ w_queue w' = w_queue w ∧
  w_botInstances w' = w_botInstances w ∧
  ∃ cs, w_calls w' = w_calls w ++ cs ∧ Forall is_registration_lookup cs.
Proof.
  intros Hmsg Hun w'. subst w'.
  change (wp (WebhookController.handleWebhook req)
            (λ _ w', w_messages w' = w_messages w ∧ w_queue w' = w_queue w ∧
                     w_botInstances w' = w_botInstances w ∧
                     ∃ cs, w_calls w' = w_calls w ++ cs ∧
                           Forall is_registration_lookup cs) w).
  assert (∀ l : list string, ∃ cs, l = l ++ cs ∧ Forall is_registration_lookup cs) as Hnil
    by (intros l; exists []; by rewrite app_nil_r).
  unfold WebhookController.handleWebhook. rewrite Hmsg. wp_steps.
  destruct (WebhookController.text msg) as [txt|]; [|by wp_steps].
  destruct (negb (truthy_string txt)); [by wp_steps|].
  destruct (_ && _); [by wp_steps|].
  unfold Prisma.bot_findUnique, Prisma.group_findUnique. wp_steps.
  assert (is_registration_lookup "prisma.bot.findUnique") as L1 by (by left).
  assert (is_registration_lookup "prisma.group.findUnique") as L2 by (by right).
  wp_call; wp_steps; [|repeat split; try done; eexists [_]; by repeat constructor].
  destruct (find _ (w_bots w)) as [bot|] eqn:Ebot;
    [|wp_steps; repeat split; try done; eexists [_]; by repeat constructor].
  destruct Hun as [Hun|Hun]; [done|].
  wp_steps. wp_call; wp_steps; rewrite ?Hun; wp_steps;
    (repeat split; try done; eexists [_; _]; rewrite <- app_assoc; by repeat constructor).
Qed.

Lemma handleWebhook_ignores_unregistered_witness :
  let w' := (WebhookController.handleWebhook (human_hello "tokZ") three_bots).2 in
  w_messages w' = w_messages three_bots ∧ w_queue w' = w_queue three_bots ∧
  w_botInstances w' = w_botInstances three_bots ∧
  ∃ cs, w_calls w' = w_calls three_bots ++ cs ∧ Forall is_registration_lookup cs.
Proof.
  apply (handleWebhook_ignores_unregistered (human_hello "tokZ") three_bots hello_message).
  - reflexivity.
  - left. reflexivity.
Defined.

Lemma handleWebhook_row req w msg txt bot group :
  WebhookController.message (WebhookController.req_body req) = Some msg →
  group_text_message msg txt →
  List.find (λ b, bool_decide (bot_token b = WebhookController.req_botToken req))
    (w_bots w) = Some bot →
  List.find (λ g, bool_decide (grp_telegramId g =
               string_of_Z (WebhookController.chat_id (WebhookController.chat msg))))
    (w_groups w) = Some group →
  w_prisma_faults w = [] →
  stored_count (grp_id group) (WebhookController.message_id msg) (w_messages w) = 0%nat →
  wp (WebhookController.handleWebhook req)
     (λ _ w', w_messages w' = w_messages w ++ [stored_row w bot group msg txt]) w.
Proof.
  intros Hmsg (Htxt & Htruthy & Htype) Hbot Hgroup Hpf Hcount.
  unfold WebhookController.handleWebhook. rewrite Hmsg, Htxt, Htruthy. simpl negb.
  replace (negb _ && negb _) with false
    by (destruct Htype as [-> | ->]; reflexivity).
  cbv iota.
  unfold Prisma.bot_findUnique, Prisma.group_findUnique. wp_steps.
  wp_call; rewrite ?Hpf in *; wsimpl; [|no_fault]. wp_steps. rewrite Hbot.
  wp_steps. wp_call; [|no_fault]. wp_steps. rewrite Hgroup. wp_steps.
  assert (existsb (λ b, bool_decide (bot_id b = bot_id bot)) (w_bots w) = true) as Hfk.
  { eapply find_some_existsb; [exact Hbot|]. by apply bool_decide_eq_true. }
  pose proof (filter_nil_find _ _ Hcount) as Hnone.
  set (row := λ sb : option Bot,
         mkMessage (w_nextMsgId w)
           (match sb with Some sb => bot_id sb | None => bot_id bot end)
           (grp_id group) txt (w_clock w) (bool_decide (is_Some sb))
           (Some (WebhookController.message_id msg))).
  pose (Qtc := λ sb (r : Result unit) (w' : World),
          match r with
          | Ok _ => w_messages w' = w_messages w ++ [row sb]
          | Throw e =>
              wp (logger error ("Webhook handling failed: " +:+ e))
                 (λ _ w'', w_messages w'' = w_messages w ++ [row sb]) w'
          end).
  assert (∀ (sb : option Bot) (su : option string) w1,
            w_messages w1 = w_messages w → w_bots w1 = w_bots w →
            w_nextMsgId w1 = w_nextMsgId w → w_clock w1 = w_clock w →
            w_prisma_faults w1 = [] →
            (∀ b, sb = Some b → b ∈ w_bots w) →
            wp (WebhookController.storeMessage bot group sb msg txt su)
               (λ r w', match r with
                        | Ok _ =>
                            wp (WebhookController.triggerResponse bot group sb
                                  (string_of_Z (WebhookController.chat_id
                                                  (WebhookController.chat msg))))
                               (Qtc sb) w'
                        | Throw e => Qtc sb (Throw e) w'
                        end) w1) as Hrest.
  { intros sb su w1 Hm Hb Hn Hc Hf Hsb. unfold WebhookController.storeMessage.
    rewrite Htruthy. unfold Prisma.message_findFirst, Prisma.message_create.
    wp_steps. wp_call; rewrite ?Hf in *; wsimpl; [|no_fault]. wp_steps.
    rewrite Hm, Hnone. wp_steps. wp_call; [|no_fault]. wp_steps. rewrite Hb.
    replace (existsb _ (w_bots w)) with true.
    2:{ symmetry. destruct sb as [b|]; [|done].
        apply existsb_exists. exists b. split; [|by apply bool_decide_eq_true].
        apply list_elem_of_In. by apply Hsb. }
    wp_steps.
    pose proof (triggerResponse_keeps_messages bot group sb
                  (string_of_Z (WebhookController.chat_id (WebhookController.chat msg))))
      as Htrig.
    wp_frame Htrig F; unfold keeps in F; unfold Qtc; [|wp_steps]; rewrite F; wsimpl;
      rewrite Hm, Hn, Hc; unfold row; by destruct sb. }
  unfold stored_row, sendingBot_of.
  destruct (WebhookController.from msg) as [[uid [uname|] []]|]; simpl;
    try (wp_steps; apply (Hrest None); [reflexivity..|by intros ? [=]]).
  destruct (truthy_string uname);
    [|wp_steps; apply (Hrest None); [reflexivity..|by intros ? [=]]].
  unfold Prisma.bot_findFirst. wp_steps. wp_call; [|no_fault]. wp_steps.
  apply (Hrest (find _ (w_bots w))); try reflexivity.
  intros b Hb. apply find_some in Hb as [Hb _]. by apply list_elem_of_In.
Qed.

(** X16. To whom a stored message is attributed.  A group text message
    that reaches a registered bot of a registered group, not yet stored, is
    stored (the store answering) as one row with the text, the platform
    message id, the group and the time of handling.  When its sender is
    flagged as a bot and its username is that of a bot registered for the
    chat, the row is attributed to that bot and marked AI-generated;
    otherwise, a human message included, it is attributed to the bot whose
    webhook received it and not marked AI-generated. *)
Theorem handleWebhook_attributes_message
    (req : WebhookController.Request) (w : World)
    (msg : WebhookController.TelegramMessage) (txt : string) (bot : Bot) (group : Group) :
  WebhookController.message (WebhookController.req_body req) = Some msg →
  group_text_message msg txt →
  List.find (λ b, bool_decide (bot_token b = WebhookController.req_botToken req))
    (w_bots w) = Some bot →
  List.find (λ g, bool_decide (grp_telegramId g =
               string_of_Z (WebhookController.chat_id (WebhookController.chat msg))))
    (w_groups w) = Some group →
  w_prisma_faults w = [] →
  stored_count (grp_id group) (WebhookController.message_id msg) (w_messages w) = 0%nat →
  let row := stored_row w bot group msg txt in
  w_messages (WebhookController.handleWebhook req w).2 = w_messages w ++ [row] ∧
  (sendingBot_of msg (w_bots w) = None →
   msg_botId row = bot_id bot ∧ msg_isAiGenerated row = false) ∧
  (∀ sb, sendingBot_of msg (w_bots w) = Some sb →
         msg_botId row = bot_id sb ∧ msg_isAiGenerated row = true).
Proof.
  intros Hmsg Htxt Hbot Hgroup Hpf Hcount row.
  split; [apply (handleWebhook_row req w msg txt bot group); done|].
  unfold row, stored_row. split.
  - intros ->. done.
  - intros sb ->. simpl. done.
Qed.

Lemma handleWebhook_attributes_witness :
  let row := stored_row three_bots botB group1 alice_message "hi" in
  w_messages (WebhookController.handleWebhook (alice_says "tokB") three_bots).2
    = w_messages three_bots ++ [row] ∧
  (sendingBot_of alice_message (w_bots three_bots) = None →
   msg_botId row = bot_id botB ∧ msg_isAiGenerated row = false) ∧
  (∀ sb, sendingBot_of alice_message (w_bots three_bots) = Some sb →
         msg_botId row = bot_id sb ∧ msg_isAiGenerated row = true).
Proof.
  apply (handleWebhook_attributes_message (alice_says "tokB") three_bots alice_message
           "hi" botB group1).
  - reflexivity.
  - split; [reflexivity|]. split; [reflexivity|]. left. reflexivity.
  - reflexivity.
  - reflexivity.
  - reflexivity.
  - reflexivity.
Defined.

Lemma storeMessage_keeps_queue bot group sb msg txt su :
  respects (keeps w_queue) (WebhookController.storeMessage bot group sb msg txt su).
Proof. solve_respects. Qed.

Lemma storeMessage_keeps_instances bot group sb msg txt su :
  respects (keeps w_botInstances) (WebhookController.storeMessage bot group sb msg txt su).
Proof. solve_respects. Qed.

Lemma storeMessage_no_selection bot group sb msg txt su :
  respects (calls_grow no_selection) (WebhookController.storeMessage bot group sb msg txt su).
Proof. solve_respects. Qed.

Lemma handleWebhook_own_message req w msg bot sb :
  WebhookController.message (WebhookController.req_body req) = Some msg →
  List.find (λ b, bool_decide (bot_token b = WebhookController.req_botToken req))
    (w_bots w) = Some bot →
  sendingBot_of msg (w_bots w) = Some sb →
  bot_id sb = bot_id bot →
  wp (WebhookController.handleWebhook req)
     (λ _ w', w_queue w' = w_queue w ∧ w_botInstances w' = w_botInstances w ∧
              ∃ cs, w_calls w' = w_calls w ++ cs ∧ Forall no_selection cs) w.
Proof.
  intros Hmsg Hbot Hsb Hid.
  assert (∀ l : list string, ∃ cs, l = l ++ cs ∧ Forall no_selection cs) as Hnil
    by (intros l; exists []; by rewrite app_nil_r).
  assert (∀ (l : list string) c, no_selection c →
            ∃ cs, l ++ [c] = l ++ cs ∧ Forall no_selection cs) as Hone
    by (intros l c Hc; exists [c]; by repeat constructor).
  unfold WebhookController.handleWebhook. rewrite Hmsg. wp_steps.
  destruct (WebhookController.text msg) as [txt|]; [|by wp_steps].
  destruct (negb (truthy_string txt)); [by wp_steps|].
  destruct (_ && _); [by wp_steps|].
  unfold Prisma.bot_findUnique, Prisma.group_findUnique. wp_steps.
  wp_call; wp_steps; [|split; [done|]; split; [done|]; by apply Hone].
  rewrite Hbot. wp_steps.
  wp_call; wp_steps;
    [|split; [done|]; split; [done|]; eexists [_; _]; rewrite <- app_assoc;
      by repeat constructor].
  destruct (find _ (w_groups w)) as [group|];
    [|wp_steps; split; [done|]; split; [done|]; eexists [_; _]; rewrite <- app_assoc;
      by repeat constructor].
  unfold sendingBot_of in Hsb.
  destruct (WebhookController.from msg) as [[uid [uname|] []]|]; simpl in Hsb |- *;
    try done.
  destruct (truthy_string uname); [|done].
  unfold Prisma.bot_findFirst. wp_steps.
  wp_call; wp_steps;
    [|split; [done|]; split; [done|]; eexists [_; _; _]; rewrite <- !app_assoc;
      by repeat constructor].
  rewrite Hsb.
  wp_frame3 (storeMessage_keeps_queue bot group (Some sb) msg txt (Some uname)) F1
            (storeMessage_keeps_instances bot group (Some sb) msg txt (Some uname)) F2
            (storeMessage_no_selection bot group (Some sb) msg txt (Some uname)) F3;
    unfold keeps in F1, F2; wsimpl; destruct F3 as (cs & Hcs & HP).
  - unfold WebhookController.triggerResponse. rewrite Hid, bool_decide_eq_true_2 by done.
    simpl. wp_steps. split; [done|]. split; [done|].
    exists (["prisma.bot.findUnique"; "prisma.group.findUnique"; "prisma.bot.findFirst"] ++ cs).
    rewrite Hcs, <- !app_assoc. split; [done|].
    apply Forall_app. split; [by repeat constructor|done].
  - wp_steps. split; [done|]. split; [done|].
    exists (["prisma.bot.findUnique"; "prisma.group.findUnique"; "prisma.bot.findFirst"] ++ cs).
    rewrite Hcs, <- !app_assoc. split; [done|].
    apply Forall_app. split; [by repeat constructor|done].
Qed.

(** X17. A bot does not answer itself.  When the message comes from the
    very bot whose webhook receives it, the handler (which may store the
    message) does not consult the selector, initialises no bot instance and
    enqueues nothing, whatever else holds or fails. *)
Theorem handleWebhook_own_message_triggers_nothing
    (req : WebhookController.Request) (w : World)
    (msg : WebhookController.TelegramMessage) (bot sb : Bot) :
  WebhookController.message (WebhookController.req_body req) = Some msg →
  List.find (λ b, bool_decide (bot_token b = WebhookController.req_botToken req))
    (w_bots w) = Some bot →
  sendingBot_of msg (w_bots w) = Some sb →
  bot_id sb = bot_id bot →
  let w' := (WebhookController.handleWebhook req w).2 in
  w_queue w' = w_queue w ∧ w_botInstances w' = w_botInstances w ∧
  ∃ cs, w_calls w' = w_calls w ++ cs ∧ ("prisma.bot.findMany" ∉ cs).
Proof.
  intros Hmsg Hbot Hsb Hid w'.
  pose proof (handleWebhook_own_message req w msg bot sb Hmsg Hbot Hsb Hid) as H.
  unfold wp in H. fold w' in H. destruct H as (Hq & Hi & cs & Hcs & HP).
  split; [done|]. split; [done|]. exists cs. split; [done|].
  rewrite Forall_forall in HP. intros Hin. by apply HP in Hin.
Qed.

Lemma handleWebhook_own_message_witness :
  let w' := (WebhookController.handleWebhook (alice_says "tokA") three_bots).2 in
  w_queue w' = w_queue three_bots ∧ w_botInstances w' = w_botInstances three_bots ∧
  ∃ cs, w_calls w' = w_calls three_bots ++ cs ∧ ("prisma.bot.findMany" ∉ cs).
Proof.
  apply (handleWebhook_own_message_triggers_nothing (alice_says "tokA") three_bots
           alice_message botA botA).
  - reflexivity.
  - reflexivity.
  - reflexivity.
  - reflexivity.
Defined.

(** * telegramService.ts: the instance registry and the platform calls *)

Lemma elem_of_added (token : string) (s : gset string) : token ∈ ({[token]} ∪ s : gset string).
Proof. apply elem_of_union. left. by apply elem_of_singleton. Qed.

Lemma not_elem_of_removed (token : string) (s : gset string) : token ∉ s ∖ {[token]}.
Proof. intros [_ H]%elem_of_difference. apply H. by apply elem_of_singleton. Qed.

Lemma elem_of_removed_other (token other : string) (s : gset string) :
  other ≠ token → token ∈ s ∖ {[other]} ↔ token ∈ s.
Proof.
  intros Hne. rewrite elem_of_difference, elem_of_singleton. split; [tauto|].
  intros H. split; [done|]. by intros ->.
Qed.

Lemma union_singleton_absorb (token : string) (s : gset string) :
  token ∈ s → s = {[token]} ∪ s.
Proof.
  intros H. apply leibniz_equiv. intros x. rewrite elem_of_union, elem_of_singleton.
  split; [tauto|]. by intros [->|?].
Qed.

Lemma initializeBot_twice token w :
  let w1 := (TelegramService.initializeBot token w).2 in
  TelegramService.initializeBot token w1 = (Ok tt, w1).
Proof.
  unfold TelegramService.initializeBot, bind, get, ret. simpl.
  destruct (bool_decide (token ∈ w_botInstances w)) eqn:E; simpl.
  - by rewrite E.
  - by rewrite bool_decide_eq_true_2 by apply elem_of_added.
Qed.

(** X18. The registry of bot instances.  [initializeBot] creates the
    instance of a token once: a second call finds it and changes nothing
    (no second instance, no second log line).  After [initializeBot] the
    instance is there: [getBotInstance] returns it and [getWebhookCallback]
    the callback of the path [/webhook/<token>].  After [removeBotInstance]
    it is gone: [getBotInstance] returns [undefined] and
    [getWebhookCallback] throws "Bot not initialized".  Removing the
    instance of another token changes nothing for this one. *)
Theorem bot_instance_registry (token other : string) (w : World) :
  (let w1 := (TelegramService.initializeBot token w).2 in
   TelegramService.initializeBot token w1 = (Ok tt, w1)) ∧
  (TelegramService.initializeBot token ;;; TelegramService.getWebhookCallback token) w
    = (Ok ("/webhook/" +:+ token), (TelegramService.initializeBot token w).2) ∧
  (TelegramService.initializeBot token ;;; TelegramService.getBotInstance token) w
    = (Ok (Some token), (TelegramService.initializeBot token w).2) ∧
  (TelegramService.removeBotInstance token ;;; TelegramService.getWebhookCallback token) w
    = (Throw "Bot not initialized", (TelegramService.removeBotInstance token w).2) ∧
  (TelegramService.removeBotInstance token ;;; TelegramService.getBotInstance token) w
    = (Ok None, (TelegramService.removeBotInstance token w).2) ∧
  (other ≠ token →
   (TelegramService.removeBotInstance other ;;; TelegramService.getBotInstance token) w
     = ((TelegramService.getBotInstance token w).1,
        (TelegramService.removeBotInstance other w).2)).
Proof.
  split; [apply initializeBot_twice|].
  unfold TelegramService.initializeBot, TelegramService.getWebhookCallback,
    TelegramService.getBotInstance, TelegramService.removeBotInstance,
    bind, get, ret, modify, logger, throw. simpl.
  repeat split.
  - destruct (bool_decide (token ∈ w_botInstances w)) eqn:E; simpl.
    + by rewrite E.
    + by rewrite bool_decide_eq_true_2 by apply elem_of_added.
  - destruct (bool_decide (token ∈ w_botInstances w)) eqn:E; simpl.
    + by rewrite E.
    + by rewrite bool_decide_eq_true_2 by apply elem_of_added.
  - by rewrite bool_decide_eq_false_2 by apply not_elem_of_removed.
  - by rewrite bool_decide_eq_false_2 by apply not_elem_of_removed.
  - intros Hne. f_equal. f_equal.
    destruct (bool_decide (token ∈ w_botInstances w)) eqn:E.
    + apply bool_decide_eq_true in E.
      by rewrite bool_decide_eq_true_2 by (by apply elem_of_removed_other).
    + apply bool_decide_eq_false in E.
      rewrite bool_decide_eq_false_2; [done|]. by rewrite elem_of_removed_other.
Qed.

Lemma validateToken_run tg token w :
  wp (TelegramService.validateToken tg token)
     (λ r w', r = Ok (botInfo_of (TelegramService.telegram_getMe tg token)) ∧
              outside_instances w' = outside_instances w ∧
              w_botInstances w' = w_botInstances w) w.
Proof.
  unfold TelegramService.validateToken. wp_steps.
  destruct (TelegramService.telegram_getMe tg token) as [me|e]; by wp_steps.
Qed.

Lemma setWebhook_run tg token url w :
  wp (TelegramService.setWebhook tg token url)
     (λ r w', r = Ok (resolved (TelegramService.telegram_setWebhook tg token url)) ∧
              outside_instances w' = outside_instances w ∧
              w_botInstances w' = {[token]} ∪ w_botInstances w) w.
Proof.
  unfold TelegramService.setWebhook, TelegramService.initializeBot. wp_steps.
  destruct (decide (token ∈ w_botInstances w)) as [Hin|Hin];
    [rewrite bool_decide_eq_true_2 by done|rewrite bool_decide_eq_false_2 by done];
    wp_steps;
    destruct (TelegramService.telegram_setWebhook tg token url) as [[]|e]; wp_steps;
    repeat split; try done; by apply union_singleton_absorb.
Qed.

Lemma removeWebhook_run tg token w :
  wp (TelegramService.removeWebhook tg token)
     (λ r w', r = Ok (resolved (TelegramService.telegram_deleteWebhook tg token)) ∧
              outside_instances w' = outside_instances w ∧
              w_botInstances w' = {[token]} ∪ w_botInstances w) w.
Proof.
  unfold TelegramService.removeWebhook, TelegramService.initializeBot. wp_steps.
  destruct (decide (token ∈ w_botInstances w)) as [Hin|Hin];
    [rewrite bool_decide_eq_true_2 by done|rewrite bool_decide_eq_false_2 by done];
    wp_steps;
    destruct (TelegramService.telegram_deleteWebhook tg token) as [[]|e]; wp_steps;
    repeat split; try done; by apply union_singleton_absorb.
Qed.

(** X19. The platform calls fail soft.  [validateToken], [setWebhook] and
    [removeWebhook] never reject, whatever the platform answers:
    [validateToken] resolves to the id, username (empty when the platform
    gives none) and first name of the bot, or to [null] when [getMe]
    rejects; [setWebhook] and [removeWebhook] resolve to whether the
    platform has accepted the request.  None of them touches anything but
    the log and the instance registry: [validateToken] registers no
    instance, the other two leave the instance of the token registered, the
    request accepted or not. *)
Theorem platform_calls_fail_soft
    (tg : TelegramService.Telegram) (token url : string) (w : World) :
  (∃ w', TelegramService.validateToken tg token w
           = (Ok (botInfo_of (TelegramService.telegram_getMe tg token)), w') ∧
         outside_instances w' = outside_instances w ∧
         w_botInstances w' = w_botInstances w) ∧
  (∃ w', TelegramService.setWebhook tg token url w
           = (Ok (resolved (TelegramService.telegram_setWebhook tg token url)), w') ∧
         outside_instances w' = outside_instances w ∧
         w_botInstances w' = {[token]} ∪ w_botInstances w) ∧
  (∃ w', TelegramService.removeWebhook tg token w
           = (Ok (resolved (TelegramService.telegram_deleteWebhook tg token)), w') ∧
         outside_instances w' = outside_instances w ∧
         w_botInstances w' = {[token]} ∪ w_botInstances w).
Proof.
  split; [|split].
  - pose proof (validateToken_run tg token w) as H.
    apply wp_elim in H as (r & w' & E & -> & H). by exists w'.
  - pose proof (setWebhook_run tg token url w) as H.
    apply wp_elim in H as (r & w' & E & -> & H). by exists w'.
  - pose proof (removeWebhook_run tg token w) as H.
    apply wp_elim in H as (r & w' & E & -> & H). by exists w'.
Qed.

(** * aiService.ts: the context and the choice of provider *)

Lemma slice_last_app {A} (n : nat) (older recent : list A) :
  length recent = n → AiService.slice_last n (older ++ recent) = recent.
Proof.
  intros <-. unfold AiService.slice_last. rewrite length_app.
  replace (length older + length recent - length recent)%nat with (length older) by lia.
  by rewrite drop_app_length.
Qed.

Lemma slice_last_short {A} (n : nat) (l : list A) :
  (length l ≤ n)%nat → AiService.slice_last n l = l.
Proof.
  intros H. unfold AiService.slice_last.
  replace (length l - n)%nat with 0%nat by lia. done.
Qed.

(** X20. The conversation context holds the last ten messages.  A history
    of at most ten messages is rendered in full, one line
    [@<username>: <text>] per message, in order, the lines joined by line
    feeds (so an empty history gives the empty string); of a longer
    history only the last ten messages count. *)
Theorem buildConversationContext_keeps_last_ten
    (older recent : list AiService.ConversationMessage) :
  (length recent ≤ 10)%nat →
  AiService.buildConversationContext recent
    = String.concat AiService.newline (context_line <$> recent) ∧
  (length recent = 10%nat →
   AiService.buildConversationContext (older ++ recent)
     = AiService.buildConversationContext recent).
Proof.
  intros Hlen. unfold AiService.buildConversationContext. split.
  - by rewrite slice_last_short.
  - intros H10. by rewrite slice_last_app, slice_last_short.
Qed.

Lemma buildConversationContext_witness :
  AiService.buildConversationContext ten_messages
    = String.concat AiService.newline (context_line <$> ten_messages) ∧
  (length ten_messages = 10%nat →
   AiService.buildConversationContext (short_history ++ ten_messages)
   = AiService.buildConversationContext ten_messages).
Proof.
  apply (buildConversationContext_keeps_last_ten short_history ten_messages).
  simpl. lia.
Defined.

(** X21. The order of the providers.  Whatever the two provider functions
    do: when OpenAI is configured and answers, its text is the response and
    Gemini is not consulted; when OpenAI fails, the failure is logged as a
    warning and Gemini, if configured, is consulted, its text being the
    response and its failure, logged as an error, being re-thrown; when
    OpenAI fails and Gemini is not configured, the error raised is "No AI
    provider configured", not the failure of OpenAI; with OpenAI not
    configured Gemini alone decides; with neither configured the call
    rejects with "No AI provider configured" and leaves the world alone. *)
Theorem generateResponse_provider_order
    (buildSystemPrompt : string → string → string)
    (generateWithOpenAI generateWithGemini : string → string → string → M string)
    (personality respondingBotUsername : string)
    (history : list AiService.ConversationMessage) (w : World) :
  let generate openai genAI :=
    AiProviders.generateResponse openai genAI buildSystemPrompt
      generateWithOpenAI generateWithGemini personality history respondingBotUsername in
  let openai_result :=
    generateWithOpenAI (buildSystemPrompt personality respondingBotUsername)
      (AiService.buildConversationContext history) respondingBotUsername w in
  let gemini_from w0 :=
    gemini_outcome
      (generateWithGemini (buildSystemPrompt personality respondingBotUsername)
         (AiService.buildConversationContext history) respondingBotUsername w0) in
  (∀ text w1 genAI, openai_result = (Ok text, w1) → generate true genAI w = (Ok text, w1)) ∧
  (∀ e w1, openai_result = (Throw e, w1) →
     generate true true w = gemini_from (openai_failure_logged e w1) ∧
     generate true false w = (Throw no_provider_error, openai_failure_logged e w1)) ∧
  generate false true w = gemini_from w ∧
  generate false false w = (Throw no_provider_error, w).
Proof.
  intros generate openai_result gemini_from.
  subst generate openai_result gemini_from.
  unfold AiProviders.generateResponse, bind, try_catch, ret, throw. cbv beta.
  split; [|split; [|split]].
  - intros text w1 genAI H. by rewrite H.
  - intros e w1 H. rewrite H. simpl. split; [|done].
    unfold gemini_outcome, openai_failure_logged.
    by destruct (generateWithGemini _ _ _ _) as [[text|e'] w3].
  - simpl. unfold gemini_outcome.
    by destruct (generateWithGemini _ _ _ _) as [[text|e'] w3].
  - reflexivity.
Qed.

(** * validateWebhook.ts *)

Lemma validateWebhook_run secret req w :
  wp (ValidateWebhook.validateWebhook secret req)
     (λ r w', outside_log w' = outside_log w ∧
              ((r = Ok ValidateWebhook.next ∧ w' = w ∧ well_formed_update secret req) ∨
               (¬ well_formed_update secret req ∧
                ∃ status e, r = Ok (ValidateWebhook.rejected status e) ∧
                  (status = 400 ∨
                   status = 403 ∧ truthy_ostring secret = true ∧
                   ValidateWebhook.x_telegram_bot_api_secret_token req ≠ secret)))) w.
Proof.
  unfold ValidateWebhook.validateWebhook, well_formed_update.
  destruct (truthy_ostring (ValidateWebhook.params_botToken req)) eqn:Etok; simpl.
  2:{ wp_steps. split; [done|]. right. split; [by intros [? _]|]. eauto 6. }
  destruct (ValidateWebhook.truthy (ValidateWebhook.body req)) eqn:Ebody; simpl.
  2:{ wp_steps. split; [done|]. right. split; [|eauto 6].
      intros (_ & (props & Hb & _) & _). by rewrite Hb in Ebody. }
  destruct (ValidateWebhook.typeof_object (ValidateWebhook.body req)) eqn:Eobj; simpl.
  2:{ wp_steps. split; [done|]. right. split; [|eauto 6].
      intros (_ & (props & Hb & _) & _). by rewrite Hb in Eobj. }
  destruct (ValidateWebhook.truthy (ValidateWebhook.property _ _)) eqn:Eid; simpl.
  2:{ wp_steps. split; [done|]. right. split; [|eauto 6].
      by intros (_ & (props & _ & Hid) & _). }
  destruct (truthy_ostring secret) eqn:Esec; simpl.
  - destruct (decide (ValidateWebhook.x_telegram_bot_api_secret_token req = secret))
      as [Hs|Hs].
    + rewrite bool_decide_eq_true_2 by done. simpl. wp_steps. split; [done|]. left.
      repeat split; try done.
      destruct (ValidateWebhook.body req) as [[]|] eqn:Eb; try done. by eexists.
    + rewrite bool_decide_eq_false_2 by done. simpl. wp_steps. split; [done|]. right.
      split; [intros (_ & _ & H); by apply Hs, H|]. eauto 8.
  - wp_steps. split; [done|]. left. repeat split; try done.
    destruct (ValidateWebhook.body req) as [[]|] eqn:Eb; try done. by eexists.
Qed.

(** X22. What the webhook middleware lets through.  [validateWebhook]
    hands a request on to the handler exactly when it names a bot token, its
    body is an object (not an array, not a primitive) with a truthy
    [update_id], and, a secret being configured, its
    [x-telegram-bot-api-secret-token] header equals the secret; an empty
    configured secret is no secret.  Handing on changes nothing.  Every
    other request is answered with status 400, or with 403 and then only
    for a wrong or missing secret; in no case is anything touched but the
    log. *)
Theorem validateWebhook_passes_well_formed_updates
    (secret : option string) (req : ValidateWebhook.Request) (w : World) :
  let out := ValidateWebhook.validateWebhook secret req w in
  outside_log out.2 = outside_log w ∧
  (out.1 = Ok ValidateWebhook.next ↔ well_formed_update secret req) ∧
  (out.1 = Ok ValidateWebhook.next → out.2 = w) ∧
  (out.1 ≠ Ok ValidateWebhook.next →
   ∃ status e, out.1 = Ok (ValidateWebhook.rejected status e) ∧
     (status = 400 ∨
      status = 403 ∧ truthy_ostring secret = true ∧
      ValidateWebhook.x_telegram_bot_api_secret_token req ≠ secret)).
Proof.
  intros out. pose proof (validateWebhook_run secret req w) as H.
  unfold wp in H. fold out in H. destruct H as [Hframe H].
  split; [done|].
  destruct H as [(Hr & Hw & Hwf)|(Hnwf & status & e & Hr & Hst)].
  - split; [done|]. split; [done|]. intros Hne. by rewrite Hr in Hne.
  - rewrite Hr. split; [split; [done|intros; by exfalso]|].
    split; [done|]. intros _. by exists status, e.
Qed.

(** X23. An update numbered 0 is refused.  A request that names a bot
    token and whose body is an object with [update_id] equal to 0 is
    answered with status 400, "Invalid Telegram update", whatever else it
    carries and whether or not a secret is configured: the presence of
    [update_id] is tested by its truthiness. *)
Theorem validateWebhook_refuses_update_id_zero
    (secret : option string) (req : ValidateWebhook.Request) (w : World)
    (props : list (string * ValidateWebhook.JsValue)) :
  truthy_ostring (ValidateWebhook.params_botToken req) = true →
  ValidateWebhook.body req = Some (ValidateWebhook.JsObject props) →
  ValidateWebhook.property "update_id" (ValidateWebhook.body req)
    = Some (ValidateWebhook.JsNumber 0%float) →
  (ValidateWebhook.validateWebhook secret req w).1
    = Ok (ValidateWebhook.rejected 400 "Invalid Telegram update").
Proof.
  intros Htok Hbody Hid. unfold ValidateWebhook.validateWebhook.
  rewrite Htok. simpl. rewrite Hid. rewrite Hbody. simpl. done.
Qed.

Lemma validateWebhook_refuses_update_id_zero_witness :
  (ValidateWebhook.validateWebhook None update_zero three_bots).1
  = Ok (ValidateWebhook.rejected 400 "Invalid Telegram update").
Proof.
  apply (validateWebhook_refuses_update_id_zero None update_zero three_bots
           [("update_id", ValidateWebhook.JsNumber 0%float);
            ("message", ValidateWebhook.JsObject [])]).
  - reflexivity.
  - reflexivity.
  - reflexivity.
Defined.

(** * botController.ts: registering, deleting and toggling bots *)

Lemma find_update_first {A} (p : A → bool) (f : A → A) (l : list A) (x : A) :
  List.find p l = Some x → p (f x) = true →
  List.find p (update_first p f l) = Some (f x).
Proof.
  induction l as [|a l IH]; simpl; [done|].
  destruct (p a) eqn:E; simpl.
  - intros [= ->] Hp. by rewrite Hp.
  - intros Hf Hp. rewrite E. by apply IH.
Qed.

Lemma find_snoc_new {A} (p : A → bool) (l : list A) (y : A) :
  List.find p l = None → p y = true → List.find p (l ++ [y]) = Some y.
Proof.
  induction l as [|a l IH]; simpl; [by intros _ ->|].
  destruct (p a); [done|]. apply IH.
Qed.

Lemma existsb_find_none {A} (p : A → bool) (l : list A) :
  List.find p l = None → existsb p l = false.
Proof.
  induction l as [|a l IH]; simpl; [done|]. destruct (p a); [done|]. apply IH.
Qed.

Lemma existsb_fresh {A} (f : A → string) (v : string) (l : list A) :
  (∀ a, a ∈ l → f a ≠ v) → existsb (λ a, bool_decide (f a = v)) l = false.
Proof.
  induction l as [|a l IH]; intros H; simpl; [done|].
  rewrite bool_decide_eq_false_2 by (apply H; left). apply IH.
  intros a' Ha'. apply H. by right.
Qed.

Lemma elem_of_update_first_id (id : string) (b b1 b' : Bot) (l : list Bot) :
  NoDup (bot_id <$> l) → List.find (is_bot id) l = Some b → bot_id b1 = id →
  b' ∈ update_first (is_bot id) (λ _, b1) l → bot_id b' = id → b' = b1.
Proof.
  intros Hnd Hb H1. induction l as [|a l IH]; simpl in *; [done|].
  apply NoDup_cons in Hnd as [Hnotin Hnd].
  unfold is_bot in *. destruct (bool_decide (bot_id a = id)) eqn:E.
  - apply bool_decide_eq_true in E. intros Hin Hid.
    apply elem_of_cons in Hin as [->|Hin]; [done|].
    exfalso. apply Hnotin. rewrite E, <- Hid. apply list_elem_of_fmap. by exists b'.
  - apply bool_decide_eq_false in E. intros Hin Hid.
    apply elem_of_cons in Hin as [->|Hin]; [done|]. by apply IH.
Qed.

Lemma bots_without_fresh id l b :
  (∀ b', b' ∈ l → bot_id b' ≠ id) → bot_id b = id → bots_without id (l ++ [b]) = l.
Proof.
  intros Hfresh Hb. unfold bots_without. rewrite List.filter_app. simpl.
  rewrite bool_decide_eq_true_2 by done. simpl. rewrite app_nil_r.
  induction l as [|a l IH]; simpl; [done|].
  rewrite bool_decide_eq_false_2 by (apply Hfresh; left). simpl. f_equal.
  apply IH. intros b' Hb'. apply Hfresh. by right.
Qed.

Lemma messages_without_fresh id w :
  referential w → (∀ b', b' ∈ w_bots w → bot_id b' ≠ id) →
  messages_without id (w_messages w) = w_messages w.
Proof.
  intros Hfk Hfresh. unfold messages_without.
  assert (∀ m, m ∈ w_messages w → msg_botId m ≠ id) as Hm.
  { intros m Hin Hid. apply Hfk in Hin. unfold bot_registered in Hin.
    apply existsb_exists in Hin as (b' & Hb' & Heq). apply bool_decide_eq_true in Heq.
    apply (Hfresh b'); [by apply list_elem_of_In|congruence]. }
  induction (w_messages w) as [|a l IH]; simpl; [done|].
  rewrite bool_decide_eq_false_2 by (apply Hm; left). simpl. f_equal.
  apply IH. intros m Hin. apply Hm. by right.
Qed.

(** Go through the elements of a concrete list. *)
Ltac for_each_element :=
  let x := fresh in
  let H := fresh in
  intros x H; repeat (apply elem_of_cons in H as [->|H]; [done|]);
  by apply elem_of_nil in H.

(** ** registerBot *)

Lemma registerBot_success dom tg new_gid new_bid token personality groupId w me :
  truthy_string token = true → truthy_string personality = true →
  truthy_string groupId = true →
  bot_of_token token w = None →
  true ∉ take 3 (w_prisma_faults w) →
  TelegramService.telegram_getMe tg token = Ok me →
  keys_available new_gid new_bid groupId w →
  wp (BotController.registerBot dom tg new_gid new_bid
        (registration token personality groupId))
     (λ r w',
        r = Ok (created dom (registered_bot new_bid token personality groupId me w)) ∧
        w_bots w' = w_bots w ++ [registered_bot new_bid token personality groupId me w] ∧
        grp_activeBots <$> group_of groupId w' = Some (activeBots_of groupId w + 1) ∧
        token ∈ w_botInstances w' ∧
        w_messages w' = w_messages w ∧ w_queue w' = w_queue w ∧
        w_prisma_faults w' = drop 3 (w_prisma_faults w)) w.
Proof.
  intros Ht Hp Hg Hnew Hpf Hme [Hbid Hgid].
  apply faults_clear_three in Hpf as (Hf0 & Hf1 & Hf2).
  unfold created, registered_bot, bot_of_token, group_of, activeBots_of, group_of in *.
  unfold BotController.registerBot, registration. cbv beta iota.
  rewrite Ht, Hp, Hg. cbn [negb orb].
  unfold Prisma.bot_findUnique. wp_steps. wp_call; [|done]. wp_steps. rewrite Hnew.
  wp_steps. unfold TelegramService.validateToken. wp_steps. rewrite Hme. wp_steps.
  unfold Prisma.group_upsert. wp_steps. wp_call; [|done]. wp_steps.
  unfold Prisma.bot_create, TelegramService.setWebhook, TelegramService.initializeBot.
  assert (existsb (λ b, bool_decide (bot_id b = new_bid)) (w_bots w) = false) as Eid
    by (by apply existsb_fresh).
  assert (existsb (λ b, bool_decide (bot_token b = token)) (w_bots w) = false) as Etok
    by (by apply existsb_find_none).
  destruct (find _ (w_groups w)) as [g|] eqn:Eg; simpl in *.
  - assert (grp_telegramId g = groupId) as Hgt.
    { apply find_some in Eg as [_ Hgt]. by apply bool_decide_eq_true in Hgt. }
    rewrite Hgid. wp_steps. wp_call; [|done]. wp_steps. rewrite Eid, Etok. wp_steps.
    destruct (bool_decide (token ∈ w_botInstances w)) eqn:Ei; wp_steps;
      destruct (TelegramService.telegram_setWebhook tg token _) as [[]|e]; wp_steps;
      cbn [negb bot_id bot_personality bot_groupId]; wp_steps;
      (split; [done|]; split; [done|]; split;
       [erewrite find_update_first; [done|done|by apply bool_decide_eq_true]|]);
      (split; [first [by apply bool_decide_eq_true in Ei | apply elem_of_added]|]);
      (split; [done|]); (split; [done|]);
      by destruct (w_prisma_faults w) as [|? [|? [|? ?]]].
  - rewrite (existsb_fresh grp_id new_gid _ Hgid). wp_steps. wp_call; [|done]. wp_steps.
    rewrite Eid, Etok. wp_steps.
    destruct (bool_decide (token ∈ w_botInstances w)) eqn:Ei; wp_steps;
      destruct (TelegramService.telegram_setWebhook tg token _) as [[]|e]; wp_steps;
      cbn [negb bot_id bot_personality bot_groupId]; wp_steps;
      (split; [done|]; split; [done|]; split;
       [rewrite find_snoc_new; [done|done|by apply bool_decide_eq_true]|]);
      (split; [first [by apply bool_decide_eq_true in Ei | apply elem_of_added]|]);
      (split; [done|]); (split; [done|]);
      by destruct (w_prisma_faults w) as [|? [|? [|? ?]]].
Qed.

(** X24. A registration stores the bot.  For a complete request with a
    token that is not stored yet and that the platform knows, the three
    store calls succeeding: [registerBot] answers 201 with the key, the
    username the platform reports (empty if it reports none), the
    personality, the chat and the webhook URL
    [<WEBHOOK_DOMAIN>/webhook/<token>]; the Bot table has one more row, the
    last, active, under that token; the Group row of the chat counts one
    bot more (a chat without a row gets one counting 1); an instance of the
    token is registered; the messages and the queue are untouched.  All
    this whatever the platform answers to [setWebhook]: a webhook that
    could not be set does not undo or fail the registration. *)
Theorem registerBot_stores_the_bot
    (dom : option string) (tg : TelegramService.Telegram)
    (new_gid new_bid token personality groupId : string) (w : World)
    (me : TelegramService.UserFromGetMe) :
  truthy_string token = true → truthy_string personality = true →
  truthy_string groupId = true →
  bot_of_token token w = None →
  true ∉ take 3 (w_prisma_faults w) →
  TelegramService.telegram_getMe tg token = Ok me →
  keys_available new_gid new_bid groupId w →
  let b := registered_bot new_bid token personality groupId me w in
  ∃ w', BotController.registerBot dom tg new_gid new_bid
          (registration token personality groupId) w = (Ok (created dom b), w') ∧
        w_bots w' = w_bots w ++ [b] ∧
        bot_of_token token w' = Some b ∧
        grp_activeBots <$> group_of groupId w' = Some (activeBots_of groupId w + 1) ∧
        token ∈ w_botInstances w' ∧
        w_messages w' = w_messages w ∧ w_queue w' = w_queue w.
Proof.
  intros Ht Hp Hg Hnew Hpf Hme Hkeys b.
  pose proof (registerBot_success dom tg new_gid new_bid token personality groupId w me
                Ht Hp Hg Hnew Hpf Hme Hkeys) as H.
  apply wp_outcome in H as (r & w' & E & -> & Hbots & Hgrp & Hinst & Hmsg & Hq & _).
  exists w'. repeat split; try done.
  unfold bot_of_token in *. rewrite Hbots. apply find_snoc_new; [done|].
  by apply bool_decide_eq_true.
Qed.

Lemma registerBot_stores_the_bot_witness :
  let b := registered_bot "D" "tokD" "dry" "-100"
             (TelegramService.mkUserFromGetMe 42 (Some "dave") "Dave") three_bots in
  ∃ w', BotController.registerBot None platform_without_webhooks "g2" "D"
          (registration "tokD" "dry" "-100") three_bots = (Ok (created None b), w') ∧
        w_bots w' = w_bots three_bots ++ [b] ∧
        bot_of_token "tokD" w' = Some b ∧
        grp_activeBots <$> group_of "-100" w' = Some (activeBots_of "-100" three_bots + 1) ∧
        "tokD" ∈ w_botInstances w' ∧
        w_messages w' = w_messages three_bots ∧ w_queue w' = w_queue three_bots.
Proof.
  apply (registerBot_stores_the_bot None platform_without_webhooks "g2" "D" "tokD" "dry" "-100"
           three_bots (TelegramService.mkUserFromGetMe 42 (Some "dave") "Dave")).
  - reflexivity.
  - reflexivity.
  - reflexivity.
  - reflexivity.
  - simpl. apply not_elem_of_nil.
  - reflexivity.
  - split; [for_each_element|reflexivity].
Defined.

Lemma registerBot_answers dom tg gid bid body w :
  wp (BotController.registerBot dom tg gid bid body)
     (λ r _, answers [201; 400; 409; 500] r) w.
Proof.
  unfold BotController.registerBot.
  wp_run.
  all: eexists; split; [reflexivity|]; simpl;
    repeat first [apply list_elem_of_here | apply list_elem_of_further].
Qed.

Lemma registerBot_refusal_stores_nothing dom tg gid bid body w :
  wp (BotController.registerBot dom tg gid bid body)
     (λ r w', ∀ resp, r = Ok resp →
                BotController.res_status resp = 400 ∨ BotController.res_status resp = 409 →
                tables w' = tables w ∧ w_botInstances w' = w_botInstances w) w.
Proof.
  unfold BotController.registerBot.
  wp_run.
  all: intros resp [= <-]; simpl; by intros [?|?].
Qed.

Lemma registerBot_incomplete dom tg gid bid body w :
  incomplete body →
  BotController.registerBot dom tg gid bid body w = (Ok missing_fields, w).
Proof.
  unfold incomplete. destruct body as [[t|] [p|] [g|]]; simpl; try done.
  intros H. unfold BotController.registerBot, try_catch. simpl.
  destruct (truthy_string t), (truthy_string p), (truthy_string g); simpl in *; done.
Qed.

Lemma registerBot_duplicate dom tg gid bid token personality groupId w b :
  truthy_string token = true → truthy_string personality = true →
  truthy_string groupId = true →
  head (w_prisma_faults w) ≠ Some true →
  bot_of_token token w = Some b →
  (BotController.registerBot dom tg gid bid (registration token personality groupId) w).1
  = Ok already_registered.
Proof.
  intros Ht Hp Hg Hf Hb.
  match goal with |- _ = ?r =>
    change (wp (BotController.registerBot dom tg gid bid
                  (registration token personality groupId)) (λ r' _, r' = r) w) end.
  unfold BotController.registerBot, registration, bot_of_token in *. cbv beta iota.
  rewrite Ht, Hp, Hg. cbn [negb orb].
  unfold Prisma.bot_findUnique. wp_steps. wp_call; [|done]. wp_steps. rewrite Hb.
  by wp_steps.
Qed.

Lemma registerBot_invalid_token dom tg gid bid token personality groupId w e :
  truthy_string token = true → truthy_string personality = true →
  truthy_string groupId = true →
  head (w_prisma_faults w) ≠ Some true →
  bot_of_token token w = None →
  TelegramService.telegram_getMe tg token = Throw e →
  (BotController.registerBot dom tg gid bid (registration token personality groupId) w).1
  = Ok invalid_token.
Proof.
  intros Ht Hp Hg Hf Hb Hme.
  match goal with |- _ = ?r =>
    change (wp (BotController.registerBot dom tg gid bid
                  (registration token personality groupId)) (λ r' _, r' = r) w) end.
  unfold BotController.registerBot, registration, bot_of_token in *. cbv beta iota.
  rewrite Ht, Hp, Hg. cbn [negb orb].
  unfold Prisma.bot_findUnique. wp_steps. wp_call; [|done]. wp_steps. rewrite Hb.
  wp_steps. unfold TelegramService.validateToken. wp_steps. rewrite Hme. by wp_steps.
Qed.

(** X25. What [registerBot] refuses, and what a refusal leaves behind.
    The handler never rejects: it always answers, with status 201, 400,
    409 or 500.  Whenever it answers 400 or 409, the tables and the
    instance registry are as before.  A request that lacks the token, the
    personality or the chat, or has one empty, is answered 400 "Missing
    required fields" without any call.  For a complete request, the lookup
    succeeding: a token already stored gives 409 "Bot already registered";
    a token not stored that the platform does not accept (or cannot be
    asked about) gives 400 "Invalid bot token". *)
Theorem registerBot_refuses_without_storing
    (dom : option string) (tg : TelegramService.Telegram) (gid bid : string)
    (body : BotController.RegisterBotBody) (w : World) :
  let out := BotController.registerBot dom tg gid bid body w in
  answers [201; 400; 409; 500] out.1 ∧
  (∀ resp, out.1 = Ok resp →
     BotController.res_status resp = 400 ∨ BotController.res_status resp = 409 →
     tables out.2 = tables w ∧ w_botInstances out.2 = w_botInstances w) ∧
  (incomplete body → out = (Ok missing_fields, w)) ∧
  (∀ token personality groupId,
     body = registration token personality groupId → ¬ incomplete body →
     head (w_prisma_faults w) ≠ Some true →
     (is_Some (bot_of_token token w) → out.1 = Ok already_registered) ∧
     (bot_of_token token w = None →
      (∃ e, TelegramService.telegram_getMe tg token = Throw e) →
      out.1 = Ok invalid_token)).
Proof.
  intros out. split; [|split; [|split]].
  - apply (registerBot_answers dom tg gid bid body w).
  - apply (registerBot_refusal_stores_nothing dom tg gid bid body w).
  - apply registerBot_incomplete.
  - intros token personality groupId -> Hc Hf.
    assert (truthy_string token = true ∧ truthy_string personality = true
            ∧ truthy_string groupId = true) as (Ht & Hp & Hg).
    { unfold incomplete, registration in Hc. simpl in Hc.
      destruct (truthy_string token), (truthy_string personality),
        (truthy_string groupId); simpl in Hc; try done; by exfalso. }
    split.
    + intros [b Hb]. by eapply registerBot_duplicate.
    + intros Hb [e He]. by eapply registerBot_invalid_token.
Qed.

Lemma registerBot_create_fails dom tg new_gid new_bid token personality groupId w me :
  truthy_string token = true → truthy_string personality = true →
  truthy_string groupId = true →
  bot_of_token token w = None →
  take 3 (w_prisma_faults w) = [false; false; true] →
  TelegramService.telegram_getMe tg token = Ok me →
  keys_available new_gid new_bid groupId w →
  wp (BotController.registerBot dom tg new_gid new_bid
        (registration token personality groupId))
     (λ r w', r = Ok internal_error ∧ w_bots w' = w_bots w ∧
              grp_activeBots <$> group_of groupId w' = Some (activeBots_of groupId w + 1) ∧
              w_botInstances w' = w_botInstances w ∧
              last (w_log w')
                = Some (mkLog error "Bot registration failed: prisma unavailable")) w.
Proof.
  intros Ht Hp Hg Hnew Hpf Hme [Hbid Hgid].
  assert (head (w_prisma_faults w) ≠ Some true ∧ head (tail (w_prisma_faults w)) ≠ Some true
          ∧ head (tail (tail (w_prisma_faults w))) = Some true) as (Hf0 & Hf1 & Hf2).
  { destruct (w_prisma_faults w) as [|? [|? [|? ?]]]; simpl in Hpf; try done.
    injection Hpf as -> -> ->. done. }
  unfold bot_of_token, group_of, activeBots_of, group_of in *.
  unfold BotController.registerBot, registration. cbv beta iota.
  rewrite Ht, Hp, Hg. cbn [negb orb].
  unfold Prisma.bot_findUnique. wp_steps. wp_call; [|done]. wp_steps. rewrite Hnew.
  wp_steps. unfold TelegramService.validateToken. wp_steps. rewrite Hme. wp_steps.
  unfold Prisma.group_upsert. wp_steps. wp_call; [|done]. wp_steps.
  unfold Prisma.bot_create.
  destruct (find _ (w_groups w)) as [g|] eqn:Eg; simpl in *.
  - assert (grp_telegramId g = groupId) as Hgt.
    { apply find_some in Eg as [_ Hgt]. by apply bool_decide_eq_true in Hgt. }
    rewrite Hgid. wp_steps. wp_call; [done|]. wp_steps.
    split; [done|]. split; [done|]. split; [|split; [done|by rewrite last_snoc]].
    erewrite find_update_first; [done|done|by apply bool_decide_eq_true].
  - rewrite (existsb_fresh grp_id new_gid _ Hgid). wp_steps. wp_call; [done|]. wp_steps.
    split; [done|]. split; [done|]. split; [|split; [done|by rewrite last_snoc]].
    rewrite find_snoc_new; [done|done|by apply bool_decide_eq_true].
Qed.

(** X26. A registration that fails half-way leaves the count raised.  The
    Group row is written before the Bot row and the two writes are not one
    transaction: when the lookup and the upsert of the group succeed and
    the creation of the bot fails, [registerBot] answers 500 "Internal
    server error" and logs the failure, no bot is stored and no instance
    registered, and yet the Group row of the chat counts one bot more than
    before. *)
Theorem registerBot_failed_creation_keeps_the_count
    (dom : option string) (tg : TelegramService.Telegram)
    (new_gid new_bid token personality groupId : string) (w : World)
    (me : TelegramService.UserFromGetMe) :
  truthy_string token = true → truthy_string personality = true →
  truthy_string groupId = true →
  bot_of_token token w = None →
  take 3 (w_prisma_faults w) = [false; false; true] →
  TelegramService.telegram_getMe tg token = Ok me →
  keys_available new_gid new_bid groupId w →
  ∃ w', BotController.registerBot dom tg new_gid new_bid
          (registration token personality groupId) w = (Ok internal_error, w') ∧
        w_bots w' = w_bots w ∧
        grp_activeBots <$> group_of groupId w' = Some (activeBots_of groupId w + 1) ∧
        w_botInstances w' = w_botInstances w ∧
        last (w_log w') = Some (mkLog error "Bot registration failed: prisma unavailable").
Proof.
  intros Ht Hp Hg Hnew Hpf Hme Hkeys.
  pose proof (registerBot_create_fails dom tg new_gid new_bid token personality groupId w me
                Ht Hp Hg Hnew Hpf Hme Hkeys) as H.
  apply wp_outcome in H as (r & w' & E & -> & H). by exists w'.
Qed.

Lemma registerBot_failed_creation_witness :
  ∃ w', BotController.registerBot None platform "g2" "D" (registration "tokD" "dry" "-100")
          (set_prisma_faults [false; false; true] three_bots) = (Ok internal_error, w') ∧
        w_bots w' = [botA; botB; botC] ∧
        grp_activeBots <$> group_of "-100" w' = Some (3 + 1) ∧
        w_botInstances w' = ∅ ∧
        last (w_log w') = Some (mkLog error "Bot registration failed: prisma unavailable").
Proof.
  apply (registerBot_failed_creation_keeps_the_count None platform "g2" "D" "tokD" "dry"
           "-100" (set_prisma_faults [false; false; true] three_bots)
           (TelegramService.mkUserFromGetMe 42 (Some "dave") "Dave")).
  - reflexivity.
  - reflexivity.
  - reflexivity.
  - reflexivity.
  - reflexivity.
  - reflexivity.
  - split; [for_each_element|reflexivity].
Defined.

(** ** deleteBot *)

Lemma deleteBot_unknown tg id w :
  head (w_prisma_faults w) ≠ Some true →
  bot_of_id id w = None →
  wp (BotController.deleteBot tg id)
     (λ r w', r = Ok not_found ∧ tables w' = tables w ∧
              w_botInstances w' = w_botInstances w) w.
Proof.
  intros Hf Hb. unfold BotController.deleteBot, Prisma.bot_findUnique_id, bot_of_id in *.
  wp_steps. wp_call; [|done]. wp_steps. rewrite Hb. by wp_steps.
Qed.

Lemma deleteBot_success tg id w b :
  true ∉ take 3 (w_prisma_faults w) →
  bot_of_id id w = Some b →
  group_counted b w →
  wp (BotController.deleteBot tg id)
     (λ r w',
        r = Ok deleted ∧
        w_bots w' = bots_without id (w_bots w) ∧
        w_messages w' = messages_without id (w_messages w) ∧
        grp_activeBots <$> group_of (bot_groupId b) w'
          = Some (activeBots_of (bot_groupId b) w - 1) ∧
        (bot_token b ∉ w_botInstances w') ∧
        w_prisma_faults w' = drop 3 (w_prisma_faults w) ∧
        w_queue w' = w_queue w) w.
Proof.
  intros Hpf Hb (g & Hg & Hrange).
  apply faults_clear_three in Hpf as (Hf0 & Hf1 & Hf2).
  unfold deleted, bot_of_id, group_of, activeBots_of, group_of in *.
  assert (grp_telegramId g = bot_groupId b) as Hgt.
  { apply find_some in Hg as [_ Hgt]. by apply bool_decide_eq_true in Hgt. }
  unfold BotController.deleteBot, Prisma.bot_findUnique_id.
  wp_steps. wp_call; [|done]. wp_steps. rewrite Hb. wp_steps.
  unfold TelegramService.removeWebhook, TelegramService.initializeBot,
    TelegramService.removeBotInstance, Prisma.bot_delete, Prisma.group_update_decrement.
  wp_steps.
  destruct (bool_decide (bot_token b ∈ w_botInstances w)) eqn:Ei; wp_steps;
    destruct (TelegramService.telegram_deleteWebhook tg (bot_token b)) as [[]|e]; wp_steps;
    (wp_call; [|done]); wp_steps; rewrite Hb; wp_steps;
    (wp_call; [|done]); wp_steps; rewrite Hg; wp_steps; cbn [grp_activeBots];
    rewrite Hrange; wp_steps;
    (split; [done|]; split; [done|]; split; [done|]; split;
     [by rewrite (find_update_first _ _ _ g Hg) by (by apply bool_decide_eq_true)|]);
    (split; [apply not_elem_of_removed|]);
    (split; [|done]); by destruct (w_prisma_faults w) as [|? [|? [|? ?]]].
Qed.

(** X27. Deleting a bot.  The lookup succeeding: [deleteBot] on a key
    that is not stored answers 404 "Bot not found" and changes neither the
    tables nor the instance registry.  On a stored bot, the three store
    calls succeeding and the Group row of its chat being there: it answers
    200, the rows of that key are gone from the Bot table and every message
    of the bot with them, the Group row counts one bot less, no instance
    of the bot's token is left, and the queue is untouched (jobs waiting
    for the bot stay).  All this whatever the platform answers to
    [deleteWebhook]. *)
Theorem deleteBot_removes_bot_and_messages
    (tg : TelegramService.Telegram) (id : string) (w : World) :
  head (w_prisma_faults w) ≠ Some true →
  (bot_of_id id w = None →
   ∃ w', BotController.deleteBot tg id w = (Ok not_found, w') ∧
         tables w' = tables w ∧ w_botInstances w' = w_botInstances w) ∧
  (∀ b, bot_of_id id w = Some b →
        true ∉ take 3 (w_prisma_faults w) → group_counted b w →
   ∃ w', BotController.deleteBot tg id w = (Ok deleted, w') ∧
         w_bots w' = bots_without id (w_bots w) ∧
         w_messages w' = messages_without id (w_messages w) ∧
         grp_activeBots <$> group_of (bot_groupId b) w'
           = Some (activeBots_of (bot_groupId b) w - 1) ∧
         (bot_token b ∉ w_botInstances w') ∧
         w_queue w' = w_queue w).
Proof.
  intros Hf. split.
  - intros Hb. pose proof (deleteBot_unknown tg id w Hf Hb) as H.
    apply wp_outcome in H as (r & w' & E & -> & H). by exists w'.
  - intros b Hb Hpf Hg. pose proof (deleteBot_success tg id w b Hpf Hb Hg) as H.
    apply wp_outcome in H as (r & w' & E & -> & H1 & H2 & H3 & H4 & _ & H5). by exists w'.
Qed.

Lemma deleteBot_removes_witness :
  (∃ w', BotController.deleteBot platform "Z" three_bots = (Ok not_found, w') ∧
         tables w' = tables three_bots ∧ w_botInstances w' = w_botInstances three_bots) ∧
  (∃ w', BotController.deleteBot platform_down "A" (three_bots_after "A")
           = (Ok deleted, w') ∧
         w_bots w' = bots_without "A" (w_bots (three_bots_after "A")) ∧
         w_messages w' = messages_without "A" (w_messages (three_bots_after "A")) ∧
         grp_activeBots <$> group_of (bot_groupId botA) w'
           = Some (activeBots_of (bot_groupId botA) (three_bots_after "A") - 1) ∧
         (bot_token botA ∉ w_botInstances w') ∧
         w_queue w' = w_queue (three_bots_after "A")).
Proof.
  split.
  - apply (deleteBot_removes_bot_and_messages platform "Z" three_bots).
    + simpl. done.
    + reflexivity.
  - apply (deleteBot_removes_bot_and_messages platform_down "A" (three_bots_after "A")).
    + simpl. done.
    + reflexivity.
    + simpl. apply not_elem_of_nil.
    + exists group1. split; reflexivity.
Defined.

(** ** toggleBot *)

Lemma toggleBot_unknown id w :
  head (w_prisma_faults w) ≠ Some true →
  bot_of_id id w = None →
  wp (BotController.toggleBot id)
     (λ r w', r = Ok not_found ∧ tables w' = tables w ∧
              w_botInstances w' = w_botInstances w) w.
Proof.
  intros Hf Hb. unfold BotController.toggleBot, Prisma.bot_findUnique_id, bot_of_id in *.
  wp_steps. wp_call; [|done]. wp_steps. rewrite Hb. by wp_steps.
Qed.

Lemma toggleBot_success id w b :
  true ∉ take 2 (w_prisma_faults w) →
  bot_of_id id w = Some b →
  wp (BotController.toggleBot id)
     (λ r w',
        r = Ok (toggled (with_isActive (negb (bot_isActive b)) b)) ∧
        w_bots w' = update_first (is_bot id) (λ _, with_isActive (negb (bot_isActive b)) b)
                      (w_bots w) ∧
        bot_of_id id w' = Some (with_isActive (negb (bot_isActive b)) b) ∧
        w_groups w' = w_groups w ∧ w_messages w' = w_messages w ∧
        w_prisma_faults w' = drop 2 (w_prisma_faults w)) w.
Proof.
  intros Hpf Hb.
  apply faults_clear_two in Hpf as [Hf0 Hf1].
  assert (bot_id b = id) as Hid.
  { apply find_some in Hb as [_ Hid]. by apply bool_decide_eq_true in Hid. }
  unfold toggled, bot_of_id in *.
  unfold BotController.toggleBot, Prisma.bot_findUnique_id, Prisma.bot_update_isActive.
  wp_steps. wp_call; [|done]. wp_steps. rewrite Hb. wp_steps.
  wp_call; [|done]. wp_steps. rewrite Hb. wp_steps.
  split; [done|]. split; [done|]. split.
  - erewrite find_update_first; [done|exact Hb|]. simpl. by apply bool_decide_eq_true.
  - split; [done|]. split; [done|]. by destruct (w_prisma_faults w) as [|? [|? ?]].
Qed.

Lemma fixed_columns_update_first id b b1 (l : list Bot) :
  List.find (is_bot id) l = Some b → fixed_columns b1 = fixed_columns b →
  fixed_columns <$> update_first (is_bot id) (λ _, b1) l = fixed_columns <$> l.
Proof.
  intros Hb H1. induction l as [|a l IH]; simpl in *; [done|].
  destruct (is_bot id a); simpl.
  - injection Hb as ->. by rewrite H1.
  - f_equal. by apply IH.
Qed.

Lemma bots_without_update_first id b1 (l : list Bot) :
  bot_id b1 = id →
  bots_without id (update_first (is_bot id) (λ _, b1) l) = bots_without id l.
Proof.
  intros H1. unfold bots_without, is_bot.
  induction l as [|a l IH]; simpl; [done|].
  destruct (bool_decide (bot_id a = id)) eqn:E; simpl.
  - by rewrite bool_decide_eq_true_2.
  - rewrite E. simpl. f_equal. apply IH.
Qed.

(** X28. Toggling a bot.  The lookup succeeding: [toggleBot] on a key that
    is not stored answers 404 "Bot not found" and changes neither the
    tables nor the instance registry.  On a stored bot, the store calls
    succeeding: it answers 200 with the key, the username and the negated
    flag, and the stored row has the negated flag; toggling once more
    answers with the original flag, which the stored row then has again.
    Neither toggle writes another column the program knows of (key, token,
    username, personality, chat, time of creation) of any row, moves a row,
    or touches the row of another bot, a group (so the count of bots of the
    chat stays) or a message. *)
Theorem toggleBot_flips_the_active_flag (id : string) (w : World) :
  head (w_prisma_faults w) ≠ Some true →
  (bot_of_id id w = None →
   ∃ w', BotController.toggleBot id w = (Ok not_found, w') ∧
         tables w' = tables w ∧ w_botInstances w' = w_botInstances w) ∧
  (∀ b, bot_of_id id w = Some b → true ∉ take 4 (w_prisma_faults w) →
   ∃ w1 w2,
     BotController.toggleBot id w
       = (Ok (BotController.mkResponse 200
                (BotController.toggled_body (bot_id b) (bot_username b)
                   (negb (bot_isActive b)))), w1) ∧
     bot_isActive <$> bot_of_id id w1 = Some (negb (bot_isActive b)) ∧
     BotController.toggleBot id w1
       = (Ok (BotController.mkResponse 200
                (BotController.toggled_body (bot_id b) (bot_username b)
                   (bot_isActive b))), w2) ∧
     bot_isActive <$> bot_of_id id w2 = Some (bot_isActive b) ∧
     (∀ w', w' = w1 ∨ w' = w2 →
        fixed_columns <$> w_bots w' = fixed_columns <$> w_bots w ∧
        bots_without id (w_bots w') = bots_without id (w_bots w) ∧
        w_groups w' = w_groups w ∧ w_messages w' = w_messages w)).
Proof.
  intros Hf. split.
  - intros Hb. pose proof (toggleBot_unknown id w Hf Hb) as H.
    apply wp_outcome in H as (r & w' & E & -> & H). by exists w'.
  - intros b Hb Hpf. apply four_faults in Hpf as [Hf1 Hf2].
    assert (bot_id b = id) as Hid.
    { apply find_some in Hb as [_ Hid]. by apply bool_decide_eq_true in Hid. }
    pose proof (toggleBot_success id w b Hf1 Hb) as H1.
    apply wp_outcome in H1 as (r1 & w1 & E1 & -> & Hbots1 & Hb1 & Hg1 & Hm1 & Hpf1).
    rewrite <- Hpf1 in Hf2.
    pose proof (toggleBot_success id w1 _ Hf2 Hb1) as H2.
    apply wp_outcome in H2 as (r2 & w2 & E2 & -> & Hbots2 & Hb2 & Hg2 & Hm2 & _).
    exists w1, w2. simpl in *. rewrite negb_involutive in *.
    assert (fixed_columns <$> w_bots w1 = fixed_columns <$> w_bots w) as Hc1.
    { rewrite Hbots1. by eapply fixed_columns_update_first. }
    assert (bots_without id (w_bots w1) = bots_without id (w_bots w)) as Ho1.
    { rewrite Hbots1. by apply bots_without_update_first. }
    split; [exact E1|]. split; [by rewrite Hb1|].
    split; [exact E2|]. split; [by rewrite Hb2|].
    intros w' [->| ->]; [done|].
    split; [|split; [|split; congruence]].
    + rewrite Hbots2, <- Hc1. by eapply fixed_columns_update_first.
    + rewrite Hbots2, <- Ho1. by apply bots_without_update_first.
Qed.

Lemma toggleBot_flips_witness :
  (∃ w', BotController.toggleBot "Z" three_bots = (Ok not_found, w') ∧
         tables w' = tables three_bots ∧ w_botInstances w' = w_botInstances three_bots) ∧
  (∃ w1 w2,
     BotController.toggleBot "B" three_bots
       = (Ok (BotController.mkResponse 200 (BotController.toggled_body "B" "bob" false)),
          w1) ∧
     bot_isActive <$> bot_of_id "B" w1 = Some false ∧
     BotController.toggleBot "B" w1
       = (Ok (BotController.mkResponse 200 (BotController.toggled_body "B" "bob" true)),
          w2) ∧
     bot_isActive <$> bot_of_id "B" w2 = Some true ∧
     (∀ w', w' = w1 ∨ w' = w2 →
        fixed_columns <$> w_bots w' = fixed_columns <$> w_bots three_bots ∧
        bots_without "B" (w_bots w') = bots_without "B" (w_bots three_bots) ∧
        w_groups w' = w_groups three_bots ∧ w_messages w' = w_messages three_bots)).
Proof.
  split.
  - apply (toggleBot_flips_the_active_flag "Z" three_bots).
    + simpl. done.
    + reflexivity.
  - apply (proj2 (toggleBot_flips_the_active_flag "B" three_bots ltac:(simpl; done)) botB).
    + reflexivity.
    + simpl. apply not_elem_of_nil.
Defined.

(** X29. A deactivated bot is never selected.  The keys of the stored bots
    being distinct: once [toggleBot] has deactivated an active bot, neither
    selector returns it, for whatever chat and whatever bot to exclude. *)
Theorem deactivated_bot_is_never_selected
    (id : string) (w : World) (b : Bot) (g t x : string) (nb : NextBot) :
  NoDup (bot_id <$> w_bots w) →
  true ∉ take 2 (w_prisma_faults w) →
  bot_of_id id w = Some b → bot_isActive b = true →
  let w1 := (BotController.toggleBot id w).2 in
  (Relay.selectNextBot g t x w1).1 = Ok (Some nb) ∨
  (MessageQueue.selectNextBot t x w1).1 = Ok (Some nb) →
  nb_id nb ≠ id.
Proof.
  intros Hnd Hpf Hb Hact w1 Hsel.
  pose proof (toggleBot_success id w b Hpf Hb) as H1.
  unfold wp in H1. fold w1 in H1. destruct H1 as (_ & Hbots & _).
  assert (∃ b', b' ∈ w_bots w1 ∧ bot_isActive b' = true ∧ nb = nextBot_of b')
    as (b' & Hin & Hact' & ->).
  { destruct Hsel as [Hsel|Hsel].
    - apply selectNextBot_never_returns_excluded in Hsel as (_ & b' & Hb' & He & ->).
      apply is_eligible_spec in He as (? & ? & ?). by exists b'.
    - apply selectNextBot0_returns_eligible in Hsel as (b' & Hb' & He & ->).
      apply is_eligible_spec in He as (? & ? & ?). by exists b'. }
  simpl. intros Hid. rewrite Hbots in Hin.
  assert (bot_id b = id) as Hbid.
  { apply find_some in Hb as [_ Hbid]. by apply bool_decide_eq_true in Hbid. }
  apply (elem_of_update_first_id id b _ b' _ Hnd Hb) in Hin; [|done|done].
  subst b'. simpl in Hact'. by rewrite Hact in Hact'.
Qed.

Lemma deactivated_bot_witness :
  nb_id (nextBot_of botB) ≠ "A".
Proof.
  apply (deactivated_bot_is_never_selected "A" three_bots botA "g1" "-100" ""
           (nextBot_of botB)).
  - apply (bool_decide_unpack _). vm_compute. exact I.
  - simpl. apply not_elem_of_nil.
  - reflexivity.
  - reflexivity.
  - left. vm_compute. reflexivity.
Defined.

(** X30. Registering a bot and deleting it again restores the store.  In
    a store where every message is owned by a stored bot: after a
    successful registration (as in X24) the deletion of the new bot
    succeeds too, and then the Bot table, the messages and the count of
    bots of the chat are what they were before the registration, and no
    instance of the token is left.  The Group row of the chat stays, also
    when the registration has created it. *)
Theorem register_then_delete_restores
    (dom : option string) (tg : TelegramService.Telegram)
    (new_gid new_bid token personality groupId : string) (w : World)
    (me : TelegramService.UserFromGetMe) :
  truthy_string token = true → truthy_string personality = true →
  truthy_string groupId = true →
  bot_of_token token w = None →
  true ∉ take 6 (w_prisma_faults w) →
  TelegramService.telegram_getMe tg token = Ok me →
  keys_available new_gid new_bid groupId w →
  int4 (activeBots_of groupId w) = true →
  referential w →
  ∃ r1 w1 w2,
    BotController.registerBot dom tg new_gid new_bid
      (registration token personality groupId) w = (Ok r1, w1) ∧
    BotController.res_status r1 = 201 ∧
    BotController.deleteBot tg new_bid w1 = (Ok deleted, w2) ∧
    w_bots w2 = w_bots w ∧ w_messages w2 = w_messages w ∧
    activeBots_of groupId w2 = activeBots_of groupId w ∧
    (token ∉ w_botInstances w2) ∧
    is_Some (group_of groupId w2).
Proof.
  intros Ht Hp Hg Hnew Hpf Hme Hkeys Hrange Hfk.
  apply six_faults in Hpf as [Hpf1 Hpf2].
  pose proof (registerBot_success dom tg new_gid new_bid token personality groupId w me
                Ht Hp Hg Hnew Hpf1 Hme Hkeys) as H1.
  apply wp_outcome in H1
    as (r1 & w1 & E1 & -> & Hbots1 & Hgrp1 & _ & Hmsg1 & _ & Hfaults1).
  set (bot := registered_bot new_bid token personality groupId me w) in *.
  destruct Hkeys as [Hfresh _].
  assert (bot_of_id new_bid w1 = Some bot) as Hb1.
  { unfold bot_of_id. rewrite Hbots1. apply find_snoc_new.
    - destruct (find _ (w_bots w)) as [b'|] eqn:E; [|done].
      apply find_some in E as [Hin Hid]. apply bool_decide_eq_true in Hid.
      by apply list_elem_of_In, Hfresh in Hin.
    - by apply bool_decide_eq_true. }
  assert (group_counted bot w1) as Hcounted.
  { unfold group_counted. simpl.
    destruct (group_of groupId w1) as [g1|]; [|done]. simpl in Hgrp1.
    injection Hgrp1 as Hg1. exists g1. split; [done|]. rewrite Hg1.
    by replace (activeBots_of groupId w + 1 - 1) with (activeBots_of groupId w) by lia. }
  rewrite <- Hfaults1 in Hpf2.
  pose proof (deleteBot_success tg new_bid w1 bot Hpf2 Hb1 Hcounted) as H2.
  apply wp_outcome in H2 as (r2 & w2 & E2 & -> & Hbots2 & Hmsg2 & Hgrp2 & Hinst2 & _).
  do 3 eexists. split; [exact E1|]. split; [done|]. split; [exact E2|].
  simpl in *.
  split; [rewrite Hbots2, Hbots1; by apply bots_without_fresh|].
  split; [rewrite Hmsg2, Hmsg1; by apply messages_without_fresh|].
  unfold activeBots_of in Hgrp2 |- *.
  destruct (group_of groupId w1) as [g1|]; [|done]. simpl in Hgrp1, Hgrp2.
  injection Hgrp1 as Hg1. rewrite Hg1 in Hgrp2.
  destruct (group_of groupId w2) as [g2|]; [|done]. simpl in Hgrp2.
  injection Hgrp2 as Hg2.
  split; [simpl; unfold activeBots_of in Hg2; lia|]. split; [done|]. by eexists.
Qed.

Lemma register_then_delete_witness :
  ∃ r1 w1 w2,
    BotController.registerBot None platform "g2" "D"
      (registration "tokD" "dry" "-200") (three_bots_after "A") = (Ok r1, w1) ∧
    BotController.res_status r1 = 201 ∧
    BotController.deleteBot platform "D" w1 = (Ok deleted, w2) ∧
    w_bots w2 = w_bots (three_bots_after "A") ∧
    w_messages w2 = w_messages (three_bots_after "A") ∧
    activeBots_of "-200" w2 = activeBots_of "-200" (three_bots_after "A") ∧
    ("tokD" ∉ w_botInstances w2) ∧
    is_Some (group_of "-200" w2).
Proof.
  apply (register_then_delete_restores None platform "g2" "D" "tokD" "dry" "-200"
           (three_bots_after "A")
           (TelegramService.mkUserFromGetMe 42 (Some "dave") "Dave")).
  - reflexivity.
  - reflexivity.
  - reflexivity.
  - reflexivity.
  - simpl. apply not_elem_of_nil.
  - reflexivity.
  - split; [for_each_element|simpl; for_each_element].
  - reflexivity.
  - for_each_element.
Defined.
